(** * Rule Engine with AST: the RuleBuilder client, verified

    A shallow embedding of [rule-engine-frontend/src/components/RuleBuilder.tsx]:
    the validation helpers, the five operation handlers, the JSON formatter and
    the graph builder of the AST visualiser, the handlers of the rule cards and
    of the AST select, together with the pieces of the JavaScript runtime they
    call ([String.prototype.trim], [includes], [JSON.parse], [JSON.stringify],
    [parseInt], [fetch]).

    Part I holds the definitions, Part II the lemmas and theorems. *)

From Stdlib Require Import ZArith NArith Lia List String Ascii Bool.
From Stdlib Require Import DecimalN.
From stdpp Require Import base option list gmap.
Import ListNotations.

Local Open Scope N_scope.
Set Warnings "-register-all".

(** * Part I: definitions *)

(** ** JavaScript strings

    A JavaScript string is a sequence of UTF-16 code units; a code unit is kept
    as its number. [js] reads a literal of the source. *)

Abbreviation char := N (only parsing).
Abbreviation jsstring := (list N) (only parsing).

Definition js (s : string) : jsstring := map N_of_ascii (list_ascii_of_string s).

(** [WhiteSpace] and [LineTerminator] of ECMAScript: what [trim] removes. *)
Definition isWhiteSpace (c : char) : bool :=
  (c =? 9) || (c =? 10) || (c =? 11) || (c =? 12) || (c =? 13) || (c =? 32) ||
  (c =? 160) || (c =? 5760) || ((8192 <=? c) && (c <=? 8202)) || (c =? 8232) ||
  (c =? 8233) || (c =? 8239) || (c =? 8287) || (c =? 12288) || (c =? 65279).

Fixpoint trimStart (s : jsstring) : jsstring :=
  match s with
  | c :: r => if isWhiteSpace c then trimStart r else s
  | [] => []
  end.

Definition trimEnd (s : jsstring) : jsstring := rev (trimStart (rev s)).

(** [s.trim()] *)
Definition trim (s : jsstring) : jsstring := trimEnd (trimStart s).

(** [!s] on a string, [a.length === 0] on an array *)
Definition isEmpty {A : Type} (s : list A) : bool :=
  match s with [] => true | _ :: _ => false end.

Fixpoint startsWith (s p : jsstring) {struct p} : bool :=
  match p, s with
  | [], _ => true
  | _ :: _, [] => false
  | c :: p', d :: s' => (c =? d) && startsWith s' p'
  end.

(** [s.includes(sub)] *)
Fixpoint includes (s sub : jsstring) : bool :=
  startsWith s sub ||
  match s with
  | [] => false
  | _ :: r => includes r sub
  end.

(** [parts.join(sep)] on strings *)
Fixpoint join (sep : jsstring) (parts : list jsstring) : jsstring :=
  match parts with
  | [] => []
  | [p] => p
  | p :: rest => p ++ sep ++ join sep rest
  end.

(** Longest prefix whose code units satisfy [p], and what follows it. *)
Fixpoint span (p : char -> bool) (s : jsstring) : jsstring * jsstring :=
  match s with
  | c :: r => if p c then let '(a, b) := span p r in (c :: a, b) else ([], s)
  | [] => ([], [])
  end.

(** ** JavaScript numbers, as far as JSON needs them

    A number is a binary64 value.  [JSON.parse] reads a decimal literal and
    rounds it to the nearest one, to the even significand in a tie; a literal
    at or above [2^1024 - 2^970] reads as an infinity, one at or below
    [2^-1075] as zero.  [JSON.stringify] prints a finite number with the
    fewest digits that read back as the same number ([Number::toString]).  A
    finite number other than zero is kept as what is printed: the digit string
    [ds] (code units ['0'..'9'], no zero at either end) and the position [n] of
    the decimal point, value [0.ds * 10^n]; zero is the empty digit string.  The
    sign of zero is not kept ([===] does not see it, and [JSON.stringify]
    prints [0] for both). *)

Module JSNumber.

Inductive number :=
| Fin (neg : bool) (ds : jsstring) (n : Z)
| Inf (neg : bool).

Definition zero : number := Fin false [] 0.

Definition isDigit (c : char) : bool := (48 <=? c) && (c <=? 57).
Definition isZeroDigit (c : char) : bool := c =? 48.

Fixpoint uint_of_digits (ds : jsstring) : Decimal.uint :=
  match ds with
  | [] => Decimal.Nil
  | c :: r =>
    let u := uint_of_digits r in
    match c with
    | 48 => Decimal.D0 u | 49 => Decimal.D1 u | 50 => Decimal.D2 u
    | 51 => Decimal.D3 u | 52 => Decimal.D4 u | 53 => Decimal.D5 u
    | 54 => Decimal.D6 u | 55 => Decimal.D7 u | 56 => Decimal.D8 u
    | _ => Decimal.D9 u
    end
  end.

Fixpoint digits_of_uint (u : Decimal.uint) : jsstring :=
  match u with
  | Decimal.Nil => []
  | Decimal.D0 u => 48 :: digits_of_uint u | Decimal.D1 u => 49 :: digits_of_uint u
  | Decimal.D2 u => 50 :: digits_of_uint u | Decimal.D3 u => 51 :: digits_of_uint u
  | Decimal.D4 u => 52 :: digits_of_uint u | Decimal.D5 u => 53 :: digits_of_uint u
  | Decimal.D6 u => 54 :: digits_of_uint u | Decimal.D7 u => 55 :: digits_of_uint u
  | Decimal.D8 u => 56 :: digits_of_uint u | Decimal.D9 u => 57 :: digits_of_uint u
  end.

(** The natural number a digit string denotes, and back. *)
Definition digits_value (ds : jsstring) : N := N.of_uint (uint_of_digits ds).
Definition decimal (k : N) : jsstring := digits_of_uint (N.to_uint k).

Definition stripLeadingZeros (ds : jsstring) : jsstring := snd (span isZeroDigit ds).
Definition stripTrailingZeros (ds : jsstring) : jsstring :=
  rev (stripLeadingZeros (rev ds)).

(** *** binary64

    A double other than zero, an infinity or [NaN] is [m * 2^e] with
    [0 < m < 2^53] and [-1074 <= e <= 971], where [2^52 <= m] unless
    [e = -1074] (a subnormal); its sign is kept apart. *)
Inductive binary64 :=
| B64zero
| B64finite (m : Z) (e : Z)
| B64infinity.

Definition binary64_eqb (x y : binary64) : bool :=
  match x, y with
  | B64zero, B64zero => true
  | B64finite m e, B64finite m' e' => ((m =? m') && (e =? e'))%Z
  | B64infinity, B64infinity => true
  | _, _ => false
  end.

(** [floor (log2 (a / b))] for positive [a] and [b]. *)
Definition floorLog2 (a b : Z) : Z :=
  let l := (Z.log2 a - Z.log2 b)%Z in
  if (0 <=? l)%Z
  then (if (b * 2 ^ l <=? a)%Z then l else l - 1)%Z
  else (if (b <=? a * 2 ^ (- l))%Z then l else l - 1)%Z.

(** The integer nearest to [num / den], the even one in a tie. *)
Definition roundHalfEven (num den : Z) : Z :=
  let q := (num / den)%Z in
  let r := (num mod den)%Z in
  if (2 * r <? den)%Z then q
  else if (den <? 2 * r)%Z then (q + 1)%Z
  else if Z.even q then q else (q + 1)%Z.

(** The double nearest to [a / b], for [0 <= a] and [0 < b]. *)
Definition binary64_of_ratio (a b : Z) : binary64 :=
  if (a =? 0)%Z then B64zero
  else
    let e := Z.max (floorLog2 a b - 52) (-1074) in
    let m := if (0 <=? e)%Z then roundHalfEven a (b * 2 ^ e)
             else roundHalfEven (a * 2 ^ (- e)) b in
    let '(m, e) := if (m =? 2 ^ 53)%Z then (2 ^ 52, e + 1)%Z else (m, e) in
    if (m =? 0)%Z then B64zero
    else if (971 <? e)%Z then B64infinity
    else B64finite m e.

(** The double nearest to [0.ds * 10^n], where [ds] has no zero at its front.
    Above [10^310] and below [10^-324] no division is needed: it would give
    the same ([binary64_of_decimal_unguarded]). *)
Definition binary64_of_decimal (ds : jsstring) (n : Z) : binary64 :=
  let k := Z.of_nat (length ds) in
  let D := Z.of_N (digits_value ds) in
  if (D =? 0)%Z then B64zero
  else if (310 <? n)%Z then B64infinity
  else if (n <? -324)%Z then B64zero
  else if (k <=? n)%Z then binary64_of_ratio (D * 10 ^ (n - k)) 1
  else binary64_of_ratio D (10 ^ (k - n)).

(** The exact decimal of [m * 2^e]: its digits (zeros at the end included)
    and the position of its point. *)
Definition exactDecimal (m e : Z) : jsstring * Z :=
  if (0 <=? e)%Z
  then let E := decimal (Z.to_N (m * 2 ^ e)) in (E, Z.of_nat (length E))
  else let E := decimal (Z.to_N (m * 5 ^ (- e))) in (E, (Z.of_nat (length E) + e)%Z).

(** [Number::toString], the choice of the digits: the least [k] for which a
    decimal of [k] digits reads as [m * 2^e]; of two such decimals the one
    nearer to [m * 2^e], of two equally near the one with the even last digit.
    The candidates with [k] digits are the exact decimal [E] cut after [k]
    digits, and the next decimal of [k] digits above it. *)
Fixpoint shortestFrom (fuel : nat) (k : nat) (m e : Z) (E : jsstring) (n0 : Z)
    : option (jsstring * Z) :=
  match fuel with
  | O => None
  | S fuel' =>
    let lo := take k E in
    let s := digits_value lo in
    let hi := decimal (s + 1) in
    let nhi := (n0 + Z.of_nat (length hi) - Z.of_nat (length lo))%Z in
    let lo' := stripTrailingZeros lo in
    let hi' := stripTrailingZeros hi in
    let okLo := binary64_eqb (binary64_of_decimal lo' n0) (B64finite m e) in
    let okHi := binary64_eqb (binary64_of_decimal hi' nhi) (B64finite m e) in
    let scale := 10 ^ N.of_nat (length E - length lo) in
    let below := digits_value E - s * scale in
    let above := (s + 1) * scale - digits_value E in
    if okLo && okHi then
      if (below <? above) || ((below =? above) && N.even s)
      then Some (lo', n0) else Some (hi', nhi)
    else if okLo then Some (lo', n0)
    else if okHi then Some (hi', nhi)
    else shortestFrom fuel' (S k) m e E n0
  end.

(** The search runs through the lengths of the exact decimal, which reads as
    [m * 2^e] itself. *)
Definition shortest (m e : Z) : option (jsstring * Z) :=
  let '(E, n0) := exactDecimal m e in shortestFrom (length E) 1 m e E n0.

(** The number nearest to [0.ds * 10^n], with the sign [neg].  The search for
    the shortest digits of a double always ends ([shortest_total]), so the
    last case, which keeps the digits as they were read, is not reached. *)
Definition number_of_decimal (neg : bool) (ds : jsstring) (n : Z) : number :=
  match binary64_of_decimal ds n with
  | B64zero => zero
  | B64infinity => Inf neg
  | B64finite m e =>
    match shortest m e with
    | Some (ds', n') => Fin neg ds' n'
    | None => Fin neg ds n
    end
  end.

(** The digits of the literal [ip.fp e exp], without the zeros at either end,
    and the position of its point. *)
Definition decimal_of_literal (ip fp : jsstring) (exp : Z) : jsstring * Z :=
  let all := ip ++ fp in
  let ds1 := stripLeadingZeros all in
  let n := (Z.of_nat (length ip) + exp
            - (Z.of_nat (length all) - Z.of_nat (length ds1)))%Z in
  (stripTrailingZeros ds1, n).

(** The number denoted by the literal [ip.fp e exp] with sign [neg]. *)
Definition number_of_literal (neg : bool) (ip fp : jsstring) (exp : Z) : number :=
  let '(ds, n) := decimal_of_literal ip fp exp in number_of_decimal neg ds n.

(** [x === y] on numbers *)
Definition number_eqb (x y : number) : bool :=
  match x, y with
  | Fin a ds n, Fin b ds' n' =>
    Bool.eqb a b && bool_decide (ds = ds') && (n =? n')%Z
  | Inf a, Inf b => Bool.eqb a b
  | _, _ => false
  end.

(** An integer as a number (rule ids). *)
Definition number_of_Z (z : Z) : number :=
  number_of_literal (z <? 0)%Z (decimal (Z.abs_N z)) [] 0.

Definition isFinite (x : number) : bool :=
  match x with Fin _ _ _ => true | Inf _ => false end.

Definition isZero (x : number) : bool :=
  match x with Fin _ [] _ => true | _ => false end.

(** [Number::toString] (radix 10) on a positive finite number. *)
Definition digitsToString (ds : jsstring) (n : Z) : jsstring :=
  let k := Z.of_nat (length ds) in
  if ((k <=? n) && (n <=? 21))%Z then
    ds ++ repeat 48 (Z.to_nat (n - k))
  else if ((0 <? n) && (n <=? 21))%Z then
    take (Z.to_nat n) ds ++ [46] ++ drop (Z.to_nat n) ds
  else if ((-6 <? n) && (n <=? 0))%Z then
    [48; 46] ++ repeat 48 (Z.to_nat (- n)) ++ ds
  else
    let e := (n - 1)%Z in
    let esign := if (e <? 0)%Z then 45 else 43 in
    match ds with
    | [] => []
    | [d] => [d; 101; esign] ++ decimal (Z.abs_N e)
    | d :: rest => [d; 46] ++ rest ++ [101; esign] ++ decimal (Z.abs_N e)
    end.

Definition NumberToString (x : number) : jsstring :=
  match x with
  | Fin _ [] _ => [48]
  | Fin neg ds n => (if neg then [45] else []) ++ digitsToString ds n
  | Inf neg => (if neg then [45] else []) ++ js "Infinity"
  end.

(** The number production of the JSON grammar, read greedily from the
    front of [s]: an optional minus sign, an integer part without a
    superfluous leading zero, an optional fraction (a point and at least one
    digit), an optional exponent ([e] or [E], an optional sign, at least one
    digit). *)
Definition parse_fraction (s : jsstring) : option (jsstring * jsstring) :=
  match s with
  | 46 :: r =>
    let '(fp, r') := span isDigit r in
    if isEmpty fp then None else Some (fp, r')
  | _ => Some ([], s)
  end.

Definition parse_exponent (s : jsstring) : option (Z * jsstring) :=
  match s with
  | c :: r =>
    if (c =? 101) || (c =? 69) then
      let '(eneg, r1) :=
        match r with
        | 43 :: r' => (false, r')
        | 45 :: r' => (true, r')
        | _ => (false, r)
        end in
      let '(ed, r2) := span isDigit r1 in
      if isEmpty ed then None
      else
        let e := Z.of_N (digits_value ed) in
        Some (if eneg then (- e)%Z else e, r2)
    else Some (0%Z, s)
  | [] => Some (0%Z, s)
  end.

(** The literal after its sign. *)
Definition parse_unsigned (neg : bool) (s : jsstring) : option (number * jsstring) :=
  let '(ip, s2) := span isDigit s in
  match ip with
  | [] => None
  | d :: more =>
    if (d =? 48) && negb (isEmpty more) then None
    else
      match parse_fraction s2 with
      | None => None
      | Some (fp, s3) =>
        match parse_exponent s3 with
        | None => None
        | Some (e, s4) => Some (number_of_literal neg ip fp e, s4)
        end
      end
  end.

Definition parse_number (s : jsstring) : option (number * jsstring) :=
  match s with
  | 45 :: r => parse_unsigned true r
  | _ => parse_unsigned false s
  end.

End JSNumber.
Export JSNumber.

(** ** [parseInt]

    [parseInt(s)] with the radix left out: leading white space is dropped,
    then an optional sign, then the prefix [0x] or [0X], which selects radix
    16; the digits of the radix that follow are read up to the first code unit
    that is not one.  The result is the integer read, or [None] for [NaN] when
    there is no digit.  The integer is kept exact, as the rule ids are; where
    an id is printed or sent, [number_of_Z] rounds it to a double. *)

(** The value of a code unit as a digit: [0-9], [a-z], [A-Z]. *)
Definition digitOf (c : char) : option N :=
  if (48 <=? c) && (c <=? 57) then Some (c - 48)
  else if (97 <=? c) && (c <=? 122) then Some (c - 87)
  else if (65 <=? c) && (c <=? 90) then Some (c - 55)
  else None.

Definition isRadixDigit (radix : N) (c : char) : bool :=
  match digitOf c with Some d => d <? radix | None => false end.

(** The integer a digit string denotes in the radix. *)
Definition mathInt (radix : N) (ds : jsstring) : N :=
  fold_left (fun acc c => radix * acc + default 0 (digitOf c)) ds 0.

Definition parseInt (s : jsstring) : option Z :=
  let s1 := trimStart s in
  let '(neg, s2) :=
    match s1 with
    | 45 :: r => (true, r)
    | 43 :: r => (false, r)
    | _ => (false, s1)
    end in
  let '(radix, s3) :=
    match s2 with
    | 48 :: x :: r => if (x =? 120) || (x =? 88) then (16, r) else (10, s2)
    | _ => (10, s2)
    end in
  let z := fst (span (isRadixDigit radix) s3) in
  if isEmpty z then None
  else Some (if neg then (- Z.of_N (mathInt radix z))%Z
             else Z.of_N (mathInt radix z)).

(** ** JavaScript values and JSON *)

Inductive jsval :=
| VUndefined
| VNull
| VBool (b : bool)
| VNum (x : number)
| VStr (s : jsstring)
| VArr (items : list jsval)
| VObj (props : list (jsstring * jsval)).

Module JSON.

(** *** Objects: own properties in enumeration order

    Array-index keys (canonical decimals below [2^32 - 1]) come first, in
    ascending order, then the other keys in creation order; defining a key
    that exists replaces its value where it stands. *)
Definition arrayIndex (k : jsstring) : option N :=
  match k with
  | [] => None
  | d :: more =>
    if forallb isDigit k && negb ((d =? 48) && negb (isEmpty more))
       && (Nat.leb (length k) 10) && (digits_value k <? 4294967295)
    then Some (digits_value k) else None
  end.

(** Does a new key [k] go in front of the existing key [k']? *)
Definition goesBefore (k k' : jsstring) : bool :=
  match arrayIndex k, arrayIndex k' with
  | Some i, Some j => i <? j
  | Some _, None => true
  | None, _ => false
  end.

Definition sameKey (k k' : jsstring) : bool := bool_decide (k = k').

(** [CreateDataProperty(obj, k, v)] *)
Fixpoint defineProperty (k : jsstring) (v : jsval)
    (props : list (jsstring * jsval)) : list (jsstring * jsval) :=
  match props with
  | [] => [(k, v)]
  | (k', v') :: rest =>
    if sameKey k k' then (k, v) :: rest
    else if goesBefore k k' then (k, v) :: props
    else (k', v') :: defineProperty k v rest
  end.

(** [obj[k]] on an object's own properties *)
Fixpoint lookupProperty (k : jsstring) (props : list (jsstring * jsval)) : jsval :=
  match props with
  | [] => VUndefined
  | (k', v) :: rest => if sameKey k k' then v else lookupProperty k rest
  end.

(** *** [JSON.parse] *)

Definition isJsonWs (c : char) : bool :=
  (c =? 9) || (c =? 10) || (c =? 13) || (c =? 32).

Fixpoint skip_ws (s : jsstring) : jsstring :=
  match s with
  | c :: r => if isJsonWs c then skip_ws r else s
  | [] => []
  end.

Definition hexValue (c : char) : option N :=
  if (48 <=? c) && (c <=? 57) then Some (c - 48)
  else if (97 <=? c) && (c <=? 102) then Some (c - 87)
  else if (65 <=? c) && (c <=? 70) then Some (c - 55)
  else None.

Definition hex4 (a b c d : char) : option char :=
  match hexValue a, hexValue b, hexValue c, hexValue d with
  | Some x, Some y, Some z, Some w => Some (((x * 16 + y) * 16 + z) * 16 + w)
  | _, _, _, _ => None
  end.

(** The character after a backslash, other than [u]. *)
Definition unescape (c : char) : option char :=
  if c =? 34 then Some 34          (* quotation mark *)
  else if c =? 92 then Some 92     (* backslash *)
  else if c =? 47 then Some 47     (* slash *)
  else if c =? 98 then Some 8      (* b: backspace *)
  else if c =? 102 then Some 12    (* f: form feed *)
  else if c =? 110 then Some 10    (* n: line feed *)
  else if c =? 114 then Some 13    (* r: carriage return *)
  else if c =? 116 then Some 9     (* t: tab *)
  else None.

(** A string literal after its opening quote, up to the closing one. *)
Fixpoint parse_string (s : jsstring) : option (jsstring * jsstring) :=
  match s with
  | [] => None
  | c :: r =>
    if c =? 34 then Some ([], r)
    else if c =? 92 then
      match r with
      | [] => None
      | e :: r1 =>
        if e =? 117 then
          match r1 with
          | h1 :: h2 :: h3 :: h4 :: r2 =>
            match hex4 h1 h2 h3 h4 with
            | Some u =>
              match parse_string r2 with
              | Some (t, rest) => Some (u :: t, rest)
              | None => None
              end
            | None => None
            end
          | _ => None
          end
        else
          match unescape e with
          | Some u =>
            match parse_string r1 with
            | Some (t, rest) => Some (u :: t, rest)
            | None => None
            end
          | None => None
          end
      end
    else if c <? 32 then None
    else
      match parse_string r with
      | Some (t, rest) => Some (c :: t, rest)
      | None => None
      end
  end.

(** Recursive descent on the JSON grammar; [fuel] bounds the number of
    nested calls, and [parse] below gives enough of it. *)
Fixpoint parse_value (fuel : nat) (s : jsstring) {struct fuel}
    : option (jsval * jsstring) :=
  match fuel with
  | O => None
  | S f =>
    match skip_ws s with
    | [] => None
    | c :: r =>
      if c =? 123 then                               (* { *)
        match skip_ws r with
        | 125 :: r' => Some (VObj [], r')
        | _ =>
          match parse_members f [] r with
          | Some (props, r') => Some (VObj props, r')
          | None => None
          end
        end
      else if c =? 91 then                           (* [ *)
        match skip_ws r with
        | 93 :: r' => Some (VArr [], r')
        | _ =>
          match parse_elements f r with
          | Some (items, r') => Some (VArr items, r')
          | None => None
          end
        end
      else if c =? 34 then                           (* string *)
        match parse_string r with
        | Some (t, r') => Some (VStr t, r')
        | None => None
        end
      else if startsWith (c :: r) (js "true") then Some (VBool true, drop 4 (c :: r))
      else if startsWith (c :: r) (js "false") then Some (VBool false, drop 5 (c :: r))
      else if startsWith (c :: r) (js "null") then Some (VNull, drop 4 (c :: r))
      else
        match parse_number (c :: r) with
        | Some (x, r') => Some (VNum x, r')
        | None => None
        end
    end
  end
with parse_elements (fuel : nat) (s : jsstring) {struct fuel}
    : option (list jsval * jsstring) :=
  match fuel with
  | O => None
  | S f =>
    match parse_value f s with
    | None => None
    | Some (v, r) =>
      match skip_ws r with
      | c :: r' =>
        if c =? 44 then                              (* , *)
          match parse_elements f r' with
          | Some (vs, r'') => Some (v :: vs, r'')
          | None => None
          end
        else if c =? 93 then Some ([v], r')          (* ] *)
        else None
      | [] => None
      end
    end
  end
with parse_members (fuel : nat) (acc : list (jsstring * jsval)) (s : jsstring)
    {struct fuel} : option (list (jsstring * jsval) * jsstring) :=
  match fuel with
  | O => None
  | S f =>
    match skip_ws s with
    | 34 :: r =>
      match parse_string r with
      | None => None
      | Some (k, r1) =>
        match skip_ws r1 with
        | 58 :: r2 =>                                (* : *)
          match parse_value f r2 with
          | None => None
          | Some (v, r3) =>
            let acc' := defineProperty k v acc in
            match skip_ws r3 with
            | c :: r4 =>
              if c =? 44 then parse_members f acc' r4
              else if c =? 125 then Some (acc', r4)  (* } *)
              else None
            | [] => None
            end
          end
        | _ => None
        end
      end
    | _ => None
    end
  end.

(** [JSON.parse(text)]: [None] is the [SyntaxError] it throws. *)
Definition parse (text : jsstring) : option jsval :=
  match parse_value (S (length text)) text with
  | Some (v, rest) => if isEmpty (skip_ws rest) then Some v else None
  | None => None
  end.

(** *** [JSON.stringify] *)

Definition hexDigit (d : N) : char := if d <? 10 then 48 + d else 87 + d.

(** [\uXXXX], in lower case as [UnicodeEscape] prints it *)
Definition unicodeEscape (c : char) : jsstring :=
  [92; 117; hexDigit (c / 4096 mod 16); hexDigit (c / 256 mod 16);
   hexDigit (c / 16 mod 16); hexDigit (c mod 16)].

Definition isHighSurrogate (c : char) : bool := (55296 <=? c) && (c <=? 56319).
Definition isLowSurrogate (c : char) : bool := (56320 <=? c) && (c <=? 57343).

(** The body of [QuoteJSONString]; [afterHigh] tells that the previous code
    unit was a high surrogate, which a low surrogate needs to stand as it
    is. *)
Fixpoint quoteChars (afterHigh : bool) (s : jsstring) : jsstring :=
  match s with
  | [] => []
  | c :: r =>
    if c =? 8 then [92; 98] ++ quoteChars false r
    else if c =? 9 then [92; 116] ++ quoteChars false r
    else if c =? 10 then [92; 110] ++ quoteChars false r
    else if c =? 12 then [92; 102] ++ quoteChars false r
    else if c =? 13 then [92; 114] ++ quoteChars false r
    else if c =? 34 then [92; 34] ++ quoteChars false r
    else if c =? 92 then [92; 92] ++ quoteChars false r
    else if c <? 32 then unicodeEscape c ++ quoteChars false r
    else if isHighSurrogate c then
      match r with
      | d :: _ =>
        if isLowSurrogate d then c :: quoteChars true r
        else unicodeEscape c ++ quoteChars false r
      | [] => unicodeEscape c
      end
    else if isLowSurrogate c then
      if afterHigh then c :: quoteChars false r
      else unicodeEscape c ++ quoteChars false r
    else c :: quoteChars false r
  end.

Definition quote (s : jsstring) : jsstring := [34] ++ quoteChars false s ++ [34].

(** The texts of the properties of an object whose value is not
    [undefined], given the serialisation [ser] of a value; [sp] is the space
    after the colon. *)
Definition memberTexts (ser : jsval -> option jsstring) (sp : jsstring)
    : list (jsstring * jsval) -> list jsstring :=
  fix members (l : list (jsstring * jsval)) : list jsstring :=
    match l with
    | [] => []
    | (k, x) :: rest =>
      match ser x with
      | Some sx => (quote k ++ [58] ++ sp ++ sx) :: members rest
      | None => members rest
      end
    end.

(** [SerializeJSONProperty] with the gap string [gap] at the current
    indentation [indent]; [None] is [undefined]. *)
Fixpoint serialize (gap indent : jsstring) (v : jsval) : option jsstring :=
  match v with
  | VUndefined => None
  | VNull => Some (js "null")
  | VBool true => Some (js "true")
  | VBool false => Some (js "false")
  | VNum x => Some (if isFinite x then NumberToString x else js "null")
  | VStr s => Some (quote s)
  | VArr items =>
    let inner := indent ++ gap in
    let partial :=
      map (fun x => default (js "null") (serialize gap inner x)) items in
    Some (if isEmpty partial then js "[]"
          else if isEmpty gap then [91] ++ join [44] partial ++ [93]
          else [91; 10] ++ inner ++ join ([44; 10] ++ inner) partial
               ++ [10] ++ indent ++ [93])
  | VObj props =>
    let inner := indent ++ gap in
    let partial :=
      memberTexts (serialize gap inner) (if isEmpty gap then [] else [32]) props in
    Some (if isEmpty partial then js "{}"
          else if isEmpty gap then [123] ++ join [44] partial ++ [125]
          else [123; 10] ++ inner ++ join ([44; 10] ++ inner) partial
               ++ [10] ++ indent ++ [125])
  end.

(** [JSON.stringify(v)] and [JSON.stringify(v, null, 2)] *)
Definition stringify (v : jsval) : option jsstring := serialize [] [] v.
Definition stringify2 (v : jsval) : option jsstring := serialize [32; 32] [] v.

End JSON.

(** *** The operators of the language the component applies to values *)

(** [typeof v === 'object'] *)
Definition typeofObject (v : jsval) : bool :=
  match v with
  | VNull | VArr _ | VObj _ => true
  | _ => false
  end.

Definition isNull (v : jsval) : bool :=
  match v with VNull => true | _ => false end.

(** [Array.isArray(v)] *)
Definition isArray (v : jsval) : bool :=
  match v with VArr _ => true | _ => false end.

(** An object that is neither [null] nor an array. *)
Definition isObject (v : jsval) : bool :=
  match v with VObj _ => true | _ => false end.

(** [ToBoolean] *)
Definition truthy (v : jsval) : bool :=
  match v with
  | VUndefined | VNull => false
  | VBool b => b
  | VNum x => negb (isZero x)
  | VStr s => negb (isEmpty s)
  | VArr _ | VObj _ => true
  end.

(** ** Exceptions

    What a [throw] carries: an [Error] object of some class with its message,
    or a primitive value.  The component throws [Error]s only, and so do
    [fetch], [response.json()], [JSON.parse] and the conversions; an object
    that is thrown and is not an [Error] does not occur. *)

Inductive ErrorClass := ErrorK | SyntaxErrorK | TypeErrorK.

Inductive primitive :=
| PUndefined
| PNull
| PBool (b : bool)
| PNum (x : number)
| PStr (s : jsstring).

Inductive thrown :=
| ErrorObject (cls : ErrorClass) (message : jsstring)
| ThrownValue (v : primitive).

(** [new Error(msg)] *)
Definition newError (msg : jsstring) : thrown := ErrorObject ErrorK msg.

(** [err instanceof Error], [err instanceof SyntaxError], [err.message] *)
Definition instanceofError (e : thrown) : bool :=
  match e with ErrorObject _ _ => true | ThrownValue _ => false end.

Definition instanceofSyntaxError (e : thrown) : bool :=
  match e with ErrorObject SyntaxErrorK _ => true | _ => false end.

Definition message (e : thrown) : jsstring :=
  match e with ErrorObject _ m => m | ThrownValue _ => [] end.

(** [ToString] on a primitive value *)
Definition PrimitiveToString (p : primitive) : jsstring :=
  match p with
  | PUndefined => js "undefined"
  | PNull => js "null"
  | PBool true => js "true"
  | PBool false => js "false"
  | PNum x => NumberToString x
  | PStr s => s
  end.

(** [String(err)] *)
Definition StringOf (e : thrown) : jsstring :=
  match e with
  | ErrorObject ErrorK m => js "Error: " ++ m
  | ErrorObject SyntaxErrorK m => js "SyntaxError: " ++ m
  | ErrorObject TypeErrorK m => js "TypeError: " ++ m
  | ThrownValue v => PrimitiveToString v
  end.

(** [Object.hasOwn(obj, k)] *)
Definition hasOwnProperty (k : jsstring) (props : list (jsstring * jsval)) : bool :=
  existsb (fun kv => JSON.sameKey k (fst kv)) props.

(** [ToString], as a template literal and [new Error(v)] apply it to a value
    decoded from JSON.  An object is converted by [OrdinaryToPrimitive] with
    the hint string: its [toString] is called when it is callable.  A decoded
    object inherits [Object.prototype.toString], which gives
    [[object Object]], unless it has an own member [toString]: a decoded
    value is never callable, [valueOf] is then tried, which returns no
    primitive either (the own one is not callable, the inherited one returns
    the object), and the conversion throws a [TypeError]; the wording of its
    message is the engine's.  An array is joined with commas, [null] and
    [undefined] as the empty string, the other elements converted in order. *)
Fixpoint ToString (v : jsval) : thrown + jsstring :=
  match v with
  | VUndefined => inr (js "undefined")
  | VNull => inr (js "null")
  | VBool true => inr (js "true")
  | VBool false => inr (js "false")
  | VNum x => inr (NumberToString x)
  | VStr s => inr s
  | VArr items =>
    match
      (fix elements (l : list jsval) : thrown + list jsstring :=
         match l with
         | [] => inr []
         | x :: rest =>
           match (match x with
                  | VUndefined | VNull => inr []
                  | _ => ToString x
                  end) with
           | inl e => inl e
           | inr t =>
             match elements rest with
             | inl e => inl e
             | inr ts => inr (t :: ts)
             end
           end
         end) items
    with
    | inl e => inl e
    | inr ts => inr (join [44] ts)
    end
  | VObj props =>
    if hasOwnProperty (js "toString") props
    then inl (ErrorObject TypeErrorK (js "Cannot convert object to primitive value"))
    else inr (js "[object Object]")
  end.

(** [v.k] for the keys the component reads ([detail], [result], [results]):
    an own property of an object, [undefined] on any other value that has
    properties, a [TypeError] on [null] and [undefined].  The wording of the
    message is the engine's. *)
Definition getProp (v : jsval) (k : jsstring) : thrown + jsval :=
  match v with
  | VUndefined =>
    inl (ErrorObject TypeErrorK
           (js "Cannot read properties of undefined (reading '" ++ k ++ js "')"))
  | VNull =>
    inl (ErrorObject TypeErrorK
           (js "Cannot read properties of null (reading '" ++ k ++ js "')"))
  | VObj props => inr (JSON.lookupProperty k props)
  | _ => inr VUndefined
  end.

(** ** The rule engine behind the client

    The parser and the combinator run in the backend, whose code is not part
    of the client; the client only posts rule strings and rule ids to it. *)

Module Engine.

Inductive TokenKind :=
| IDENTIFIER | NUMBER | STRING | COMPARATOR
| LOGICAL_AND | LOGICAL_OR | LPAREN | RPAREN.

Record Token := mkToken { kind : TokenKind; text : jsstring }.

Inductive Connective := AND | OR.

Inductive Literal :=
| NumberLiteral (text : jsstring)
| StringLiteral (text : jsstring).

Inductive AST :=
| Operator (connective : Connective) (left right : AST)
| Operand (field comparator : jsstring) (literal : Literal).

Inductive EngineError :=
| SyntaxError (position : nat)
| ValidationError
| EvaluationError (field : jsstring).

Definition isLetter (c : char) : bool :=
  ((65 <=? c) && (c <=? 90)) || ((97 <=? c) && (c <=? 122)) || (c =? 95).

Definition toUpper (c : char) : char :=
  if (97 <=? c) && (c <=? 122) then c - 32 else c.

Definition sameText (a b : jsstring) : bool := bool_decide (a = b).

(** Modelled from the spec: the tokenizer of section 4.1 (the backend's
    tokenizer is not in the client's source).  Whitespace separates; a run
    of digits with at most one decimal point is a NUMBER; a quoted span is a
    STRING holding the unquoted content; a run of letters and underscores is
    LOGICAL_AND or LOGICAL_OR when it equals AND or OR without regard to
    case, an IDENTIFIER otherwise; [>] and [<] take a following [=] with
    them, [=] stands alone; parentheses are tokens; anything else is a
    syntax error at its position. *)
Fixpoint tokenize_from (fuel pos : nat) (s : jsstring) : EngineError + list Token :=
  match fuel with
  | O => inl (SyntaxError pos)
  | S f =>
    match s with
    | [] => inr []
    | c :: r =>
      let continue (t : Token) (used : nat) :=
        match tokenize_from f (pos + used)%nat (drop used s) with
        | inr ts => inr (t :: ts)
        | inl e => inl e
        end in
      if JSON.isJsonWs c then tokenize_from f (S pos) r
      else if isDigit c then
        let '(ip, r1) := span isDigit s in
        match r1 with
        | 46 :: r2 =>
          let '(fp, _) := span isDigit r2 in
          let t := ip ++ [46] ++ fp in
          continue (mkToken NUMBER t) (length t)
        | _ => continue (mkToken NUMBER ip) (length ip)
        end
      else if (c =? 39) || (c =? 34) then
        let '(content, r1) := span (fun d => negb (d =? c)) r in
        match r1 with
        | [] => inl (SyntaxError pos)
        | _ :: _ => continue (mkToken STRING content) (length content + 2)%nat
        end
      else if isLetter c then
        let '(word, _) := span isLetter s in
        let upper := map toUpper word in
        let k := if sameText upper (js "AND") then LOGICAL_AND
                 else if sameText upper (js "OR") then LOGICAL_OR
                 else IDENTIFIER in
        continue (mkToken k word) (length word)
      else if (c =? 62) || (c =? 60) then
        match r with
        | 61 :: _ => continue (mkToken COMPARATOR [c; 61]) 2%nat
        | _ => continue (mkToken COMPARATOR [c]) 1%nat
        end
      else if c =? 61 then continue (mkToken COMPARATOR [c]) 1%nat
      else if c =? 40 then continue (mkToken LPAREN [c]) 1%nat
      else if c =? 41 then continue (mkToken RPAREN [c]) 1%nat
      else inl (SyntaxError pos)
    end
  end.

Definition tokenize (ruleString : jsstring) : EngineError + list Token :=
  tokenize_from (S (length ruleString)) 0 ruleString.

(** Modelled from the spec: the grammar of section 4.2 (the backend's parser
    is not in the client's source).
    [Expression := Primary ((LOGICAL_AND | LOGICAL_OR) Primary)*], a chain
    leaning to the left; [Primary := LPAREN Expression RPAREN | Comparison];
    [Comparison := IDENTIFIER COMPARATOR (NUMBER | STRING)].  [consumed]
    counts the tokens read so far, for the error position. *)
Fixpoint parseExpression (fuel consumed : nat) (ts : list Token)
    {struct fuel} : EngineError + (AST * list Token) :=
  match fuel with
  | O => inl (SyntaxError consumed)
  | S f =>
    match parsePrimary f consumed ts with
    | inl e => inl e
    | inr (first, rest) =>
      parseChain f (consumed + (length ts - length rest))%nat first rest
    end
  end
with parsePrimary (fuel consumed : nat) (ts : list Token)
    {struct fuel} : EngineError + (AST * list Token) :=
  match fuel with
  | O => inl (SyntaxError consumed)
  | S f =>
    match ts with
    | mkToken LPAREN _ :: rest =>
      match parseExpression f (S consumed) rest with
      | inr (e, mkToken RPAREN _ :: rest') => inr (e, rest')
      | inr (_, rest') => inl (SyntaxError (consumed + (length ts - length rest'))%nat)
      | inl e => inl e
      end
    | mkToken IDENTIFIER field :: mkToken COMPARATOR cmp
        :: mkToken NUMBER lit :: rest =>
      inr (Operand field cmp (NumberLiteral lit), rest)
    | mkToken IDENTIFIER field :: mkToken COMPARATOR cmp
        :: mkToken STRING lit :: rest =>
      inr (Operand field cmp (StringLiteral lit), rest)
    | _ => inl (SyntaxError consumed)
    end
  end
with parseChain (fuel consumed : nat) (acc : AST) (ts : list Token)
    {struct fuel} : EngineError + (AST * list Token) :=
  match fuel with
  | O => inl (SyntaxError consumed)
  | S f =>
    let step (c : Connective) (rest : list Token) :=
      match parsePrimary f (S consumed) rest with
      | inl e => inl e
      | inr (next, rest') =>
        parseChain f (consumed + (length ts - length rest'))%nat
          (Operator c acc next) rest'
      end in
    match ts with
    | mkToken LOGICAL_AND _ :: rest => step AND rest
    | mkToken LOGICAL_OR _ :: rest => step OR rest
    | _ => inr (acc, ts)
    end
  end.

(** [Parse(ruleString)] of section 6: tokenize, read one expression, and
    accept only if no token is left. *)
Definition Parse (ruleString : jsstring) : EngineError + AST :=
  match tokenize ruleString with
  | inl e => inl e
  | inr ts =>
    match parseExpression (2 * length ts + 2) 0 ts with
    | inl e => inl e
    | inr (ast, []) => inr ast
    | inr (_, rest) => inl (SyntaxError (length ts - length rest))
    end
  end.

(** Modelled from the spec: the combinator of section 4.4 (the backend's
    [/rules/combine] is not in the client's source).  Fewer than two roots
    are a [ValidationError]; otherwise the roots are folded from the left
    into a chain of new operator nodes with the given connective. *)
Definition combine (roots : list AST) (c : Connective) : EngineError + AST :=
  match roots with
  | r1 :: r2 :: rest => inr (fold_left (Operator c) rest (Operator c r1 r2))
  | _ => inl ValidationError
  end.

(** Modelled from the spec: a Record of section 3, the input of evaluation:
    an object whose values are numbers, strings, booleans or null. *)
Definition isFieldValue (v : jsval) : bool :=
  match v with
  | VNull | VBool _ | VNum _ | VStr _ => true
  | _ => false
  end.

Definition isRecord (v : jsval) : bool :=
  match v with
  | VObj props => forallb (fun kv => isFieldValue (snd kv)) props
  | _ => false
  end.

Definition isRecordList (v : jsval) : bool :=
  match v with
  | VArr items => forallb isRecord items
  | _ => false
  end.

End Engine.

(** ** The component's data *)

(** A node of the AST the backend stores with a rule, as the visualiser reads
    it: [node.type], [node.value], [node.left], [node.right]. *)
Inductive ASTNode := mkASTNode {
  type : jsstring;
  value : jsval;
  left : option ASTNode;
  right : option ASTNode
}.

Module Rule.
(** [interface Rule]; [rule_id] is optional, [ast] is [null] in a draft. *)
Record t := mk {
  rule_id : option Z;
  name : jsstring;
  description : jsstring;
  rule_string : jsstring;
  ast : option ASTNode
}.
End Rule.

Module CombineRuleData.
(** [interface CombineRuleData] *)
Record t := mk {
  rules : list Z;
  operator : Engine.Connective;
  name : jsstring;
  description : jsstring
}.
End CombineRuleData.

Inductive ConnectionStatus := connected | disconnected.

(** The state of [RuleEngine]: one field for each [useState]. *)
Record State := mkState {
  rules : list Rule.t;
  newRule : Rule.t;
  selectedRule : option Rule.t;
  evaluationData : jsstring;
  evaluationResults : gmap Z jsval;
  error : jsstring;
  showDialog : bool;
  showCombineDialog : bool;
  isSubmitting : bool;
  isLoading : bool;
  connectionStatus : ConnectionStatus;
  selectedRules : list Z;
  combineRuleData : CombineRuleData.t;
  batchData : jsstring;
  batchResults : jsval
}.

Definition emptyRule : Rule.t := Rule.mk None [] [] [] None.
Definition emptyCombineRuleData : CombineRuleData.t :=
  CombineRuleData.mk [] Engine.AND [] [].

(** The state of the first render. *)
Definition initialState : State :=
  mkState [] emptyRule None [] ∅ [] false false false true disconnected []
          emptyCombineRuleData [] (VArr []).

Definition setRules (x : list Rule.t) (s : State) : State :=
  mkState x (newRule s) (selectedRule s) (evaluationData s) (evaluationResults s)
    (error s) (showDialog s) (showCombineDialog s) (isSubmitting s) (isLoading s)
    (connectionStatus s) (selectedRules s) (combineRuleData s) (batchData s)
    (batchResults s).
Definition setNewRule (x : Rule.t) (s : State) : State :=
  mkState (rules s) x (selectedRule s) (evaluationData s) (evaluationResults s)
    (error s) (showDialog s) (showCombineDialog s) (isSubmitting s) (isLoading s)
    (connectionStatus s) (selectedRules s) (combineRuleData s) (batchData s)
    (batchResults s).
Definition setEvaluationData (x : jsstring) (s : State) : State :=
  mkState (rules s) (newRule s) (selectedRule s) x (evaluationResults s)
    (error s) (showDialog s) (showCombineDialog s) (isSubmitting s) (isLoading s)
    (connectionStatus s) (selectedRules s) (combineRuleData s) (batchData s)
    (batchResults s).
Definition setEvaluationResults (x : gmap Z jsval) (s : State) : State :=
  mkState (rules s) (newRule s) (selectedRule s) (evaluationData s) x
    (error s) (showDialog s) (showCombineDialog s) (isSubmitting s) (isLoading s)
    (connectionStatus s) (selectedRules s) (combineRuleData s) (batchData s)
    (batchResults s).
Definition setError (x : jsstring) (s : State) : State :=
  mkState (rules s) (newRule s) (selectedRule s) (evaluationData s)
    (evaluationResults s) x (showDialog s) (showCombineDialog s) (isSubmitting s)
    (isLoading s) (connectionStatus s) (selectedRules s) (combineRuleData s)
    (batchData s) (batchResults s).
Definition setShowDialog (x : bool) (s : State) : State :=
  mkState (rules s) (newRule s) (selectedRule s) (evaluationData s)
    (evaluationResults s) (error s) x (showCombineDialog s) (isSubmitting s)
    (isLoading s) (connectionStatus s) (selectedRules s) (combineRuleData s)
    (batchData s) (batchResults s).
Definition setShowCombineDialog (x : bool) (s : State) : State :=
  mkState (rules s) (newRule s) (selectedRule s) (evaluationData s)
    (evaluationResults s) (error s) (showDialog s) x (isSubmitting s)
    (isLoading s) (connectionStatus s) (selectedRules s) (combineRuleData s)
    (batchData s) (batchResults s).
Definition setIsSubmitting (x : bool) (s : State) : State :=
  mkState (rules s) (newRule s) (selectedRule s) (evaluationData s)
    (evaluationResults s) (error s) (showDialog s) (showCombineDialog s) x
    (isLoading s) (connectionStatus s) (selectedRules s) (combineRuleData s)
    (batchData s) (batchResults s).
Definition setIsLoading (x : bool) (s : State) : State :=
  mkState (rules s) (newRule s) (selectedRule s) (evaluationData s)
    (evaluationResults s) (error s) (showDialog s) (showCombineDialog s)
    (isSubmitting s) x (connectionStatus s) (selectedRules s) (combineRuleData s)
    (batchData s) (batchResults s).
Definition setConnectionStatus (x : ConnectionStatus) (s : State) : State :=
  mkState (rules s) (newRule s) (selectedRule s) (evaluationData s)
    (evaluationResults s) (error s) (showDialog s) (showCombineDialog s)
    (isSubmitting s) (isLoading s) x (selectedRules s) (combineRuleData s)
    (batchData s) (batchResults s).
Definition setSelectedRules (x : list Z) (s : State) : State :=
  mkState (rules s) (newRule s) (selectedRule s) (evaluationData s)
    (evaluationResults s) (error s) (showDialog s) (showCombineDialog s)
    (isSubmitting s) (isLoading s) (connectionStatus s) x (combineRuleData s)
    (batchData s) (batchResults s).
Definition setSelectedRule (x : option Rule.t) (s : State) : State :=
  mkState (rules s) (newRule s) x (evaluationData s) (evaluationResults s)
    (error s) (showDialog s) (showCombineDialog s) (isSubmitting s) (isLoading s)
    (connectionStatus s) (selectedRules s) (combineRuleData s) (batchData s)
    (batchResults s).
Definition setBatchData (x : jsstring) (s : State) : State :=
  mkState (rules s) (newRule s) (selectedRule s) (evaluationData s)
    (evaluationResults s) (error s) (showDialog s) (showCombineDialog s)
    (isSubmitting s) (isLoading s) (connectionStatus s) (selectedRules s)
    (combineRuleData s) x (batchResults s).
Definition setCombineRuleData (x : CombineRuleData.t) (s : State) : State :=
  mkState (rules s) (newRule s) (selectedRule s) (evaluationData s)
    (evaluationResults s) (error s) (showDialog s) (showCombineDialog s)
    (isSubmitting s) (isLoading s) (connectionStatus s) (selectedRules s) x
    (batchData s) (batchResults s).
Definition setBatchResults (x : jsval) (s : State) : State :=
  mkState (rules s) (newRule s) (selectedRule s) (evaluationData s)
    (evaluationResults s) (error s) (showDialog s) (showCombineDialog s)
    (isSubmitting s) (isLoading s) (connectionStatus s) (selectedRules s)
    (combineRuleData s) (batchData s) x.

(** ** The backend, seen from [fetch] *)

Inductive Method := GET | POST | DELETE.

Record Request := mkRequest {
  method : Method;
  url : jsstring;
  headers : list (jsstring * jsstring);
  body : option jsstring
}.

(** What [await response.json()] gives: an exception, or the decoded body;
    [asRules] is the decoded body read at the type [Rule[]], which is how
    [fetchRules] stores it, without a check. *)
Inductive JsonResult :=
| JsonThrows (e : thrown)
| JsonValue (v : jsval) (asRules : list Rule.t).

(** What [await fetch(...)] gives: a rejection (no connection), or a response
    with its [ok] flag, its status and its body. *)
Inductive FetchResult :=
| Rejected (e : thrown)
| Response (ok : bool) (status : Z) (json : JsonResult).

(** The backend answers a request knowing the requests made before it; the
    list holds the request being answered first, then the earlier ones, the
    latest first. *)
Definition World := list Request -> FetchResult.

(** ** Handlers as computations

    A handler runs against a backend, changes the pending state through the
    setters and sends requests; it ends normally with a result or with an
    exception that nobody caught. *)

Record Sys := mkSys {
  ui : State;
  sent : list Request      (* the requests sent so far, the latest first *)
}.

Definition M (A : Type) : Type := World -> Sys -> (thrown + A) * Sys.

Definition ret {A} (a : A) : M A := fun _ s => (inr a, s).

Definition throw {A} (e : thrown) : M A := fun _ s => (inl e, s).

Definition bind {A B} (m : M A) (k : A -> M B) : M B :=
  fun w s =>
    match m w s with
    | (inr a, s') => k a w s'
    | (inl e, s') => (inl e, s')
    end.

Declare Scope handler_scope.
Delimit Scope handler_scope with handler.
Bind Scope handler_scope with M.
Notation "x <- c1 ;; c2" := (bind c1 (fun x => c2))
  (at level 100, c1 at next level, c2 at level 200, right associativity)
  : handler_scope.
Notation "c1 ;; c2" := (bind c1 (fun _ => c2))
  (at level 100, c2 at level 200, right associativity) : handler_scope.

(** [try { body } catch (err) { handler }] *)
Definition try_catch {A} (body : M A) (handler : thrown -> M A) : M A :=
  fun w s =>
    match body w s with
    | (inl e, s') => handler e w s'
    | (inr a, s') => (inr a, s')
    end.

(** [try { body } finally { final }] *)
Definition try_finally {A} (body : M A) (final : M unit) : M A :=
  fun w s =>
    match body w s with
    | (r, s') =>
      match final w s' with
      | (inl e, s'') => (inl e, s'')
      | (inr _, s'') => (r, s'')
      end
    end.

(** A state setter called from a handler. *)
Definition set (f : State -> State) : M unit :=
  fun _ s => (inr tt, mkSys (f (ui s)) (sent s)).

(** A synchronous call that may throw. *)
Definition lift {A} (r : thrown + A) : M A := fun _ s => (r, s).

(** [await fetch(url, options)] *)
Definition fetch (req : Request) : M (bool * Z * JsonResult) :=
  fun w s =>
    let history := req :: sent s in
    match w history with
    | Rejected e => (inl e, mkSys (ui s) history)
    | Response ok status json => (inr (ok, status, json), mkSys (ui s) history)
    end.

(** [await response.json()] *)
Definition json (response : bool * Z * JsonResult) : M (jsval * list Rule.t) :=
  match snd response with
  | JsonThrows e => throw e
  | JsonValue v rs => ret (v, rs)
  end.

Definition ok (response : bool * Z * JsonResult) : bool := fst (fst response).
Definition status (response : bool * Z * JsonResult) : Z := snd (fst response).

(** [JSON.parse(text)] where it is called; the message of the [SyntaxError]
    is the engine's, and no handler shows it. *)
Definition JSON_parse (text : jsstring) : M jsval :=
  match JSON.parse text with
  | Some v => ret v
  | None => throw (ErrorObject SyntaxErrorK (js "Unexpected token in JSON"))
  end.

(** Running a handler of a render whose state is [st]: the handler's closure
    reads [st], and the setters start from it. *)
Definition run {A} (handler : State -> M A) (w : World) (st : State)
    : (thrown + A) * Sys :=
  handler st w (mkSys st []).

(** ** RuleBuilder.tsx *)

Definition BACKEND_URL : jsstring := js "http://localhost:8000".

Definition jsonHeaders : list (jsstring * jsstring) :=
  [(js "Content-Type", js "application/json")].

Definition idValue (id : option Z) : jsval :=
  match id with
  | Some z => VNum (number_of_Z z)
  | None => VUndefined
  end.

(** The requests the component sends, as its calls of [fetch] build them. *)
Definition healthRequest : Request :=
  mkRequest GET (BACKEND_URL ++ js "/health") [] None.

Definition listRequest : Request :=
  mkRequest GET (BACKEND_URL ++ js "/rules/") [] None.

Definition createRequest (rule : Rule.t) : Request :=
  mkRequest POST (BACKEND_URL ++ js "/rules/") jsonHeaders
    (JSON.stringify (VObj
       [(js "name", VStr (trim (Rule.name rule)));
        (js "description", VStr (trim (Rule.description rule)));
        (js "rule_string", VStr (trim (Rule.rule_string rule)))])).

Definition deleteRequest (ruleId : Z) : Request :=
  mkRequest DELETE
    (BACKEND_URL ++ js "/rules/" ++ NumberToString (number_of_Z ruleId)) [] None.

Definition connectiveValue (c : Engine.Connective) : jsval :=
  match c with
  | Engine.AND => VStr (js "AND")
  | Engine.OR => VStr (js "OR")
  end.

Definition idsValue (ids : list Z) : jsval :=
  VArr (map (fun z => VNum (number_of_Z z)) ids).

(** The object [combineRuleData], its properties in the order the literal
    created them. *)
Definition combineRuleDataProps (d : CombineRuleData.t) : list (jsstring * jsval) :=
  [(js "rules", idsValue (CombineRuleData.rules d));
   (js "operator", connectiveValue (CombineRuleData.operator d));
   (js "name", VStr (CombineRuleData.name d));
   (js "description", VStr (CombineRuleData.description d))].

(** [{ ...combineRuleData, rules: selectedRules }] *)
Definition combineRequest (d : CombineRuleData.t) (selected : list Z) : Request :=
  mkRequest POST (BACKEND_URL ++ js "/rules/combine") jsonHeaders
    (JSON.stringify (VObj
       (JSON.defineProperty (js "rules") (idsValue selected)
          (combineRuleDataProps d)))).

Definition evaluateRequest (ruleId : Z) (parsedData : jsval) : Request :=
  mkRequest POST
    (BACKEND_URL ++ js "/rules/evaluate/" ++ NumberToString (number_of_Z ruleId))
    jsonHeaders
    (JSON.stringify (VObj [(js "data", parsedData)])).

Definition batchRequest (listed : list Rule.t) (dataList : jsval) : Request :=
  mkRequest POST (BACKEND_URL ++ js "/rules/evaluate-batch") jsonHeaders
    (JSON.stringify (VObj
       [(js "rule_ids", VArr (map (fun r => idValue (Rule.rule_id r)) listed));
        (js "data_list", dataList)])).

Definition connectionError : jsstring :=
  js "Cannot connect to backend server. Please ensure it is running at "
  ++ BACKEND_URL.

Local Open Scope handler_scope.

Definition validateJsonData (jsonString : jsstring) : M bool :=
  try_catch
    (if isEmpty (trim jsonString)
     then throw (newError (js "Evaluation data cannot be empty"))
     else
       parsed <- JSON_parse jsonString ;;
       if negb (typeofObject parsed) || isNull parsed
       then throw (newError (js "Data must be a JSON object or array"))
       else ret true)
    (fun err =>
       if instanceofSyntaxError err
       then set (setError (js "Invalid JSON format. Please check your input.")) ;;
            ret false
       else set (setError (if instanceofError err then message err
                           else js "Invalid data format")) ;;
            ret false).

Definition checkBackendConnection : M bool :=
  try_catch
    (response <- fetch healthRequest ;;
     if ok response
     then set (setConnectionStatus connected) ;; ret true
     else throw (newError (js "Backend not responding")))
    (fun err =>
       set (setConnectionStatus disconnected) ;;
       set (setError connectionError) ;;
       ret false).

Definition fetchRules : M unit :=
  try_finally
    (try_catch
       (set (setIsLoading true) ;;
        isConnected <- checkBackendConnection ;;
        if negb isConnected then ret tt
        else
          response <- fetch listRequest ;;
          if negb (ok response)
          then throw (newError (js "HTTP error! status: "
                                ++ NumberToString (number_of_Z (status response))))
          else
            data <- json response ;;
            set (setRules (snd data)) ;;
            set (setError []))
       (fun err =>
          set (setError (js "Failed to fetch rules: "
                         ++ (if instanceofError err then message err
                             else StringOf err)))))
    (set (setIsLoading false)).

Definition validateRule (rule : Rule.t) : thrown + unit :=
  if isEmpty (trim (Rule.name rule))
  then inl (newError (js "Rule name is required"))
  else if isEmpty (trim (Rule.rule_string rule))
  then inl (newError (js "Rule expression is required"))
  else if negb (includes (Rule.rule_string rule) (js "AND"))
          && negb (includes (Rule.rule_string rule) (js "OR"))
  then inl (newError (js "Rule must contain at least one operator (AND/OR)"))
  else inr tt.

(** [new Error(errorData.detail || fallback)] *)
Definition detailError (errorData : jsval) (fallback : jsstring) : M unit :=
  detail <- lift (getProp errorData (js "detail")) ;;
  msg <- lift (if truthy detail then ToString detail else inr fallback) ;;
  throw (newError msg).

Definition createRule (c : State) : M unit :=
  try_finally
    (try_catch
       (set (setIsSubmitting true) ;;
        set (setError []) ;;
        isConnected <- checkBackendConnection ;;
        if negb isConnected then ret tt
        else
          lift (validateRule (newRule c)) ;;
          response <- fetch (createRequest (newRule c)) ;;
          (if negb (ok response)
           then errorData <- json response ;;
                detailError (fst errorData) (js "Failed to create rule")
           else ret tt) ;;
          fetchRules ;;
          set (setNewRule emptyRule) ;;
          set (setShowDialog false))
       (fun err =>
          set (setError (if instanceofError err then message err
                         else js "Failed to create rule"))))
    (set (setIsSubmitting false)).

Definition deleteRule (ruleId : Z) (c : State) : M unit :=
  try_catch
    (response <- fetch (deleteRequest ruleId) ;;
     (if negb (ok response)
      then throw (newError (js "Failed to delete rule"))
      else ret tt) ;;
     fetchRules ;;
     set (setSelectedRules (filter (fun id => id ≠ ruleId) (selectedRules c))))
    (fun err =>
       set (setError (if instanceofError err then message err
                      else js "Failed to delete rule"))).

Definition combineRules (c : State) : M unit :=
  try_catch
    (set (setError []) ;;
     response <- fetch (combineRequest (combineRuleData c) (selectedRules c)) ;;
     (if negb (ok response)
      then throw (newError (js "Failed to combine rules"))
      else ret tt) ;;
     fetchRules ;;
     set (setShowCombineDialog false) ;;
     set (setSelectedRules []) ;;
     set (setCombineRuleData emptyCombineRuleData))
    (fun err =>
       set (setError (if instanceofError err then message err
                      else js "Failed to combine rules"))).

Definition evaluateRule (ruleId : Z) (c : State) : M unit :=
  try_catch
    (set (setError []) ;;
     isConnected <- checkBackendConnection ;;
     if negb isConnected then ret tt
     else
       valid <- validateJsonData (evaluationData c) ;;
       if negb valid then ret tt
       else
         parsedData <- JSON_parse (evaluationData c) ;;
         response <- fetch (evaluateRequest ruleId parsedData) ;;
         (if negb (ok response)
          then errorData <- json response ;;
               detailError (fst errorData) (js "Failed to evaluate rule")
          else ret tt) ;;
         result <- json response ;;
         verdict <- lift (getProp (fst result) (js "result")) ;;
         set (setEvaluationResults (<[ruleId := verdict]> (evaluationResults c))))
    (fun err =>
       set (setError (if instanceofError err then message err
                      else js "Failed to evaluate rule"))).

Definition evaluateBatch (c : State) : M unit :=
  try_catch
    (valid <- validateJsonData (batchData c) ;;
     if negb valid then ret tt
     else
       dataList <- JSON_parse (batchData c) ;;
       (if negb (isArray dataList)
        then throw (newError (js "Batch data must be an array of objects"))
        else ret tt) ;;
       response <- fetch (batchRequest (rules c) dataList) ;;
       (if negb (ok response)
        then throw (newError (js "Failed to evaluate batch"))
        else ret tt) ;;
       result <- json response ;;
       results <- lift (getProp (fst result) (js "results")) ;;
       set (setBatchResults results))
    (fun err =>
       set (setError (if instanceofError err then message err
                      else js "Failed to evaluate batch"))).

(** [JSON.stringify] gives a string on every value [JSON.parse] returns;
    [undefined] would leave the text as it is. *)
Definition formatJsonInput (c : State) : M unit :=
  try_catch
    (parsed <- JSON_parse (evaluationData c) ;;
     match JSON.stringify2 parsed with
     | Some text => set (setEvaluationData text)
     | None => ret tt
     end ;;
     set (setError []))
    (fun err => set (setError (js "Invalid JSON format. Unable to format."))).

(** *** The button [Combine Selected Rules]

    [disabled={selectedRules.length < 2}]; a disabled button does not run its
    [onClick], which is [() => setShowCombineDialog(true)]. *)
Definition combineSelectedDisabled (st : State) : bool :=
  Nat.ltb (length (selectedRules st)) 2.

Definition clickCombineSelected (st : State) : State :=
  if combineSelectedDisabled st then st else setShowCombineDialog true st.

(** *** The card of a listed rule

    [checked={selectedRules.includes(rule.rule_id!)}], for a rule that has an
    id. *)
Definition isChecked (ruleId : Z) (c : State) : bool :=
  bool_decide (ruleId ∈ selectedRules c).

(** The [onChange] of the checkbox; [checked] is [e.target.checked]. *)
Definition onChangeChecked (ruleId : Z) (checked : bool) (c : State) : State :=
  if checked then setSelectedRules (selectedRules c ++ [ruleId]) c
  else setSelectedRules (filter (fun id => id ≠ ruleId) (selectedRules c)) c.

(** A click on the checkbox: the event reports the opposite of what the
    render showed. *)
Definition clickCheckbox (ruleId : Z) (c : State) : State :=
  onChangeChecked ruleId (negb (isChecked ruleId c)) c.

(** [() => rule.rule_id && evaluateRule(rule.rule_id)] and
    [() => rule.rule_id && deleteRule(rule.rule_id)] *)
Definition onClickEvaluate (rule : Rule.t) (c : State) : M unit :=
  match Rule.rule_id rule with
  | Some id => if truthy (VNum (number_of_Z id)) then evaluateRule id c else ret tt
  | None => ret tt
  end.

Definition onClickDelete (rule : Rule.t) (c : State) : M unit :=
  match Rule.rule_id rule with
  | Some id => if truthy (VNum (number_of_Z id)) then deleteRule id c else ret tt
  | None => ret tt
  end.

(** The icon beside the buttons:
    [evaluationResults[rule.rule_id!] !== undefined && (... ? CheckCircle : AlertCircle)] *)
Inductive Icon := CheckCircle | AlertCircle.

Definition verdictIcon (ruleId : Z) (c : State) : option Icon :=
  match evaluationResults c !! ruleId with
  | None | Some VUndefined => None
  | Some v => Some (if truthy v then CheckCircle else AlertCircle)
  end.

(** *** The button [Format JSON]: [disabled={!evaluationData.trim()}] *)
Definition formatDisabled (c : State) : bool := isEmpty (trim (evaluationData c)).

(** *** The select of the AST tab

    Its [onChange]; [value] is [e.target.value].  [undefined === n] and
    [id === NaN] are false; [rule || null] is the rule found, or [null]. *)
Definition onChangeASTSelect (value : jsstring) (c : State) : State :=
  let rule :=
    List.find (fun r => match Rule.rule_id r, parseInt value with
                        | Some id, Some n => bool_decide (id = n)
                        | _, _ => false
                        end) (rules c) in
  setSelectedRule rule c.

(** *** The AST visualiser *)

Module Node.
(** A [Node] of reactflow, as [buildGraph] fills it: [data] is [{ label }]. *)
Record t := mk {
  id : jsstring;
  position : Z * Z;
  label : jsval;
  type : jsstring
}.
End Node.

Module Edge.
Record t := mk {
  id : jsstring;
  source : jsstring;
  target : jsstring
}.
End Edge.

(** [parentId ? `${parentId}-${node.type}` : 'root'] *)
Definition nodeIdOf (parentId : option jsstring) (ty : jsstring) : jsstring :=
  match parentId with
  | Some p => if isEmpty p then js "root" else p ++ js "-" ++ ty
  | None => js "root"
  end.

Fixpoint buildGraph (node : ASTNode) (parentId : option jsstring)
    (position : Z * Z) : list Node.t * list Edge.t :=
  match node with
  | mkASTNode ty val l r =>
    let nodeId := nodeIdOf parentId ty in
    let newNodes :=
      [Node.mk nodeId position (if truthy val then val else VStr ty) (js "default")] in
    let newEdges := [] in
    let '(newNodes, newEdges) :=
      match l with
      | Some leftNode =>
        let leftPos := (fst position - 100, snd position + 100)%Z in
        let leftResults := buildGraph leftNode (Some (nodeId ++ js "-left")) leftPos in
        (newNodes ++ fst leftResults,
         (newEdges ++ snd leftResults)
         ++ [Edge.mk (nodeId ++ js "-left") nodeId
                     (nodeId ++ js "-left-" ++ type leftNode)])
      | None => (newNodes, newEdges)
      end in
    let '(newNodes, newEdges) :=
      match r with
      | Some rightNode =>
        let rightPos := (fst position + 100, snd position + 100)%Z in
        let rightResults := buildGraph rightNode (Some (nodeId ++ js "-right")) rightPos in
        (newNodes ++ fst rightResults,
         (newEdges ++ snd rightResults)
         ++ [Edge.mk (nodeId ++ js "-right") nodeId
                     (nodeId ++ js "-right-" ++ type rightNode)])
      | None => (newNodes, newEdges)
      end in
    (newNodes, newEdges)
  end.

(** [buildGraph(ast)], as the effect of [ASTVisualizer] calls it. *)
Definition graphOf (ast : ASTNode) : list Node.t * list Edge.t :=
  buildGraph ast None (0, 0)%Z.

(** The number of nodes of an AST, and the strict binary trees: every node
    has both children or none. *)
Fixpoint nodeCount (node : ASTNode) : nat :=
  match node with
  | mkASTNode _ _ l r =>
    S ((match l with Some x => nodeCount x | None => 0 end)
       + (match r with Some x => nodeCount x | None => 0 end))
  end.

Fixpoint strictBinary (node : ASTNode) : bool :=
  match node with
  | mkASTNode _ _ (Some l) (Some r) => strictBinary l && strictBinary r
  | mkASTNode _ _ None None => true
  | mkASTNode _ _ _ _ => false
  end.

Local Close Scope handler_scope.

(** ** Vocabulary of the statements about numbers and JSON *)

(** [2^t <= a / b], for positive [a] and [b] *)
Definition reaches (a b t : Z) : Prop :=
  if (0 <=? t)%Z then (b * 2 ^ t <= a)%Z else (b <= a * 2 ^ (- t))%Z.

(** The doubles other than zero: [m * 2^e] with a significand of 53 bits, or
    of fewer bits at the least exponent. *)
Definition representable (m e : Z) : Prop :=
  (2 ^ 52 <= m < 2 ^ 53 /\ -1074 <= e <= 971)%Z \/ (0 < m < 2 ^ 52 /\ e = -1074)%Z.

(** The digits of a number other than zero: digits only, at least one, no
    zero at either end. *)
Definition trimmedDigits (ds : jsstring) : bool :=
  forallb isDigit ds
  && match ds with d :: _ => negb (isZeroDigit d) | [] => false end
  && match rev ds with l :: _ => negb (isZeroDigit l) | [] => true end.

(** The numbers [JSON.parse] returns: zero as [zero]; otherwise digits only,
    no zero at either end, and the digits are the ones the number is printed
    with: read as a decimal, they give the number itself. *)
Definition canonical (x : number) : bool :=
  match x with
  | Fin neg [] n => negb neg && (n =? 0)%Z
  | Fin neg (d :: ds) n =>
    forallb isDigit (d :: ds) && negb (isZeroDigit d)
    && match rev (d :: ds) with l :: _ => negb (isZeroDigit l) | [] => true end
    && number_eqb (number_of_decimal neg (d :: ds) n) x
  | Inf _ => true
  end.

(** Keys in enumeration order: no key occurs twice, and no key stands behind
    a key it goes before. *)
Fixpoint keysOrdered (ks : list jsstring) : bool :=
  match ks with
  | [] => true
  | k :: rest =>
    forallb (fun k' => negb (JSON.sameKey k' k) && negb (JSON.goesBefore k' k)) rest
    && keysOrdered rest
  end.

(** The values [JSON.parse] returns. *)
Fixpoint wellFormed (v : jsval) : bool :=
  match v with
  | VUndefined => false
  | VNull | VBool _ | VStr _ => true
  | VNum x => canonical x
  | VArr items => forallb wellFormed items
  | VObj props =>
    keysOrdered (map fst props)
    && forallb (fun kv => match kv with (_, x) => wellFormed x end) props
  end.

(** No number in the value is an infinity. *)
Fixpoint allFinite (v : jsval) : bool :=
  match v with
  | VNum x => isFinite x
  | VArr items => forallb allFinite items
  | VObj props => forallb (fun kv => match kv with (_, x) => allFinite x end) props
  | _ => true
  end.

(** The value with [null] in the place of every infinity. *)
Fixpoint nullify (v : jsval) : jsval :=
  match v with
  | VNum x => if isFinite x then v else VNull
  | VArr items => VArr (map nullify items)
  | VObj props => VObj (map (fun kv => match kv with (k, x) => (k, nullify x) end) props)
  | _ => v
  end.

(** The nested calls [parse_value] needs for a value. *)
Fixpoint size (v : jsval) : nat :=
  match v with
  | VArr items => S (list_sum (map (fun x => S (size x)) items))
  | VObj props =>
    S (list_sum (map (fun kv => match kv with (_, x) => S (size x) end) props))
  | _ => 1
  end.

(** What may follow a value in a JSON text: nothing, whitespace, a comma or a
    closing bracket. *)
Definition terminated (rest : jsstring) : bool :=
  match rest with
  | [] => true
  | c :: _ => JSON.isJsonWs c || (c =? 44) || (c =? 93) || (c =? 125)
  end.

(** A text that starts like a value: not with whitespace, a comma or a
    closing bracket. *)
Definition startsValue (text : jsstring) : bool :=
  match text with
  | [] => false
  | c :: _ => negb (JSON.isJsonWs c || (c =? 44) || (c =? 93) || (c =? 125))
  end.

(** The key [k'] may stand behind the key [k0] in an object. *)
Definition behind (k0 k' : jsstring) : Prop :=
  JSON.sameKey k' k0 = false /\ JSON.goesBefore k' k0 = false.

(** The properties of an object [JSON.parse] returns. *)
Definition wfProps (props : list (jsstring * jsval)) : Prop :=
  keysOrdered (map fst props) = true /\
  forallb (fun kv => match kv with (_, x) => wellFormed x end) props = true.

(** The text [t] reads back as the value [x], whatever follows it. *)
Definition reads (x : jsval) (t : jsstring) : Prop :=
  startsValue t = true /\
  forall fuel rest,
    (size x <= fuel)%nat -> terminated rest = true ->
    JSON.parse_value fuel (t ++ rest) = Some (x, rest).

Definition formatError : jsstring := js "Invalid JSON format. Unable to format.".

(** What [validateRule] throws on a rule string without [AND] and [OR]. *)
Definition missingOperator : thrown :=
  newError (js "Rule must contain at least one operator (AND/OR)").

(** The text [validateJsonData] lets through: one that parses as JSON to an
    array or to an object. *)
Definition accepted (text : jsstring) (v : jsval) : Prop :=
  JSON.parse text = Some v /\ (isArray v = true \/ isObject v = true).

(** ** Vocabulary of the statements about the graph *)

Definition nodeIds (g : list Node.t * list Edge.t) : list jsstring :=
  map Node.id (fst g).

(** What [buildGraph] returns, subtree by subtree. *)
Record graphShape (node : ASTNode) (nid : jsstring)
    (g : list Node.t * list Edge.t) : Prop := {
  shape_root : exists rest, nodeIds g = nid :: rest;
  shape_nodes : length (fst g) = nodeCount node;
  shape_edges : S (length (snd g)) = nodeCount node;
  shape_prefix : forall i, i ∈ nodeIds g -> nid `prefix_of` i;
  shape_nodup : NoDup (nodeIds g);
  shape_sources : forall e, e ∈ snd g -> Edge.source e ∈ nodeIds g;
  shape_targets : map Edge.target (snd g) ≡ₚ tail (nodeIds g)
}.

(** The label [buildGraph] gives a node: [node.value || node.type]. *)
Definition labelOf (node : ASTNode) : jsval :=
  if truthy (value node) then value node else VStr (type node).

(** The nodes of an AST, a node before its subtrees, the left one first. *)
Fixpoint preorder (node : ASTNode) : list ASTNode :=
  match node with
  | mkASTNode _ _ l r =>
    node :: (match l with Some x => preorder x | None => [] end)
         ++ (match r with Some x => preorder x | None => [] end)
  end.

(** The parent-child pairs of an AST as positions in [preorder], the root at
    position [here]: the left child of a node follows it, the right child comes
    after the subtree of the left one. *)
Fixpoint parentChild (node : ASTNode) (here : nat) : list (nat * nat) :=
  match node with
  | mkASTNode _ _ l r =>
    let hereR := (S here + match l with Some x => nodeCount x | None => 0 end)%nat in
    (match l with Some x => (here, S here) :: parentChild x (S here) | None => [] end)
    ++ (match r with Some y => (here, hereR) :: parentChild y hereR | None => [] end)
  end.

(** What [buildGraph] adds for the child on one side of the node [nid]: the
    graph of the child, and the edge to it. *)
Definition childGraph (side : string) (dx : Z) (nid : jsstring) (position : Z * Z)
    (child : option ASTNode) : list Node.t * list Edge.t :=
  match child with
  | Some x =>
    let g := buildGraph x (Some (nid ++ js side))
               (fst position + dx, snd position + 100)%Z in
    (fst g, snd g ++ [Edge.mk (nid ++ js side) nid
                        (nid ++ js side ++ js "-" ++ type x)])
  | None => ([], [])
  end.

(** The edge [e] joins two of the [nodes], the target one step below the
    source and one step to its left or to its right. *)
Definition joined (nodes : list Node.t) (e : Edge.t) : Prop :=
  exists s t,
    s ∈ nodes /\ t ∈ nodes /\
    Node.id s = Edge.source e /\ Node.id t = Edge.target e /\
    snd (Node.position t) = (snd (Node.position s) + 100)%Z /\
    (fst (Node.position t) = (fst (Node.position s) - 100)%Z
       /\ Edge.id e = Edge.source e ++ js "-left"
     \/ fst (Node.position t) = (fst (Node.position s) + 100)%Z
        /\ Edge.id e = Edge.source e ++ js "-right").

(** ** Vocabulary of the statements about the handlers *)

(** The operation requests are the ones that are not a GET; the health check
    and the listing are GETs. *)
Definition isOperation (r : Request) : bool :=
  match method r with GET => false | _ => true end.

Definition operationsSent (s : Sys) : list Request :=
  filter (fun r => isOperation r = true) (sent s).

(** An answer with [response.ok]. *)
Definition healthy (a : FetchResult) : bool :=
  match a with Response true _ _ => true | _ => false end.

Definition endsWith (l : list Request) (x : Request) : Prop :=
  exists later, l = later ++ [x].

(** What [fetchRules] leaves alone. *)
Definition listingFrame (a b : State) : Prop :=
  newRule a = newRule b /\ selectedRule a = selectedRule b /\
  evaluationData a = evaluationData b /\
  evaluationResults a = evaluationResults b /\ showDialog a = showDialog b /\
  showCombineDialog a = showCombineDialog b /\ isSubmitting a = isSubmitting b /\
  selectedRules a = selectedRules b /\ combineRuleData a = combineRuleData b /\
  batchData a = batchData b /\ batchResults a = batchResults b.

(** The text a [catch] block stores for the exception [e]. *)
Definition surfaced (fallback : jsstring) (e : thrown) : jsstring :=
  if instanceofError e then message e else fallback.

(** The exception an operation raises on the answer [a], if it raises one.
    A rejection is raised as it is.  On an answer that is not ok the handler
    throws an [Error] with the fixed [text]; where it reads the body first
    ([readsDetail]) it raises what reading the body throws, and else an
    [Error] with the body's [detail] as a string when that is truthy (the
    [TypeError] of the conversion when it has no string) and with [text]
    otherwise.  On an ok answer a handler that reads the member [resultKey] of
    the body raises what reading it throws. *)
Definition failureOf (readsDetail : bool) (resultKey : option jsstring)
    (text : jsstring) (a : FetchResult) : option thrown :=
  match a with
  | Rejected e => Some e
  | Response false _ answer =>
    Some (if readsDetail then
            match answer with
            | JsonThrows e => e
            | JsonValue v _ =>
              match getProp v (js "detail") with
              | inl e => e
              | inr d =>
                if truthy d
                then match ToString d with inl e => e | inr m => newError m end
                else newError text
              end
            end
          else newError text)
  | Response true _ answer =>
    match resultKey with
    | None => None
    | Some k =>
      match answer with
      | JsonThrows e => Some e
      | JsonValue v _ =>
        match getProp v k with inl e => Some e | inr _ => None end
      end
    end
  end.

(** A run [r] of a handler against [w] ends normally, sends its operation at
    most once, and stores a message when the operation was not sent; when the
    operation was sent and raised an exception, nothing was sent after it and
    the error state holds what the [catch] block stores for that exception. *)
Record surfaces {A} (readsDetail : bool) (resultKey : option jsstring)
    (text : jsstring) (w : World) (r : (thrown + A) * Sys) : Prop := {
  ends_normally : exists a, fst r = inr a;
  no_retry : (length (operationsSent (snd r)) <= 1)%nat;
  unsent_surfaced : operationsSent (snd r) = [] -> error (ui (snd r)) <> [];
  failure_surfaced : forall later op earlier e,
    sent (snd r) = later ++ op :: earlier -> isOperation op = true ->
    failureOf readsDetail resultKey text (w (op :: earlier)) = Some e ->
    later = [] /\ error (ui (snd r)) = surfaced text e
}.

(** The text [fetchRules] stores for the exception [e]. *)
Definition fetchError (e : thrown) : jsstring :=
  js "Failed to fetch rules: "
  ++ (if instanceofError e then message e else StringOf e).

(** [Number.isSafeInteger]: the integers a double holds exactly, with their
    neighbours. *)
Definition safeInteger (z : Z) : Prop := (Z.abs z <= 2 ^ 53 - 1)%Z.

(** ** Sample data, for the instances the theorems are checked on *)

(** A backend that is not reachable. *)
Definition unreachable : World :=
  fun _ => Rejected (ErrorObject TypeErrorK (js "Failed to fetch")).

(** A backend that answers every request with 200 and an empty listing. *)
Definition agreeable : World :=
  fun _ => Response true 200 (JsonValue (VObj [(js "result", VBool true)]) []).

(** A backend that is up and refuses every operation with status 400 and the
    body [{"detail": []}]. *)
Definition refusing : World :=
  fun history =>
    match history with
    | r :: _ =>
      if isOperation r
      then Response false 400 (JsonValue (VObj [(js "detail", VArr [])]) [])
      else Response true 200 (JsonValue (VArr []) [])
    | [] => Rejected (ThrownValue PUndefined)
    end.

(** A backend that is up and refuses every operation with status 400 and the
    body [{}]. *)
Definition refusingPlainly : World :=
  fun history =>
    match history with
    | r :: _ =>
      if isOperation r
      then Response false 400 (JsonValue (VObj []) [])
      else Response true 200 (JsonValue (VArr []) [])
    | [] => Rejected (ThrownValue PUndefined)
    end.

(** A backend that is up and answers every operation with 200. *)
Definition serving : World :=
  fun history =>
    match history with
    | r :: _ =>
      if isOperation r
      then Response true 200
             (JsonValue (VObj [(js "result", VBool true); (js "results", VArr [])]) [])
      else Response true 200 (JsonValue (VArr []) [])
    | [] => Rejected (ThrownValue PUndefined)
    end.

(** A JSON text of the samples, written with an apostrophe where the text
    has a quotation mark. *)
Definition quoted (s : string) : jsstring :=
  map (fun c => if c =? 39 then 34 else c) (js s).

(** A state whose evaluation data is a JSON object with two members. *)
Definition sampleData : State :=
  setEvaluationData (quoted "{'b': 10, 'a': [null]}") initialState.

(** A draft rule that passes [validateRule], in an otherwise fresh state. *)
Definition draftState : State :=
  setNewRule (Rule.mk None (js "seniors") [] (js "age > 60 AND level = 3") None)
    initialState.

(** The AST of [a AND (b OR c)]. *)
Definition sampleAST : ASTNode :=
  mkASTNode (js "operator") (VStr (js "AND"))
    (Some (mkASTNode (js "operand") VNull None None))
    (Some (mkASTNode (js "operator") (VStr (js "OR"))
       (Some (mkASTNode (js "operand") VNull None None))
       (Some (mkASTNode (js "operand") VNull None None)))).


(** A rule as the backend lists it, the body that lists it, and a backend
    that is up, answers the listing with that body and every operation with
    200 and a verdict. *)
Definition listedRule : Rule.t :=
  Rule.mk (Some 7%Z) (js "seniors") (js "older staff") (js "age > 60 AND level = 3")
    None.

Definition listedBody : jsval :=
  VArr [VObj [(js "rule_id", VNum (number_of_Z 7));
              (js "name", VStr (js "seniors"));
              (js "description", VStr (js "older staff"));
              (js "rule_string", VStr (js "age > 60 AND level = 3"));
              (js "ast", VNull)]].

Definition stocked : World :=
  fun history =>
    match history with
    | r :: _ =>
      if isOperation r
      then Response true 200 (JsonValue (VObj [(js "result", VBool false)]) [])
      else Response true 200 (JsonValue listedBody [listedRule])
    | [] => Rejected (ThrownValue PUndefined)
    end.

(** A listing of two rules with their ASTs, the second one [(a AND b) OR
    (c AND d)]. *)
Definition leafAST : ASTNode := mkASTNode (js "operand") VNull None None.

Definition pairAST : ASTNode :=
  mkASTNode (js "operator") (VStr (js "AND")) (Some leafAST) (Some leafAST).

Definition fullAST : ASTNode :=
  mkASTNode (js "operator") (VStr (js "OR")) (Some pairAST) (Some pairAST).

Definition twoRules : State :=
  setRules [Rule.mk (Some 7%Z) (js "seniors") [] (js "a AND (b OR c)") (Some sampleAST);
            Rule.mk (Some 8%Z) (js "pairs") [] (js "(a AND b) OR (c AND d)")
              (Some fullAST)]
    initialState.

(** * Part II: lemmas and theorems *)

(** ** Strings *)

Lemma js_length (s : string) : length (js s) = String.length s.
Proof.
  unfold js. rewrite length_map.
  induction s as [|a s IH]; simpl; [done | by rewrite IH].
Qed.

Lemma js_nonempty (s : string) : s <> EmptyString -> js s <> [].
Proof.
  intros Hs E. apply (f_equal length) in E. rewrite js_length in E.
  by destruct s.
Qed.

Lemma js_app (s t : string) : js (s ++ t) = js s ++ js t.
Proof.
  unfold js. rewrite <- map_app. f_equal.
  induction s as [|a s IH]; simpl; [done | by rewrite IH].
Qed.

(** Literals stay folded in goals; [vm_compute] still evaluates them. *)
Opaque js.

Lemma startsWith_spec (p s : jsstring) :
  startsWith s p = true <-> exists post, s = p ++ post.
Proof.
  revert s. induction p as [|c p IH]; intros s; simpl.
  - split; [intros _; by exists s | done].
  - destruct s as [|d s].
    + split; [done | intros [post H]; discriminate].
    + rewrite andb_true_iff, N.eqb_eq, IH. split.
      * intros [-> [post ->]]. by exists post.
      * intros [post H]. injection H as -> ->. split; [done | by exists post].
Qed.

Lemma includes_spec (s sub : jsstring) :
  includes s sub = true <-> exists pre post, s = pre ++ sub ++ post.
Proof.
  induction s as [|d s IH]; simpl.
  - rewrite orb_false_r, startsWith_spec. split.
    + intros [post H]. by exists [], post.
    + intros [pre [post H]]. destruct pre; [by exists post | discriminate].
  - rewrite orb_true_iff, startsWith_spec, IH. split.
    + intros [[post H] | [pre [post H]]].
      * by exists [], post.
      * exists (d :: pre), post. by rewrite H.
    + intros [pre [post H]]. destruct pre as [|e pre]; simpl in H.
      * left. by exists post.
      * right. injection H as -> ->. by exists pre, post.
Qed.

Lemma includes_false_spec (s sub : jsstring) :
  includes s sub = false <-> ~ exists pre post, s = pre ++ sub ++ post.
Proof. rewrite <- includes_spec. by destruct (includes s sub). Qed.

Lemma isEmpty_true {A} (l : list A) : isEmpty l = true <-> l = [].
Proof. by destruct l. Qed.

Lemma isEmpty_false {A} (l : list A) : isEmpty l = false <-> l <> [].
Proof. by destruct l. Qed.

(** ** Rule creation: [validateRule] *)

(** C2, as the code has it: creation validation accepts a rule exactly when
    its name and its rule string are not blank and the rule string contains
    the substring [AND] or the substring [OR]; a rule string without them, a
    single comparison for one, is rejected. *)
Theorem validateRule_accepts_iff (rule : Rule.t) :
  validateRule rule = inr tt <->
  trim (Rule.name rule) <> [] /\ trim (Rule.rule_string rule) <> [] /\
  ((exists pre post, Rule.rule_string rule = pre ++ js "AND" ++ post) \/
   (exists pre post, Rule.rule_string rule = pre ++ js "OR" ++ post)).
Proof.
  unfold validateRule. rewrite <- !includes_spec, <- !isEmpty_false.
  destruct (isEmpty (trim (Rule.name rule))),
    (isEmpty (trim (Rule.rule_string rule))),
    (includes (Rule.rule_string rule) (js "AND")),
    (includes (Rule.rule_string rule) (js "OR")); simpl; intuition congruence.
Qed.

(** C2 fails as stated: [age > 30] is an Expression of the grammar, a single
    comparison, and creation validation throws on it. *)
Lemma single_comparison_rejected :
  Engine.Parse (js "age > 30")
    = inr (Engine.Operand (js "age") (js ">") (Engine.NumberLiteral (js "30"))) /\
  validateRule (Rule.mk None (js "adults") [] (js "age > 30") None)
    = inl missingOperator /\
  validateRule (Rule.mk None (js "adults") [] (js "age > 30") None) <> inr tt.
Proof. vm_compute. repeat split; discriminate. Qed.

Lemma without_first_letter (s sub : list N) (c : N) (rest : list N) :
  sub = c :: rest -> Forall (fun d => d <> c) s ->
  ~ exists pre post, s = pre ++ sub ++ post.
Proof.
  intros -> Hs (pre & post & ->).
  apply Forall_app in Hs as [_ Hs]. by apply Forall_cons in Hs as [? _].
Qed.

(** C3, as the code has it: creation validation looks for the connectives in
    upper case only, and anywhere in the rule string.  A rule with a name and
    a rule string that are not blank is rejected for lacking an operator
    exactly when the rule string contains neither the substring [AND] nor the
    substring [OR], and passes exactly when it contains one of them, be it
    inside a field name.  So a rule string without the upper-case letters [A]
    and [O] is rejected, whatever connectives it has in lower case. *)
Theorem validateRule_connectives_upper_case_only (rule : Rule.t) :
  trim (Rule.name rule) <> [] ->
  trim (Rule.rule_string rule) <> [] ->
  (validateRule rule = inl missingOperator <->
   ~ (exists pre post, Rule.rule_string rule = pre ++ js "AND" ++ post) /\
   ~ (exists pre post, Rule.rule_string rule = pre ++ js "OR" ++ post)) /\
  (validateRule rule = inr tt <->
   (exists pre post, Rule.rule_string rule = pre ++ js "AND" ++ post) \/
   (exists pre post, Rule.rule_string rule = pre ++ js "OR" ++ post)) /\
  (Forall (fun c => c <> 65 /\ c <> 79) (Rule.rule_string rule) ->
   validateRule rule = inl missingOperator).
Proof.
  intros Hname Hrule.
  assert (Hno : Forall (fun c => c <> 65 /\ c <> 79) (Rule.rule_string rule) ->
                includes (Rule.rule_string rule) (js "AND") = false /\
                includes (Rule.rule_string rule) (js "OR") = false).
  { intros H. split; apply includes_false_spec.
    - apply (without_first_letter _ _ 65 [78; 68]); [done|].
      eapply Forall_impl; [exact H|]. by intros c [? _].
    - apply (without_first_letter _ _ 79 [82]); [done|].
      eapply Forall_impl; [exact H|]. by intros c [_ ?]. }
  unfold validateRule. rewrite <- !includes_false_spec, <- !includes_spec.
  apply isEmpty_false in Hname, Hrule. rewrite Hname, Hrule.
  destruct (includes (Rule.rule_string rule) (js "AND")),
    (includes (Rule.rule_string rule) (js "OR")); simpl;
    (split; [|split]); try (intros H; destruct (Hno H)); intuition congruence.
Qed.

Lemma validateRule_connectives_upper_case_only_witness :
  validateRule (Rule.mk None (js "juniors") [] (js "age < 30 or level = 1") None)
    = inl missingOperator /\
  validateRule (Rule.mk None (js "orders") [] (js "ORDER > 5 and x < 2") None)
    = inr tt.
Proof.
  split.
  - apply (validateRule_connectives_upper_case_only
             (Rule.mk None (js "juniors") [] (js "age < 30 or level = 1") None));
      [vm_compute; discriminate | vm_compute; discriminate |].
    vm_compute. repeat (apply Forall_cons; split; [split; discriminate|]).
    by apply Forall_nil.
  - apply (validateRule_connectives_upper_case_only
             (Rule.mk None (js "orders") [] (js "ORDER > 5 and x < 2") None));
      [vm_compute; discriminate | vm_compute; discriminate |].
    right. exists [], (js "DER > 5 and x < 2"). reflexivity.
Defined.

(** C3 fails as stated: the rule string [a > 1 and b < 2] has its connective
    in lower case, which the tokenizer reads as LOGICAL_AND, and creation
    validation rejects it for lacking an operator. *)
Lemma lower_case_connective_rejected :
  Engine.Parse (js "a > 1 and b < 2")
    = inr (Engine.Operator Engine.AND
             (Engine.Operand (js "a") (js ">") (Engine.NumberLiteral (js "1")))
             (Engine.Operand (js "b") (js "<") (Engine.NumberLiteral (js "2")))) /\
  validateRule (Rule.mk None (js "both") [] (js "a > 1 and b < 2") None)
    = inl missingOperator.
Proof. vm_compute. split; reflexivity. Qed.

(** ** Combining rules *)

(** C1: the combinator fails with a [ValidationError] on fewer than two roots
    (and only then), and while fewer than two rules are selected the button
    Combine Selected Rules is disabled and a click on it changes nothing; with
    two or more it opens the dialog. *)
Theorem combine_requires_two_inputs :
  (forall roots c,
     (length roots < 2)%nat <-> Engine.combine roots c = inl Engine.ValidationError) /\
  (forall st,
     (length (selectedRules st) < 2)%nat ->
     combineSelectedDisabled st = true /\ clickCombineSelected st = st) /\
  (forall st,
     (2 <= length (selectedRules st))%nat ->
     combineSelectedDisabled st = false /\
     clickCombineSelected st = setShowCombineDialog true st).
Proof.
  split; [|split].
  - intros roots c. destruct roots as [|r1 [|r2 rest]]; simpl; split;
      (lia || done).
  - intros st H. unfold clickCombineSelected, combineSelectedDisabled.
    destruct (Nat.ltb_spec (length (selectedRules st)) 2); [done | lia].
  - intros st H. unfold clickCombineSelected, combineSelectedDisabled.
    destruct (Nat.ltb_spec (length (selectedRules st)) 2); [lia | done].
Qed.

Lemma combine_requires_two_inputs_witness :
  Engine.combine [] Engine.AND = inl Engine.ValidationError /\
  clickCombineSelected (setSelectedRules [7%Z] initialState)
    = setSelectedRules [7%Z] initialState /\
  clickCombineSelected (setSelectedRules [7%Z; 9%Z] initialState)
    = setShowCombineDialog true (setSelectedRules [7%Z; 9%Z] initialState).
Proof.
  destruct combine_requires_two_inputs as [H1 [H2 H3]]. split; [|split].
  - apply H1. simpl. lia.
  - apply H2. simpl. lia.
  - apply H3. simpl. lia.
Defined.


(** ** The AST visualiser: [buildGraph] *)

Lemma ASTNode_induction (P : ASTNode -> Prop) :
  (forall ty v l r,
     (forall x, l = Some x -> P x) -> (forall x, r = Some x -> P x) ->
     P (mkASTNode ty v l r)) ->
  forall node, P node.
Proof.
  intros H. fix IH 1. intros [ty v l r]. apply H.
  - destruct l as [x|]; intros y Hy; [injection Hy as <-; apply IH | discriminate].
  - destruct r as [x|]; intros y Hy; [injection Hy as <-; apply IH | discriminate].
Qed.

Lemma nodeIdOf_child (p ty : jsstring) (suffix : string) :
  suffix <> EmptyString ->
  nodeIdOf (Some (p ++ js suffix)) ty = p ++ js suffix ++ js "-" ++ ty.
Proof.
  intros Hs. unfold nodeIdOf.
  destruct (isEmpty (p ++ js suffix)) eqn:E.
  - apply isEmpty_true, app_eq_nil in E as [_ E]. by apply js_nonempty in E.
  - by rewrite <- !app_assoc.
Qed.

Lemma left_right_apart (nid a b : jsstring) :
  (nid ++ js "-left") `prefix_of` a -> (nid ++ js "-right") `prefix_of` b -> a <> b.
Proof.
  intros [x ->] [y ->] E. rewrite <- !app_assoc in E.
  apply app_inv_head in E. vm_compute in E. discriminate.
Qed.

Lemma not_own_extension (nid : jsstring) (suffix : string) (i : jsstring) :
  suffix <> EmptyString -> (nid ++ js suffix) `prefix_of` i -> nid <> i.
Proof.
  intros Hs [x ->] E. apply (f_equal length) in E.
  rewrite !length_app, js_length in E. destruct suffix; [done|].
  simpl in E. lia.
Qed.

Lemma child_prefix (nid : jsstring) (suffix : string) (ty i : jsstring) :
  (nid ++ js suffix ++ js "-" ++ ty) `prefix_of` i ->
  (nid ++ js suffix) `prefix_of` i /\ nid `prefix_of` i.
Proof.
  intros [x ->]. split.
  - exists (js "-" ++ ty ++ x). by rewrite <- !app_assoc.
  - exists (js suffix ++ js "-" ++ ty ++ x). by rewrite <- !app_assoc.
Qed.

Lemma buildGraph_shape (node : ASTNode) :
  forall parentId position,
    graphShape node (nodeIdOf parentId (type node)) (buildGraph node parentId position).
Proof.
  induction node as [ty v l r IHl IHr] using ASTNode_induction.
  intros parentId position. simpl type.
  set (nid := nodeIdOf parentId ty).
  assert (HL : forall x pos, l = Some x ->
            graphShape x (nid ++ js "-left" ++ js "-" ++ type x)
              (buildGraph x (Some (nid ++ js "-left")) pos)).
  { intros x pos Hx. rewrite <- nodeIdOf_child by done. by apply IHl. }
  assert (HR : forall x pos, r = Some x ->
            graphShape x (nid ++ js "-right" ++ js "-" ++ type x)
              (buildGraph x (Some (nid ++ js "-right")) pos)).
  { intros x pos Hx. rewrite <- nodeIdOf_child by done. by apply IHr. }
  clear IHl IHr.
  destruct l as [x|], r as [y|]; simpl; fold nid.
  - (* both children *)
    specialize (HL x (fst position - 100, snd position + 100)%Z eq_refl).
    specialize (HR y (fst position + 100, snd position + 100)%Z eq_refl).
    destruct (buildGraph x _ _) as [nl el], (buildGraph y _ _) as [nr er].
    destruct HL as [[rl Hrl] Hnl Hel Hpl Hdl Hsl Htl].
    destruct HR as [[rr Hrr] Hnr Her Hpr Hdr Hsr Htr].
    unfold nodeIds in *. simpl in *.
    assert (Hpl' : forall i, i ∈ map Node.id nl ->
              (nid ++ js "-left") `prefix_of` i /\ nid `prefix_of` i).
    { intros i Hi. by apply child_prefix with (ty := type x), Hpl. }
    assert (Hpr' : forall i, i ∈ map Node.id nr ->
              (nid ++ js "-right") `prefix_of` i /\ nid `prefix_of` i).
    { intros i Hi. by apply child_prefix with (ty := type y), Hpr. }
    split; unfold nodeIds; simpl.
    + eauto.
    + rewrite length_app. lia.
    + rewrite !length_app. simpl. lia.
    + intros i Hi. rewrite map_app in Hi.
      apply elem_of_cons in Hi as [-> | Hi]; [done|].
      apply elem_of_app in Hi as [Hi | Hi]; [by apply Hpl' | by apply Hpr'].
    + rewrite map_app. apply NoDup_cons. split.
      * intros Hi. apply elem_of_app in Hi as [Hi | Hi].
        -- destruct (Hpl' _ Hi) as [Hp _].
           by apply (not_own_extension nid "-left" nid) in Hp.
        -- destruct (Hpr' _ Hi) as [Hp _].
           by apply (not_own_extension nid "-right" nid) in Hp.
      * apply NoDup_app. split; [done | split; [|done]].
        intros i Hi Hi'.
        destruct (Hpl' _ Hi) as [Hp _], (Hpr' _ Hi') as [Hp' _].
        by apply (left_right_apart nid i i Hp Hp').
    + intros e He. rewrite map_app.
      apply elem_of_app in He as [He | He].
      * apply elem_of_app in He as [He | He].
        -- apply elem_of_app in He as [He | He].
           ++ apply elem_of_cons. right. apply elem_of_app. left. by apply Hsl.
           ++ apply list_elem_of_singleton in He as ->. simpl. by left.
        -- apply elem_of_cons. right. apply elem_of_app. right. by apply Hsr.
      * apply list_elem_of_singleton in He as ->. simpl. by left.
    + rewrite Hrl in Htl. rewrite Hrr in Htr. simpl in Htl, Htr.
      rewrite !map_app, Htl, Htr, Hrl, Hrr. simpl.
      change (js "-left-") with (js ("-left" ++ "-")).
      change (js "-right-") with (js ("-right" ++ "-")).
      rewrite !js_app, <- !app_assoc.
      rewrite <- !Permutation_cons_append. simpl.
      by rewrite <- Permutation_middle.
  - (* only the left child *)
    specialize (HL x (fst position - 100, snd position + 100)%Z eq_refl).
    destruct (buildGraph x _ _) as [nc ec].
    destruct HL as [[rc Hrc] Hnc Hec Hpc Hdc Hsc Htc].
    unfold nodeIds in *. simpl in *.
    assert (Hpc' : forall i, i ∈ map Node.id nc ->
              (nid ++ js "-left") `prefix_of` i /\ nid `prefix_of` i).
    { intros i Hi. by apply child_prefix with (ty := type x), Hpc. }
    split; unfold nodeIds; simpl.
    + eauto.
    + lia.
    + rewrite length_app. simpl. lia.
    + intros i Hi.
      apply elem_of_cons in Hi as [-> | Hi]; [done | by apply Hpc'].
    + apply NoDup_cons. split; [|done].
      intros Hi. destruct (Hpc' _ Hi) as [Hp _].
      by apply (not_own_extension nid "-left" nid) in Hp.
    + intros e He. apply elem_of_app in He as [He | He].
      * apply elem_of_cons. right. by apply Hsc.
      * apply list_elem_of_singleton in He as ->. simpl. by left.
    + rewrite Hrc in Htc. simpl in Htc.
      rewrite map_app, Htc, Hrc. simpl.
      change (js "-left-") with (js ("-left" ++ "-")).
      rewrite js_app, <- !app_assoc.
      by rewrite <- Permutation_cons_append.
  - (* only the right child *)
    specialize (HR y (fst position + 100, snd position + 100)%Z eq_refl).
    destruct (buildGraph y _ _) as [nc ec].
    destruct HR as [[rc Hrc] Hnc Hec Hpc Hdc Hsc Htc].
    unfold nodeIds in *. simpl in *.
    assert (Hpc' : forall i, i ∈ map Node.id nc ->
              (nid ++ js "-right") `prefix_of` i /\ nid `prefix_of` i).
    { intros i Hi. by apply child_prefix with (ty := type y), Hpc. }
    split; unfold nodeIds; simpl.
    + eauto.
    + lia.
    + rewrite length_app. simpl. lia.
    + intros i Hi.
      apply elem_of_cons in Hi as [-> | Hi]; [done | by apply Hpc'].
    + apply NoDup_cons. split; [|done].
      intros Hi. destruct (Hpc' _ Hi) as [Hp _].
      by apply (not_own_extension nid "-right" nid) in Hp.
    + intros e He. apply elem_of_app in He as [He | He].
      * apply elem_of_cons. right. by apply Hsc.
      * apply list_elem_of_singleton in He as ->. simpl. by left.
    + rewrite Hrc in Htc. simpl in Htc.
      rewrite map_app, Htc, Hrc. simpl.
      change (js "-right-") with (js ("-right" ++ "-")).
      rewrite js_app, <- !app_assoc.
      by rewrite <- Permutation_cons_append.
  - (* a leaf *)
    split; unfold nodeIds; simpl.
    + eauto.
    + done.
    + done.
    + intros i Hi. by apply list_elem_of_singleton in Hi as ->.
    + apply NoDup_singleton.
    + intros e He. by apply elem_of_nil in He.
    + done.
Qed.

Lemma buildGraph_unfold (ty : list N) (v : jsval) (l r : option ASTNode)
    (parentId : option (list N)) (position : Z * Z) :
  let nid := nodeIdOf parentId ty in
  buildGraph (mkASTNode ty v l r) parentId position
  = (Node.mk nid position (labelOf (mkASTNode ty v l r)) (js "default")
       :: fst (childGraph "-left" (-100) nid position l)
       ++ fst (childGraph "-right" 100 nid position r),
     snd (childGraph "-left" (-100) nid position l)
       ++ snd (childGraph "-right" 100 nid position r)).
Proof.
  intros nid. unfold childGraph, labelOf.
  destruct l as [x|], r as [y|]; simpl; fold nid.
  - replace (fst position + -100)%Z with (fst position - 100)%Z by lia.
    destruct (buildGraph x _ _) as [nl el], (buildGraph y _ _) as [nr er]. simpl.
    change (js "-left-") with (js ("-left" ++ "-")).
    change (js "-right-") with (js ("-right" ++ "-")).
    by rewrite !js_app, <- !app_assoc.
  - replace (fst position + -100)%Z with (fst position - 100)%Z by lia.
    destruct (buildGraph x _ _) as [nl el]. simpl.
    change (js "-left-") with (js ("-left" ++ "-")).
    by rewrite !js_app, <- !app_assoc, !app_nil_r.
  - destruct (buildGraph y _ _) as [nr er]. simpl.
    change (js "-right-") with (js ("-right" ++ "-")).
    by rewrite !js_app, <- !app_assoc.
  - done.
Qed.

Lemma buildGraph_root (node : ASTNode) (parentId : option (list N))
    (position : Z * Z) :
  exists rest,
    fst (buildGraph node parentId position)
    = Node.mk (nodeIdOf parentId (type node)) position (labelOf node) (js "default")
      :: rest.
Proof. destruct node as [ty v l r]. rewrite buildGraph_unfold. simpl. eauto. Qed.

Lemma preorder_length (node : ASTNode) : length (preorder node) = nodeCount node.
Proof.
  induction node as [ty v l r IHl IHr] using ASTNode_induction.
  simpl. rewrite length_app. f_equal.
  destruct l as [x|], r as [y|]; simpl;
    rewrite ?(IHl x eq_refl), ?(IHr y eq_refl); lia.
Qed.

(** The edge to a child and the edges below it, at the positions of the
    child's subtree in the list [all] of ids. *)
Lemma childGraph_links (side : string) (dx : Z) (nid : list N) (position : Z * Z)
    (c : option ASTNode) (all pre post : list (list N)) (here : nat) :
  side <> EmptyString ->
  (forall x, c = Some x ->
   forall parentId pos all pre post,
     all = pre ++ map Node.id (fst (buildGraph x parentId pos)) ++ post ->
     map (fun e => (Some (Edge.source e), Some (Edge.target e)))
         (snd (buildGraph x parentId pos))
     ≡ₚ map (fun p => (all !! fst p, all !! snd p)) (parentChild x (length pre))) ->
  all !! here = Some nid ->
  all = pre ++ map Node.id (fst (childGraph side dx nid position c)) ++ post ->
  map (fun e => (Some (Edge.source e), Some (Edge.target e)))
      (snd (childGraph side dx nid position c))
  ≡ₚ map (fun p => (all !! fst p, all !! snd p))
         (match c with
          | Some x => (here, length pre) :: parentChild x (length pre)
          | None => []
          end).
Proof.
  intros Hside IH Hat Hall. destruct c as [x|]; [|done].
  cbn [childGraph fst snd] in *. rewrite map_app, map_cons.
  rewrite <- Permutation_cons_append. cbn [map fst snd Edge.source Edge.target].
  destruct (buildGraph_root x (Some (nid ++ js side))
              (fst position + dx, snd position + 100)%Z) as [rest Hroot].
  assert (Hchild : all !! length pre = Some (nid ++ js side ++ js "-" ++ type x)).
  { rewrite nodeIdOf_child in Hroot by done.
    rewrite Hall, Hroot, lookup_app_r, Nat.sub_diag by lia. done. }
  rewrite Hat, Hchild. apply Permutation_skip.
  exact (IH x eq_refl _ _ all pre post Hall).
Qed.

Lemma buildGraph_links (node : ASTNode) :
  forall parentId position all pre post,
    all = pre ++ map Node.id (fst (buildGraph node parentId position)) ++ post ->
    map (fun e => (Some (Edge.source e), Some (Edge.target e)))
        (snd (buildGraph node parentId position))
    ≡ₚ map (fun p => (all !! fst p, all !! snd p)) (parentChild node (length pre)).
Proof.
  induction node as [ty v l r IHl IHr] using ASTNode_induction.
  intros parentId position all pre post. rewrite buildGraph_unfold. cbv zeta.
  set (nid := nodeIdOf parentId ty). cbn [fst snd parentChild].
  intros Hall. rewrite !map_app.
  assert (Hat : all !! length pre = Some nid).
  { rewrite Hall, lookup_app_r, Nat.sub_diag by lia. done. }
  assert (HnL : length (fst (childGraph "-left" (-100) nid position l))
                = match l with Some x => nodeCount x | None => 0%nat end).
  { destruct l as [x|]; [|done]. cbn [childGraph fst].
    apply (shape_nodes _ _ _ (buildGraph_shape x _ _)). }
  apply Permutation_app.
  - replace (S (length pre)) with (length (pre ++ [nid]))
      by (rewrite length_app; simpl; lia).
    apply (childGraph_links "-left" (-100) nid position l all (pre ++ [nid])
             (map Node.id (fst (childGraph "-right" 100 nid position r)) ++ post));
      [done | exact IHl | done |].
    rewrite Hall, map_cons, map_app. cbn [Node.id].
    rewrite <- ?app_assoc. cbn [app]. by rewrite <- ?app_assoc.
  - rewrite <- HnL.
    replace (S (length pre)
             + length (fst (childGraph "-left" (-100) nid position l)))%nat
      with (length (pre ++ [nid]
                      ++ map Node.id (fst (childGraph "-left" (-100) nid position l))))
      by (rewrite !length_app, length_map; simpl; lia).
    apply (childGraph_links "-right" 100 nid position r all _ post);
      [done | exact IHr | done |].
    rewrite Hall, map_cons, map_app. cbn [Node.id].
    rewrite <- ?app_assoc. cbn [app]. by rewrite <- ?app_assoc.
Qed.

(** C8: on a strict binary AST, [buildGraph] returns one graph node for each
    AST node, with ids that differ from one another, and one edge less than
    nodes.  The nodes come in the order of [preorder], and the edges are the
    parent-child pairs of the AST, one edge for each pair: the source of the
    edge is the id of the node at the position of the parent, its target the
    id of the node at the position of the child.  So the targets of the edges
    are the ids of the nodes other than the root, each once, and every edge
    starts and ends at a returned node. *)
Theorem buildGraph_nodes_and_edges (ast : ASTNode) :
  strictBinary ast = true ->
  length (fst (graphOf ast)) = nodeCount ast /\
  NoDup (map Node.id (fst (graphOf ast))) /\
  S (length (snd (graphOf ast))) = nodeCount ast /\
  map Edge.target (snd (graphOf ast)) ≡ₚ tail (map Node.id (fst (graphOf ast))) /\
  (forall e, e ∈ snd (graphOf ast) ->
     Edge.source e ∈ map Node.id (fst (graphOf ast)) /\
     Edge.target e ∈ map Node.id (fst (graphOf ast))) /\
  length (preorder ast) = length (fst (graphOf ast)) /\
  map (fun e => (Some (Edge.source e), Some (Edge.target e))) (snd (graphOf ast))
  ≡ₚ map (fun p => (map Node.id (fst (graphOf ast)) !! fst p,
                    map Node.id (fst (graphOf ast)) !! snd p))
         (parentChild ast 0).
Proof.
  intros _. unfold graphOf.
  destruct (buildGraph_shape ast None (0, 0)%Z)
    as [[rest Hroot] Hn He Hp Hd Hs Ht].
  unfold nodeIds in *. repeat split; try done.
  - by apply Hs.
  - assert (Hin : Edge.target e ∈ map Edge.target (snd (buildGraph ast None (0, 0)%Z))).
    { apply list_elem_of_fmap. by exists e. }
    rewrite Ht, Hroot in Hin. rewrite Hroot. simpl in Hin. by right.
  - by rewrite preorder_length.
  - apply (buildGraph_links ast None (0, 0)%Z _ [] []). by rewrite app_nil_r.
Qed.

Lemma buildGraph_nodes_and_edges_witness :
  length (fst (graphOf sampleAST)) = 5%nat /\
  map (fun e => (Edge.source e, Edge.target e)) (snd (graphOf sampleAST))
  ≡ₚ [(js "root", js "root-left-operand");
      (js "root", js "root-right-operator");
      (js "root-right-operator", js "root-right-operator-left-operand");
      (js "root-right-operator", js "root-right-operator-right-operand")].
Proof.
  destruct (buildGraph_nodes_and_edges sampleAST eq_refl)
    as (Hn & _ & _ & _ & _ & _ & Hlinks).
  split; [exact Hn|].
  apply (fmap_Permutation
           (fun p : option (list N) * option (list N) =>
              (default [] (fst p), default [] (snd p)))) in Hlinks.
  rewrite <- !list_fmap_compose in Hlinks. exact Hlinks.
Defined.

(** ** JSON: numbers *)


Lemma span_app (p : N -> bool) (a rest : list N) :
  forallb p a = true ->
  match rest with [] => true | c :: _ => negb (p c) end = true ->
  span p (a ++ rest) = (a, rest).
Proof.
  intros Ha Hr. induction a as [|c a IH]; simpl in *.
  - destruct rest as [|c r]; [done|]. simpl.
    by destruct (p c).
  - apply andb_true_iff in Ha as [-> Ha]. by rewrite IH.
Qed.

Lemma span_forallb (p : N -> bool) (s : list N) :
  forallb p (fst (span p s)) = true /\ s = fst (span p s) ++ snd (span p s).
Proof.
  induction s as [|c s [IH1 IH2]]; simpl; [done|].
  destruct (p c) eqn:E; [|done].
  destruct (span p s) as [a b]. simpl in *. rewrite E, IH1. split; [done | congruence].
Qed.

Lemma span_rest_head (p : N -> bool) (s : list N) :
  match snd (span p s) with [] => true | c :: _ => negb (p c) end = true.
Proof.
  induction s as [|c s IH]; simpl; [done|].
  destruct (p c) eqn:E; simpl; [|by rewrite E].
  by destruct (span p s).
Qed.

Lemma stripLeadingZeros_repeat (m : nat) (l : list N) :
  stripLeadingZeros (repeat 48 m ++ l) = stripLeadingZeros l.
Proof.
  unfold stripLeadingZeros. induction m as [|m IH]; simpl; [done|].
  by destruct (span isZeroDigit (repeat 48 m ++ l)).
Qed.

Lemma stripLeadingZeros_head (d : N) (l : list N) :
  isZeroDigit d = false -> stripLeadingZeros (d :: l) = d :: l.
Proof. intros H. unfold stripLeadingZeros. simpl. by rewrite H. Qed.

Lemma stripLeadingZeros_nil : stripLeadingZeros [] = [].
Proof. done. Qed.

Lemma rev_repeat {A} (x : A) (m : nat) : rev (repeat x m) = repeat x m.
Proof.
  induction m as [|m IH]; simpl; [done|].
  rewrite IH. clear IH. induction m as [|m IH]; simpl; [done | by rewrite IH].
Qed.

Lemma uint_of_digits_of_uint (u : Decimal.uint) :
  uint_of_digits (digits_of_uint u) = u.
Proof. induction u; simpl; by f_equal. Qed.

Lemma digits_value_decimal (k : N) : digits_value (decimal k) = k.
Proof.
  unfold digits_value, decimal. rewrite uint_of_digits_of_uint.
  apply DecimalN.Unsigned.of_to.
Qed.

Lemma digits_of_uint_isDigit (u : Decimal.uint) :
  forallb isDigit (digits_of_uint u) = true.
Proof. induction u; simpl; by rewrite ?IHu. Qed.

Lemma decimal_isDigit (k : N) : forallb isDigit (decimal k) = true.
Proof. apply digits_of_uint_isDigit. Qed.

Lemma decimal_nonempty (k : N) : decimal k <> [].
Proof.
  unfold decimal. destruct k as [|p]; simpl; [done|].
  intros E. assert (H : Pos.to_uint p = Decimal.Nil) by (by destruct (Pos.to_uint p)).
  pose proof (DecimalPos.Unsigned.of_to p) as Hp. rewrite H in Hp. done.
Qed.

Lemma isEmpty_nonempty {A} (l : list A) : l <> [] -> isEmpty l = false.
Proof. by destruct l. Qed.

Lemma terminated_head (rest : list N) :
  terminated rest = true ->
  match rest with
  | [] => True
  | c :: _ => isDigit c = false /\ c <> 46 /\ c <> 101 /\ c <> 69 /\ c <> 45
  end.
Proof.
  destruct rest as [|c r]; [done|]. unfold terminated, JSON.isJsonWs, isDigit.
  rewrite !orb_true_iff, !N.eqb_eq, andb_false_iff, !N.leb_gt. lia.
Qed.

Lemma parse_fraction_none (rest : list N) :
  terminated rest = true -> parse_fraction rest = Some ([], rest).
Proof.
  intros H. apply terminated_head in H. destruct rest as [|c r]; [done|].
  unfold parse_fraction.
  destruct c as [|p]; [done|].
  do 6 (destruct p as [p|p|]; try done). lia.
Qed.

Lemma parse_exponent_none (rest : list N) :
  terminated rest = true -> parse_exponent rest = Some (0%Z, rest).
Proof.
  intros H. apply terminated_head in H. destruct rest as [|c r]; [done|].
  unfold parse_exponent.
  destruct (N.eqb_spec c 101); [lia|]. destruct (N.eqb_spec c 69); [lia|]. done.
Qed.

Lemma span_digits_terminated (a rest : list N) :
  forallb isDigit a = true -> terminated rest = true ->
  span isDigit (a ++ rest) = (a, rest).
Proof.
  intros Ha H. apply span_app; [done|]. apply terminated_head in H.
  destruct rest as [|c r]; [done|]. by destruct H as [-> _].
Qed.

Lemma binary64_eqb_eq (x y : binary64) : binary64_eqb x y = true -> x = y.
Proof.
  destruct x, y; simpl; try done.
  intros H. apply andb_true_iff in H as [H1 H2].
  apply Z.eqb_eq in H1, H2. by subst.
Qed.

Lemma number_eqb_eq (x y : number) : number_eqb x y = true <-> x = y.
Proof.
  split.
  - destruct x as [a ds n | a], y as [b ds' n' | b]; simpl; try done.
    + intros H. apply andb_true_iff in H as [H Hn].
      apply andb_true_iff in H as [Ha Hd].
      apply Bool.eqb_prop in Ha. apply bool_decide_eq_true in Hd.
      apply Z.eqb_eq in Hn. by subst.
    + intros H. apply Bool.eqb_prop in H. by subst.
  - intros <-. destruct x as [a ds n | a]; simpl.
    + by rewrite Bool.eqb_reflx, bool_decide_eq_true_2, Z.eqb_refl.
    + apply Bool.eqb_reflx.
Qed.

Lemma number_of_literal_canonical (neg : bool) (ip fp : list N) (e : Z)
    (zl zt : nat) (d : N) (ds : list N) (n : Z) :
  canonical (Fin neg (d :: ds) n) = true ->
  ip ++ fp = repeat 48 zl ++ (d :: ds) ++ repeat 48 zt ->
  n = (Z.of_nat (length ip) + e - Z.of_nat zl)%Z ->
  number_of_literal neg ip fp e = Fin neg (d :: ds) n.
Proof.
  intros Hc Hall Hn. unfold canonical in Hc.
  apply andb_true_iff in Hc as [Hc Hrt].
  apply andb_true_iff in Hc as [Hc Hlast].
  apply andb_true_iff in Hc as [Hdig Hd].
  apply negb_true_iff in Hd. apply number_eqb_eq in Hrt.
  unfold number_of_literal, decimal_of_literal. rewrite Hall.
  rewrite stripLeadingZeros_repeat.
  change ((d :: ds) ++ repeat 48 zt) with (d :: (ds ++ repeat 48 zt)).
  rewrite stripLeadingZeros_head by done.
  change (d :: (ds ++ repeat 48 zt)) with ((d :: ds) ++ repeat 48 zt).
  assert (Hstrip : stripTrailingZeros ((d :: ds) ++ repeat 48 zt) = d :: ds).
  { unfold stripTrailingZeros. rewrite rev_app_distr, rev_repeat.
    rewrite stripLeadingZeros_repeat.
    destruct (rev (d :: ds)) as [|l r] eqn:E.
    - apply (f_equal (@rev N)) in E. by rewrite rev_involutive in E.
    - apply negb_true_iff in Hlast. rewrite stripLeadingZeros_head by done.
      by rewrite <- E, rev_involutive. }
  rewrite Hstrip. rewrite !length_app, !repeat_length.
  match goal with
  | |- number_of_decimal _ _ ?m = _ => replace m with n by (simpl length; lia)
  end.
  exact Hrt.
Qed.

Lemma canonical_digits (neg : bool) (d : N) (ds : list N) (n : Z) :
  canonical (Fin neg (d :: ds) n) = true ->
  forallb isDigit (d :: ds) = true /\ isZeroDigit d = false.
Proof.
  unfold canonical. rewrite !andb_true_iff, !negb_true_iff. tauto.
Qed.

Lemma forallb_repeat_zero (m : nat) : forallb isDigit (repeat 48 m) = true.
Proof. induction m; simpl; [done | by rewrite IHm]. Qed.

Lemma parse_unsigned_intro (neg : bool) (ip fp : list N) (e : Z)
    (s s2 s3 rest : list N) (x : number) :
  span isDigit s = (ip, s2) ->
  match ip with
  | [] => false
  | d :: more => negb ((d =? 48) && negb (isEmpty more))
  end = true ->
  parse_fraction s2 = Some (fp, s3) ->
  parse_exponent s3 = Some (e, rest) ->
  number_of_literal neg ip fp e = x ->
  parse_unsigned neg s = Some (x, rest).
Proof.
  intros Hs Hip Hf He Hx. unfold parse_unsigned. rewrite Hs.
  destruct ip as [|d more]; [done|].
  apply negb_true_iff in Hip. rewrite Hip, Hf, He. by rewrite Hx.
Qed.

Lemma parse_exponent_decimal (e : Z) (rest : list N) :
  terminated rest = true ->
  parse_exponent
    ([101; if (e <? 0)%Z then 45 else 43] ++ decimal (Z.abs_N e) ++ rest)
  = Some (e, rest).
Proof.
  intros Hr. unfold parse_exponent. simpl.
  destruct (e <? 0)%Z eqn:E.
  - rewrite span_digits_terminated by (done || apply decimal_isDigit).
    rewrite isEmpty_nonempty by apply decimal_nonempty.
    rewrite digits_value_decimal. do 2 f_equal. lia.
  - rewrite span_digits_terminated by (done || apply decimal_isDigit).
    rewrite isEmpty_nonempty by apply decimal_nonempty.
    rewrite digits_value_decimal. do 2 f_equal. lia.
Qed.

Lemma parse_unsigned_digitsToString (neg : bool) (d : N) (ds : list N) (n : Z)
    (rest : list N) :
  canonical (Fin neg (d :: ds) n) = true ->
  terminated rest = true ->
  parse_unsigned neg (digitsToString (d :: ds) n ++ rest)
  = Some (Fin neg (d :: ds) n, rest).
Proof.
  intros Hc Hr. destruct (canonical_digits _ _ _ _ Hc) as [Hdig Hd].
  assert (Hd48 : (d =? 48) = false) by done.
  unfold digitsToString.
  set (k := Z.of_nat (length (d :: ds))).
  destruct ((k <=? n)%Z && (n <=? 21)%Z) eqn:E1.
  { (* an integer: the digits and zeros *)
    apply andb_true_iff in E1 as [E1 _]. apply Z.leb_le in E1.
    apply parse_unsigned_intro with
      (ip := (d :: ds) ++ repeat 48 (Z.to_nat (n - k))) (fp := []) (e := 0%Z)
      (s2 := rest) (s3 := rest).
    - apply span_digits_terminated; [|done].
      by rewrite forallb_app, Hdig, forallb_repeat_zero.
    - simpl. by rewrite Hd48.
    - by apply parse_fraction_none.
    - by apply parse_exponent_none.
    - apply number_of_literal_canonical with (zl := 0%nat) (zt := Z.to_nat (n - k));
        [done | by rewrite app_nil_r |].
      rewrite length_app, repeat_length. subst k. lia. }
  destruct ((0 <? n)%Z && (n <=? 21)%Z) eqn:E2.
  { (* digits on both sides of the point *)
    apply andb_true_iff in E2 as [E2 E2']. apply Z.ltb_lt in E2.
    apply andb_false_iff in E1 as [E1 | E1]; [apply Z.leb_gt in E1 | congruence].
    assert (Hlen : (Z.to_nat n < length (d :: ds))%nat) by (subst k; lia).
    assert (Htake : take (Z.to_nat n) (d :: ds) <> []).
    { destruct (Z.to_nat n) eqn:En; [lia | done]. }
    assert (Hdrop : drop (Z.to_nat n) (d :: ds) <> []).
    { intros Hnil. apply (f_equal length) in Hnil. rewrite length_drop in Hnil.
      simpl in *. lia. }
    assert (Hdt : forallb isDigit (take (Z.to_nat n) (d :: ds)) = true
                  /\ forallb isDigit (drop (Z.to_nat n) (d :: ds)) = true).
    { rewrite <- (take_drop (Z.to_nat n) (d :: ds)), forallb_app in Hdig.
      by apply andb_true_iff in Hdig. }
    destruct Hdt as [Ht Hdr].
    apply parse_unsigned_intro with
      (ip := take (Z.to_nat n) (d :: ds)) (fp := drop (Z.to_nat n) (d :: ds))
      (e := 0%Z) (s2 := [46] ++ drop (Z.to_nat n) (d :: ds) ++ rest) (s3 := rest).
    - rewrite <- !app_assoc. apply span_app; done.
    - destruct (Z.to_nat n) eqn:En; [lia|]. simpl. by rewrite Hd48.
    - unfold parse_fraction. simpl.
      rewrite span_digits_terminated by done.
      by rewrite isEmpty_nonempty.
    - by apply parse_exponent_none.
    - apply number_of_literal_canonical with (zl := 0%nat) (zt := 0%nat);
        [done | by rewrite take_drop, app_nil_r |].
      rewrite length_take. lia. }
  destruct ((-6 <? n)%Z && (n <=? 0)%Z) eqn:E3.
  { (* a fraction below one *)
    apply andb_true_iff in E3 as [_ E3]. apply Z.leb_le in E3.
    apply parse_unsigned_intro with
      (ip := [48]) (fp := repeat 48 (Z.to_nat (- n)) ++ d :: ds)
      (e := 0%Z) (s2 := [46] ++ repeat 48 (Z.to_nat (- n)) ++ (d :: ds) ++ rest)
      (s3 := rest).
    - simpl. by rewrite <- !app_assoc.
    - done.
    - unfold parse_fraction. simpl.
      change (d :: ds ++ rest) with ((d :: ds) ++ rest). rewrite app_assoc.
      rewrite span_digits_terminated;
        [| by rewrite forallb_app, forallb_repeat_zero | done].
      rewrite isEmpty_nonempty; [done|]. by destruct (repeat _ _).
    - by apply parse_exponent_none.
    - apply number_of_literal_canonical
        with (zl := S (Z.to_nat (- n))) (zt := 0%nat); [done | | simpl; lia].
      simpl. by rewrite app_nil_r. }
  (* exponent notation *)
  assert (En : (n - 1 <> 0)%Z).
  { apply andb_false_iff in E2, E3.
    destruct E2 as [E2|E2], E3 as [E3|E3];
      rewrite ?Z.ltb_ge, ?Z.leb_gt in *; lia. }
  destruct ds as [|d2 ds].
  - apply parse_unsigned_intro with
      (ip := [d]) (fp := []) (e := (n - 1)%Z)
      (s2 := [101; if (n - 1 <? 0)%Z then 45 else 43] ++ decimal (Z.abs_N (n - 1)) ++ rest)
      (s3 := [101; if (n - 1 <? 0)%Z then 45 else 43] ++ decimal (Z.abs_N (n - 1)) ++ rest).
    + simpl. simpl in Hdig. rewrite andb_true_r in Hdig. by rewrite Hdig.
    + simpl. by rewrite Hd48.
    + done.
    + by apply parse_exponent_decimal.
    + apply number_of_literal_canonical with (zl := 0%nat) (zt := 0%nat);
        [done | done | simpl; lia].
  - apply parse_unsigned_intro with
      (ip := [d]) (fp := d2 :: ds) (e := (n - 1)%Z)
      (s2 := [46] ++ (d2 :: ds) ++
             [101; if (n - 1 <? 0)%Z then 45 else 43] ++ decimal (Z.abs_N (n - 1)) ++ rest)
      (s3 := [101; if (n - 1 <? 0)%Z then 45 else 43] ++ decimal (Z.abs_N (n - 1)) ++ rest).
    + simpl. simpl in Hdig. apply andb_true_iff in Hdig as [-> _].
      by rewrite <- !app_assoc.
    + simpl. by rewrite Hd48.
    + unfold parse_fraction. simpl app.
      simpl in Hdig. apply andb_true_iff in Hdig as [_ Hdig].
      change (d2 :: ds ++ ?x) with ((d2 :: ds) ++ x).
      rewrite span_app; [done | done | done].
    + by apply parse_exponent_decimal.
    + apply number_of_literal_canonical with (zl := 0%nat) (zt := 0%nat);
        [done | by rewrite app_nil_r | simpl; lia].
Qed.

Lemma parse_number_not_minus (c : N) (s : list N) :
  c <> 45 -> parse_number (c :: s) = parse_unsigned false (c :: s).
Proof.
  intros Hc. unfold parse_number. destruct c as [|p]; [done|].
  do 6 (destruct p as [p|p|]; try done).
Qed.

Lemma digitsToString_head (d : N) (ds : list N) (n : Z) :
  isDigit d = true ->
  exists c t, digitsToString (d :: ds) n = c :: t /\ isDigit c = true.
Proof.
  intros Hd. unfold digitsToString.
  destruct ((Z.of_nat (length (d :: ds)) <=? n)%Z && (n <=? 21)%Z).
  { do 2 eexists; split; [reflexivity | done]. }
  destruct ((0 <? n)%Z && (n <=? 21)%Z) eqn:E.
  { apply andb_true_iff in E as [E _]. apply Z.ltb_lt in E.
    destruct (Z.to_nat n) eqn:En; [lia|]. simpl.
    do 2 eexists; split; [reflexivity | done]. }
  destruct ((-6 <? n)%Z && (n <=? 0)%Z).
  { do 2 eexists; split; [reflexivity | done]. }
  destruct ds; simpl; do 2 eexists; (split; [reflexivity | done]).
Qed.

Lemma isDigit_not_minus (c : N) : isDigit c = true -> c <> 45.
Proof. unfold isDigit. rewrite andb_true_iff, !N.leb_le. lia. Qed.

Lemma parse_number_NumberToString (x : number) (rest : list N) :
  canonical x = true -> isFinite x = true -> terminated rest = true ->
  parse_number (NumberToString x ++ rest) = Some (x, rest).
Proof.
  intros Hc Hf Hr. destruct x as [neg ds n|]; [|done].
  destruct ds as [|d ds].
  - simpl in Hc. apply andb_true_iff in Hc as [Hneg Hn].
    apply negb_true_iff in Hneg. apply Z.eqb_eq in Hn. subst neg n.
    change (NumberToString (Fin false [] 0) ++ rest) with (48 :: rest).
    rewrite parse_number_not_minus by done.
    apply parse_unsigned_intro with (ip := [48]) (fp := []) (e := 0%Z)
      (s2 := rest) (s3 := rest).
    + by apply (span_digits_terminated [48]).
    + done.
    + by apply parse_fraction_none.
    + by apply parse_exponent_none.
    + done.
  - destruct (canonical_digits _ _ _ _ Hc) as [Hdig _].
    simpl in Hdig. apply andb_true_iff in Hdig as [Hd _].
    destruct neg.
    + change (NumberToString (Fin true (d :: ds) n) ++ rest)
        with (45 :: (digitsToString (d :: ds) n ++ rest)).
      change (parse_number (45 :: ?s)) with (parse_unsigned true s).
      by apply parse_unsigned_digitsToString.
    + change (NumberToString (Fin false (d :: ds) n) ++ rest)
        with (digitsToString (d :: ds) n ++ rest).
      rewrite <- parse_unsigned_digitsToString with (neg := false) by done.
      destruct (digitsToString_head d ds n Hd) as (c & t & -> & Hcd).
      simpl. apply parse_number_not_minus. by apply isDigit_not_minus.
Qed.

(** ** JSON strings *)

Ltac Zify.zify_post_hook ::= Z.to_euclidean_division_equations.

Lemma hexValue_hexDigit (d : N) : d < 16 -> JSON.hexValue (JSON.hexDigit d) = Some d.
Proof.
  intros Hd. unfold JSON.hexValue, JSON.hexDigit.
  destruct (N.ltb_spec d 10).
  - destruct (N.leb_spec 48 (48 + d)); [|lia].
    destruct (N.leb_spec (48 + d) 57); [|lia]. simpl. f_equal. lia.
  - destruct (N.leb_spec 48 (87 + d)); [|lia].
    destruct (N.leb_spec (87 + d) 57); [lia|]. simpl.
    destruct (N.leb_spec 97 (87 + d)); [|lia].
    destruct (N.leb_spec (87 + d) 102); [|lia]. simpl. f_equal. lia.
Qed.

Lemma hex4_unicodeEscape (c : N) :
  c < 65536 ->
  exists h1 h2 h3 h4,
    JSON.unicodeEscape c = [92; 117; h1; h2; h3; h4] /\
    JSON.hex4 h1 h2 h3 h4 = Some c.
Proof.
  intros Hc. unfold JSON.unicodeEscape. do 4 eexists. split; [done|].
  unfold JSON.hex4. rewrite !hexValue_hexDigit by (apply N.mod_lt; lia).
  f_equal. lia.
Qed.

Lemma parse_string_escape (c : N) (s t rest : list N) :
  c < 65536 ->
  JSON.parse_string s = Some (t, rest) ->
  JSON.parse_string (JSON.unicodeEscape c ++ s) = Some (c :: t, rest).
Proof.
  intros Hc Hs. destruct (hex4_unicodeEscape c Hc) as (h1 & h2 & h3 & h4 & -> & Hh).
  simpl. by rewrite Hh, Hs.
Qed.

Lemma parse_string_raw (c : N) (s t rest : list N) :
  (c =? 34) = false -> (c =? 92) = false -> (c <? 32) = false ->
  JSON.parse_string s = Some (t, rest) ->
  JSON.parse_string (c :: s) = Some (c :: t, rest).
Proof. intros H1 H2 H3 Hs. simpl. by rewrite H1, H2, H3, Hs. Qed.

Lemma parse_string_quoteChars (s : list N) :
  forall (afterHigh : bool) (rest : list N),
    JSON.parse_string (JSON.quoteChars afterHigh s ++ 34 :: rest) = Some (s, rest).
Proof.
  induction s as [|c s IH]; intros afterHigh rest; [done|].
  cbn [JSON.quoteChars].
  destruct (N.eqb_spec c 8) as [->|H8]; [simpl; by rewrite IH|].
  destruct (N.eqb_spec c 9) as [->|H9]; [simpl; by rewrite IH|].
  destruct (N.eqb_spec c 10) as [->|H10]; [simpl; by rewrite IH|].
  destruct (N.eqb_spec c 12) as [->|H12]; [simpl; by rewrite IH|].
  destruct (N.eqb_spec c 13) as [->|H13]; [simpl; by rewrite IH|].
  destruct (N.eqb_spec c 34) as [->|H34]; [simpl; by rewrite IH|].
  destruct (N.eqb_spec c 92) as [->|H92]; [simpl; by rewrite IH|].
  destruct (N.ltb_spec c 32) as [H32|H32].
  { rewrite <- app_assoc. apply parse_string_escape; [lia | apply IH]. }
  assert (Hraw : forall b,
            JSON.parse_string (c :: JSON.quoteChars b s ++ 34 :: rest)
            = Some (c :: s, rest)).
  { intros b. apply parse_string_raw; [by apply N.eqb_neq | by apply N.eqb_neq
                                      | by apply N.ltb_ge | apply IH]. }
  destruct (JSON.isHighSurrogate c) eqn:Hhigh.
  { assert (c < 65536).
    { unfold JSON.isHighSurrogate in Hhigh.
      apply andb_true_iff in Hhigh as [_ Hh]. apply N.leb_le in Hh. lia. }
    destruct s as [|d s'].
    - rewrite <- (app_nil_r (JSON.unicodeEscape c)), <- app_assoc.
      apply parse_string_escape; [done | apply (IH false)].
    - destruct (JSON.isLowSurrogate d).
      + apply Hraw.
      + rewrite <- app_assoc. apply parse_string_escape; [done | apply IH]. }
  destruct (JSON.isLowSurrogate c) eqn:Hlow; [|apply Hraw].
  destruct afterHigh; [apply Hraw|].
  rewrite <- app_assoc. apply parse_string_escape; [|apply IH].
  unfold JSON.isLowSurrogate in Hlow.
  apply andb_true_iff in Hlow as [_ Hl]. apply N.leb_le in Hl. lia.
Qed.

Lemma parse_string_quote (s rest : list N) :
  exists t, JSON.quote s = 34 :: t /\ JSON.parse_string (t ++ rest) = Some (s, rest).
Proof.
  exists (JSON.quoteChars false s ++ [34]). split; [done|].
  rewrite <- app_assoc. apply parse_string_quoteChars.
Qed.

(** ** JSON values *)

Lemma jsval_induction (P : jsval -> Prop) :
  P VUndefined -> P VNull -> (forall b, P (VBool b)) -> (forall x, P (VNum x)) ->
  (forall s, P (VStr s)) ->
  (forall items, Forall P items -> P (VArr items)) ->
  (forall props, Forall (fun kv => P (snd kv)) props -> P (VObj props)) ->
  forall v, P v.
Proof.
  intros Hu Hn Hb Hx Hs Ha Ho. fix IH 1.
  intros [| |b|x|s|items|props];
    [apply Hu | apply Hn | apply Hb | apply Hx | apply Hs | |].
  - apply Ha. revert items. fix IHl 1. intros [|a l]; constructor; [apply IH | apply IHl].
  - apply Ho. revert props. fix IHl 1.
    intros [|[k a] l]; constructor; [apply IH | apply IHl].
Qed.

Lemma js_literals :
  js "null" = [110; 117; 108; 108] /\ js "true" = [116; 114; 117; 101] /\
  js "false" = [102; 97; 108; 115; 101] /\ js "[]" = [91; 93] /\ js "{}" = [123; 125].
Proof. vm_compute. done. Qed.

Lemma skip_ws_ws (ws s : list N) :
  forallb JSON.isJsonWs ws = true -> JSON.skip_ws (ws ++ s) = JSON.skip_ws s.
Proof.
  induction ws as [|c ws IH]; simpl; [done|].
  intros H. apply andb_true_iff in H as [-> H]. by apply IH.
Qed.

Lemma skip_ws_start (s : list N) :
  match s with [] => true | c :: _ => negb (JSON.isJsonWs c) end = true ->
  JSON.skip_ws s = s.
Proof. destruct s as [|c s]; simpl; [done|]. by destruct (JSON.isJsonWs c). Qed.

Lemma skip_ws_idem (s : list N) : JSON.skip_ws (JSON.skip_ws s) = JSON.skip_ws s.
Proof.
  induction s as [|c s IH]; simpl; [done|].
  destruct (JSON.isJsonWs c) eqn:E; [done|]. simpl. by rewrite E.
Qed.

Lemma parse_value_S (f : nat) (s : list N) :
  JSON.parse_value (S f) s =
  match JSON.skip_ws s with
  | [] => None
  | c :: r =>
    if c =? 123 then
      match JSON.skip_ws r with
      | 125 :: r' => Some (VObj [], r')
      | _ =>
        match JSON.parse_members f [] r with
        | Some (props, r') => Some (VObj props, r')
        | None => None
        end
      end
    else if c =? 91 then
      match JSON.skip_ws r with
      | 93 :: r' => Some (VArr [], r')
      | _ =>
        match JSON.parse_elements f r with
        | Some (items, r') => Some (VArr items, r')
        | None => None
        end
      end
    else if c =? 34 then
      match JSON.parse_string r with
      | Some (t, r') => Some (VStr t, r')
      | None => None
      end
    else if startsWith (c :: r) (js "true") then Some (VBool true, drop 4 (c :: r))
    else if startsWith (c :: r) (js "false") then Some (VBool false, drop 5 (c :: r))
    else if startsWith (c :: r) (js "null") then Some (VNull, drop 4 (c :: r))
    else
      match parse_number (c :: r) with
      | Some (x, r') => Some (VNum x, r')
      | None => None
      end
  end.
Proof. reflexivity. Qed.

Lemma parse_elements_S (f : nat) (s : list N) :
  JSON.parse_elements (S f) s =
  match JSON.parse_value f s with
  | None => None
  | Some (v, r) =>
    match JSON.skip_ws r with
    | c :: r' =>
      if c =? 44 then
        match JSON.parse_elements f r' with
        | Some (vs, r'') => Some (v :: vs, r'')
        | None => None
        end
      else if c =? 93 then Some ([v], r')
      else None
    | [] => None
    end
  end.
Proof. reflexivity. Qed.

Lemma parse_members_S (f : nat) (acc : list (list N * jsval)) (s : list N) :
  JSON.parse_members (S f) acc s =
  match JSON.skip_ws s with
  | 34 :: r =>
    match JSON.parse_string r with
    | None => None
    | Some (k, r1) =>
      match JSON.skip_ws r1 with
      | 58 :: r2 =>
        match JSON.parse_value f r2 with
        | None => None
        | Some (v, r3) =>
          let acc' := JSON.defineProperty k v acc in
          match JSON.skip_ws r3 with
          | c :: r4 =>
            if c =? 44 then JSON.parse_members f acc' r4
            else if c =? 125 then Some (acc', r4)
            else None
          | [] => None
          end
        end
      | _ => None
      end
    end
  | _ => None
  end.
Proof. reflexivity. Qed.

Lemma parse_value_ws (fuel : nat) (ws s : list N) :
  forallb JSON.isJsonWs ws = true ->
  JSON.parse_value fuel (ws ++ s) = JSON.parse_value fuel s.
Proof.
  intros H. destruct fuel as [|f]; [done|].
  by rewrite !parse_value_S, skip_ws_ws.
Qed.

Lemma parse_elements_ws (fuel : nat) (ws s : list N) :
  forallb JSON.isJsonWs ws = true ->
  JSON.parse_elements fuel (ws ++ s) = JSON.parse_elements fuel s.
Proof.
  intros H. destruct fuel as [|f]; [done|].
  by rewrite !parse_elements_S, parse_value_ws.
Qed.

Lemma parse_members_ws (fuel : nat) acc (ws s : list N) :
  forallb JSON.isJsonWs ws = true ->
  JSON.parse_members fuel acc (ws ++ s) = JSON.parse_members fuel acc s.
Proof.
  intros H. destruct fuel as [|f]; [done|].
  by rewrite !parse_members_S, skip_ws_ws.
Qed.

Lemma terminated_ws (ws rest : list N) (c : N) :
  forallb JSON.isJsonWs ws = true ->
  (c =? 44) || (c =? 93) || (c =? 125) = true ->
  terminated (ws ++ c :: rest) = true.
Proof.
  intros Hws Hc. destruct ws as [|w ws]; unfold terminated; cbn [app].
  - destruct (JSON.isJsonWs c), (c =? 44), (c =? 93), (c =? 125); done.
  - cbn [forallb] in Hws. apply andb_true_iff in Hws as [-> _]. done.
Qed.

Lemma skip_ws_closing (ws rest : list N) (c : N) :
  forallb JSON.isJsonWs ws = true -> JSON.isJsonWs c = false ->
  JSON.skip_ws (ws ++ c :: rest) = c :: rest.
Proof.
  intros Hws Hc. rewrite skip_ws_ws by done. simpl. by rewrite Hc.
Qed.

Lemma parse_elements_join (items : list jsval) (texts : list (list N)) :
  Forall2 reads items texts ->
  items <> [] ->
  forall (wsI wsE rest : list N) (fuel : nat),
    forallb JSON.isJsonWs wsI = true -> forallb JSON.isJsonWs wsE = true ->
    (list_sum (map (fun x => S (size x)) items) <= fuel)%nat ->
    JSON.parse_elements fuel (join (44 :: wsI) texts ++ wsE ++ 93 :: rest)
    = Some (items, rest).
Proof.
  induction 1 as [|x t items texts [Hstart Hx] Hrest IH]; [done|].
  intros _ wsI wsE rest fuel HwsI HwsE Hfuel.
  destruct fuel as [|f]; [simpl in Hfuel; lia|].
  rewrite parse_elements_S.
  destruct Hrest as [|x2 t2 items texts Hx2 Hrest].
  - simpl join. simpl in Hfuel.
    rewrite Hx; [| lia | by apply terminated_ws].
    rewrite skip_ws_closing by done. done.
  - change (join (44 :: wsI) (t :: t2 :: texts))
      with (t ++ (44 :: wsI) ++ join (44 :: wsI) (t2 :: texts)).
    specialize (IH ltac:(done) wsI wsE rest f HwsI HwsE).
    set (J := join (44 :: wsI) (t2 :: texts)) in *.
    rewrite <- !app_assoc. simpl in Hfuel.
    rewrite Hx; [| lia | done].
    simpl JSON.skip_ws. cbv iota. simpl N.eqb. cbv iota.
    rewrite parse_elements_ws by done.
    rewrite IH; [done | simpl; lia].
Qed.

Lemma keysOrdered_app_cons (acc : list (list N)) (k : list N) (rest : list (list N)) :
  keysOrdered (acc ++ k :: rest) = true ->
  Forall (fun k0 => JSON.sameKey k k0 = false /\ JSON.goesBefore k k0 = false) acc.
Proof.
  induction acc as [|k0 acc IH]; simpl; [done|].
  intros H. apply andb_true_iff in H as [H1 H2].
  constructor; [|by apply IH].
  rewrite forallb_app in H1. apply andb_true_iff in H1 as [_ H1].
  simpl in H1. apply andb_true_iff in H1 as [H1 _].
  apply andb_true_iff in H1 as [Ha Hb].
  by apply negb_true_iff in Ha, Hb.
Qed.

Lemma defineProperty_append (k : list N) (v : jsval) (acc : list (list N * jsval)) :
  Forall (fun k0 => JSON.sameKey k k0 = false /\ JSON.goesBefore k k0 = false)
         (map fst acc) ->
  JSON.defineProperty k v acc = acc ++ [(k, v)].
Proof.
  induction acc as [|[k0 v0] acc IH]; simpl; [done|].
  intros H. apply Forall_cons in H as [[-> ->] H]. by rewrite IH.
Qed.

Ltac fuel_lia :=
  simpl;
  repeat match goal with
         | H : context [list_sum ?l] |- _ => generalize dependent (list_sum l); intros
         | |- context [list_sum ?l] => generalize (list_sum l); intros
         end;
  lia.

Lemma parse_members_step (f : nat) (acc : list (list N * jsval))
    (k sp t : list N) (x : jsval) (rest : list N) :
  forallb JSON.isJsonWs sp = true ->
  JSON.parse_value f (t ++ rest) = Some (x, rest) ->
  JSON.parse_members (S f) acc ((JSON.quote k ++ [58] ++ sp ++ t) ++ rest) =
  match JSON.skip_ws rest with
  | c :: r4 =>
    if c =? 44 then JSON.parse_members f (JSON.defineProperty k x acc) r4
    else if c =? 125 then Some (JSON.defineProperty k x acc, r4)
    else None
  | [] => None
  end.
Proof.
  intros Hsp Hx. rewrite parse_members_S. unfold JSON.quote.
  rewrite <- !app_assoc.
  change (JSON.skip_ws ([34] ++ ?s)) with (34 :: s).
  cbv iota.
  change ([34] ++ [58] ++ ?s) with (34 :: 58 :: s).
  rewrite parse_string_quoteChars.
  change (JSON.skip_ws (58 :: ?s)) with (58 :: s).
  cbv iota. rewrite parse_value_ws by done. by rewrite Hx.
Qed.

Lemma parse_members_join (props : list (list N * jsval)) (texts : list (list N)) :
  Forall2 (fun kv t => reads (snd kv) t) props texts ->
  props <> [] ->
  forall (acc : list (list N * jsval)) (sp wsI wsE rest : list N) (fuel : nat),
    forallb JSON.isJsonWs sp = true ->
    forallb JSON.isJsonWs wsI = true -> forallb JSON.isJsonWs wsE = true ->
    keysOrdered (map fst (acc ++ props)) = true ->
    (list_sum (map (fun kv => match kv with (_, x) => S (size x) end) props)
     <= fuel)%nat ->
    JSON.parse_members fuel acc
      (join (44 :: wsI)
         (zip_with (fun kv t => JSON.quote (fst kv) ++ [58] ++ sp ++ t) props texts)
       ++ wsE ++ 125 :: rest)
    = Some (acc ++ props, rest).
Proof.
  induction 1 as [|[k x] t props texts [Hstart Hx] Hrest IH]; [done|].
  intros _ acc sp wsI wsE rest fuel Hsp HwsI HwsE Hkeys Hfuel.
  destruct fuel as [|f]; [simpl in Hfuel; lia|].
  simpl in Hx, Hstart.
  assert (Hdef : JSON.defineProperty k x acc = acc ++ [(k, x)]).
  { apply defineProperty_append. rewrite map_app in Hkeys.
    by apply keysOrdered_app_cons in Hkeys. }
  destruct Hrest as [|[k2 x2] t2 props texts Hx2 Hrest].
  - change (join (44 :: wsI) (zip_with ?f [(k, x)] [t])) with (f (k, x) t).
    cbn beta. cbn [fst]. simpl in Hfuel.
    rewrite (parse_members_step f acc k sp t x);
      [| done | apply Hx; [lia | by apply terminated_ws]].
    rewrite skip_ws_closing by done. simpl N.eqb. cbv iota.
    by rewrite Hdef.
  - specialize (IH ltac:(done) (acc ++ [(k, x)]) sp wsI wsE rest f Hsp HwsI HwsE).
    change (zip_with ?f ((k, x) :: (k2, x2) :: props) (t :: t2 :: texts))
      with (f (k, x) t :: zip_with f ((k2, x2) :: props) (t2 :: texts)).
    set (more := zip_with _ ((k2, x2) :: props) (t2 :: texts)) in *.
    assert (Hmore : exists m ms, more = m :: ms) by (subst more; simpl; eauto).
    destruct Hmore as (m & ms & Hmore).
    assert (Hjoin : forall a, join (44 :: wsI) (a :: more)
                              = a ++ (44 :: wsI) ++ join (44 :: wsI) more).
    { intros a. by rewrite Hmore. }
    rewrite Hjoin. cbn [fst]. simpl in Hfuel.
    set (J := join (44 :: wsI) more) in *.
    rewrite <- (app_assoc _ _ (wsE ++ 125 :: rest)).
    rewrite (parse_members_step f acc k sp t x); [| done | apply Hx; [idtac | done]].
    2: { fuel_lia. }
    rewrite <- !app_assoc.
    change (JSON.skip_ws ((44 :: wsI) ++ ?s)) with (44 :: wsI ++ s).
    simpl N.eqb. cbv iota.
    rewrite parse_members_ws by done. rewrite Hdef.
    rewrite <- app_assoc in IH. rewrite IH; [done | done | fuel_lia].
Qed.

Lemma not_closing_bracket {T} (s : list N) (a : list N -> T) (b : T) :
  match s with c :: _ => c <> 93 | [] => True end ->
  match s with 93 :: r' => a r' | _ => b end = b.
Proof.
  destruct s as [|c r]; [done|]. intros Hc.
  destruct c as [|p]; [done|]. do 7 (destruct p as [p|p|]; try done).
Qed.

Lemma not_closing_brace {T} (s : list N) (a : list N -> T) (b : T) :
  match s with c :: _ => c <> 125 | [] => True end ->
  match s with 125 :: r' => a r' | _ => b end = b.
Proof.
  destruct s as [|c r]; [done|]. intros Hc.
  destruct c as [|p]; [done|]. do 7 (destruct p as [p|p|]; try done).
Qed.

Lemma startsValue_head (t : list N) :
  startsValue t = true ->
  exists c r, t = c :: r /\ JSON.isJsonWs c = false /\ c <> 44 /\ c <> 93 /\ c <> 125.
Proof.
  destruct t as [|c r]; [done|]. unfold startsValue. intros H.
  apply negb_true_iff in H. rewrite !orb_false_iff, !N.eqb_neq in H.
  exists c, r. tauto.
Qed.

Lemma parse_value_number (f : nat) (c : N) (r : list N) :
  c = 45 \/ isDigit c = true ->
  JSON.parse_value (S f) (c :: r) =
  match parse_number (c :: r) with
  | Some (x, r') => Some (VNum x, r')
  | None => None
  end.
Proof.
  intros Hc. rewrite parse_value_S.
  destruct js_literals as (-> & -> & -> & _).
  assert (Hrange : c = 45 \/ (48 <= c /\ c <= 57)).
  { destruct Hc as [Hc|Hc]; [by left | right].
    unfold isDigit in Hc. apply andb_true_iff in Hc. rewrite !N.leb_le in Hc. lia. }
  assert (Hws : JSON.isJsonWs c = false).
  { unfold JSON.isJsonWs. rewrite !orb_false_iff, !N.eqb_neq. lia. }
  simpl JSON.skip_ws. rewrite Hws.
  destruct (N.eqb_spec c 123); [lia|]. destruct (N.eqb_spec c 91); [lia|].
  destruct (N.eqb_spec c 34); [lia|].
  cbn [startsWith].
  destruct (N.eqb_spec 116 c); [lia|]. destruct (N.eqb_spec 102 c); [lia|].
  destruct (N.eqb_spec 110 c); [lia|]. done.
Qed.

Lemma NumberToString_head (x : number) :
  canonical x = true -> isFinite x = true ->
  exists c r, NumberToString x = c :: r /\ (c = 45 \/ isDigit c = true).
Proof.
  intros Hc Hf. destruct x as [neg ds n|]; [|done].
  destruct ds as [|d ds]; [by exists 48, []; split; [|right]|].
  destruct (canonical_digits _ _ _ _ Hc) as [Hdig _].
  simpl in Hdig. apply andb_true_iff in Hdig as [Hd _].
  destruct neg.
  - exists 45, (digitsToString (d :: ds) n). split; [done | by left].
  - destruct (digitsToString_head d ds n Hd) as (c & t & E & Hcd).
    exists c, t. split; [|by right]. unfold NumberToString. by rewrite E.
Qed.

Lemma array_texts (ser : jsval -> option (list N)) (items : list jsval) :
  Forall (fun x => exists t, ser x = Some t /\ reads x t) items ->
  exists texts,
    map (fun x => default (js "null") (ser x)) items = texts /\
    Forall2 reads items texts.
Proof.
  induction 1 as [|x items (t & Ht & Hr) _ (texts & E & IH)].
  - by exists [].
  - exists (t :: texts). simpl. rewrite Ht, E. split; [done | by constructor].
Qed.

Lemma member_texts (ser : jsval -> option (list N)) (sp : list N)
    (props : list (list N * jsval)) :
  Forall (fun kv => exists t, ser (snd kv) = Some t /\ reads (snd kv) t) props ->
  exists texts,
    JSON.memberTexts ser sp props
    = zip_with (fun kv t => JSON.quote (fst kv) ++ [58] ++ sp ++ t) props texts /\
    Forall2 (fun kv t => reads (snd kv) t) props texts.
Proof.
  induction 1 as [|[k x] props (t & Ht & Hr) _ (texts & E & IH)].
  - by exists [].
  - exists (t :: texts). simpl in *. rewrite Ht, E. split; [done | by constructor].
Qed.

Lemma forallb_Forall_wf {A} (f g : A -> bool) (P : A -> Prop) (l : list A) :
  Forall (fun x => f x = true -> g x = true -> P x) l ->
  forallb f l = true -> forallb g l = true -> Forall P l.
Proof.
  induction 1 as [|x l Hx _ IH]; simpl; [done|].
  intros Hf Hg. apply andb_true_iff in Hf as [Hf1 Hf2].
  apply andb_true_iff in Hg as [Hg1 Hg2]. constructor; auto.
Qed.

(** The separators [SerializeJSONArray] and [SerializeJSONObject] put around
    the parts. *)
Lemma bracketed (gap indent : list N) (open close : N) (parts : list (list N)) :
  (if isEmpty gap then [open] ++ join [44] parts ++ [close]
   else [open; 10] ++ (indent ++ gap) ++ join ([44; 10] ++ indent ++ gap) parts
        ++ [10] ++ indent ++ [close])
  = open :: (if isEmpty gap then [] else 10 :: indent ++ gap)
      ++ join (44 :: (if isEmpty gap then [] else 10 :: indent ++ gap)) parts
      ++ (if isEmpty gap then [] else 10 :: indent) ++ [close].
Proof. destruct (isEmpty gap); simpl; by rewrite <- ?app_assoc. Qed.

Lemma ws_newline_indent (b : bool) (ind : list N) :
  forallb JSON.isJsonWs ind = true ->
  forallb JSON.isJsonWs (if b then [] else 10 :: ind) = true.
Proof. by destruct b. Qed.

Lemma serialize_VArr (gap indent : list N) (items : list jsval) :
  JSON.serialize gap indent (VArr items) =
  Some (let partial :=
          map (fun x => default (js "null") (JSON.serialize gap (indent ++ gap) x))
              items in
        if isEmpty partial then js "[]"
        else if isEmpty gap then [91] ++ join [44] partial ++ [93]
        else [91; 10] ++ (indent ++ gap)
             ++ join ([44; 10] ++ indent ++ gap) partial ++ [10] ++ indent ++ [93]).
Proof. reflexivity. Qed.

Lemma serialize_VObj (gap indent : list N) (props : list (list N * jsval)) :
  JSON.serialize gap indent (VObj props) =
  Some (let partial :=
          JSON.memberTexts (JSON.serialize gap (indent ++ gap))
            (if isEmpty gap then [] else [32]) props in
        if isEmpty partial then js "{}"
        else if isEmpty gap then [123] ++ join [44] partial ++ [125]
        else [123; 10] ++ (indent ++ gap)
             ++ join ([44; 10] ++ indent ++ gap) partial ++ [10] ++ indent ++ [125]).
Proof. reflexivity. Qed.

Lemma serialize_reads (v : jsval) :
  wellFormed v = true -> allFinite v = true ->
  forall gap indent,
    forallb JSON.isJsonWs gap = true -> forallb JSON.isJsonWs indent = true ->
    exists text, JSON.serialize gap indent v = Some text /\ reads v text.
Proof.
  induction v as [| |b|x|s|items IH|props IH] using jsval_induction;
    intros Hwf Hfin gap indent Hgap Hindent.
  - done.
  - exists (js "null"). split; [done|].
    destruct js_literals as (E & _). rewrite E. split; [done|].
    intros [|f] rest Hf Hr; [simpl in Hf; lia|].
    rewrite parse_value_S. destruct js_literals as (_ & -> & -> & _). by rewrite E.
  - destruct b.
    + exists (js "true"). split; [done|].
      destruct js_literals as (_ & E & _). rewrite E. split; [done|].
      intros [|f] rest Hf Hr; [simpl in Hf; lia|].
      rewrite parse_value_S. by rewrite E.
    + exists (js "false"). split; [done|].
      destruct js_literals as (_ & _ & E & _). rewrite E. split; [done|].
      intros [|f] rest Hf Hr; [simpl in Hf; lia|].
      rewrite parse_value_S. destruct js_literals as (_ & -> & _). by rewrite E.
  - simpl in Hwf, Hfin. exists (NumberToString x). split; [simpl; by rewrite Hfin|].
    destruct (NumberToString_head x Hwf Hfin) as (c & r & E & Hc).
    split.
    + rewrite E. unfold startsValue. apply negb_true_iff.
      assert (Hrange : c = 45 \/ (48 <= c /\ c <= 57)).
      { destruct Hc as [Hc|Hc]; [by left | right].
        unfold isDigit in Hc. apply andb_true_iff in Hc. rewrite !N.leb_le in Hc. lia. }
      unfold JSON.isJsonWs. rewrite !orb_false_iff, !N.eqb_neq. lia.
    + intros [|f] rest Hf Hr; [simpl in Hf; lia|].
      pose proof (parse_number_NumberToString x rest Hwf Hfin Hr) as Hp.
      rewrite E in Hp |- *. simpl app in Hp |- *.
      by rewrite parse_value_number, Hp.
  - exists (JSON.quote s). split; [done|]. split; [done|].
    intros [|f] rest Hf Hr; [simpl in Hf; lia|].
    destruct (parse_string_quote s rest) as (q & -> & Hq).
    rewrite parse_value_S. simpl. by rewrite Hq.
  - (* arrays *)
    simpl in Hwf, Hfin.
    assert (Hitems : Forall (fun x => exists t,
              JSON.serialize gap (indent ++ gap) x = Some t /\ reads x t) items).
    { eapply forallb_Forall_wf; [|exact Hwf|exact Hfin].
      eapply Forall_impl; [exact IH|]. intros x Hx Hw Hf.
      apply Hx; [done | done | done |]. by rewrite forallb_app, Hindent, Hgap. }
    destruct (array_texts _ _ Hitems) as (texts & Etexts & Hreads).
    rewrite serialize_VArr. cbv zeta. rewrite Etexts.
    eexists. split; [reflexivity|].
    destruct Hreads as [|x t items texts Hx Hreads].
    + destruct js_literals as (_ & _ & _ & E & _). simpl isEmpty. cbv iota.
      rewrite E. split; [done|].
      intros [|f] rest Hf Hr; [simpl in Hf; lia|]. by rewrite parse_value_S.
    + simpl isEmpty. cbv iota. rewrite bracketed.
      set (wsI := if isEmpty gap then [] else 10 :: indent ++ gap).
      set (wsE := if isEmpty gap then [] else 10 :: indent).
      assert (HwsI : forallb JSON.isJsonWs wsI = true).
      { apply ws_newline_indent. by rewrite forallb_app, Hindent, Hgap. }
      assert (HwsE : forallb JSON.isJsonWs wsE = true) by by apply ws_newline_indent.
      split; [done|].
      intros [|f] rest Hf Hr; [simpl in Hf; lia|].
      rewrite parse_value_S.
      change (JSON.skip_ws ((91 :: ?l) ++ rest)) with (91 :: l ++ rest).
      cbv iota. simpl N.eqb. cbv iota.
      rewrite <- !app_assoc.
      pose proof (parse_elements_join (x :: items) (t :: texts)
                    ltac:(by constructor) ltac:(done) wsI wsE rest f HwsI HwsE) as Hp.
      rewrite skip_ws_ws by done.
      destruct (startsValue_head t (proj1 Hx)) as (c & r & Et & Hcws & _ & Hc93 & _).
      assert (Hj : exists r', join (44 :: wsI) (t :: texts) = c :: r').
      { destruct texts; simpl; rewrite Et; eauto. }
      destruct Hj as (r' & Hj).
      rewrite not_closing_bracket.
      * rewrite parse_elements_ws by done.
        change ([93] ++ rest) with (93 :: rest).
        rewrite Hp; [done|]. simpl in Hf. simpl. lia.
      * rewrite Hj. simpl. by rewrite Hcws.
  - (* objects *)
    simpl in Hwf, Hfin. apply andb_true_iff in Hwf as [Hkeys Hwf].
    set (sp := if isEmpty gap then [] else [32]).
    assert (Hsp : forallb JSON.isJsonWs sp = true) by (subst sp; by destruct (isEmpty gap)).
    assert (Hprops : Forall (fun kv => exists t,
              JSON.serialize gap (indent ++ gap) (snd kv) = Some t
              /\ reads (snd kv) t) props).
    { eapply (forallb_Forall_wf
                (fun kv => match kv with (_, x) => wellFormed x end)
                (fun kv => match kv with (_, x) => allFinite x end));
        [|exact Hwf|exact Hfin].
      eapply Forall_impl; [exact IH|]. intros [k x] Hx Hw Hf.
      apply Hx; [done | done | done |]. by rewrite forallb_app, Hindent, Hgap. }
    destruct (member_texts _ sp _ Hprops) as (texts & Etexts & Hreads).
    rewrite serialize_VObj. cbv zeta. fold sp. rewrite Etexts.
    eexists. split; [reflexivity|].
    destruct Hreads as [|[k x] t props texts Hx Hreads].
    + destruct js_literals as (_ & _ & _ & _ & E). simpl isEmpty. cbv iota.
      rewrite E. split; [done|].
      intros [|f] rest Hf Hr; [simpl in Hf; lia|]. by rewrite parse_value_S.
    + change (isEmpty (zip_with ?g ((k, x) :: props) (t :: texts))) with false.
      cbv iota. rewrite bracketed.
      set (wsI := if isEmpty gap then [] else 10 :: indent ++ gap).
      set (wsE := if isEmpty gap then [] else 10 :: indent).
      assert (HwsI : forallb JSON.isJsonWs wsI = true).
      { apply ws_newline_indent. by rewrite forallb_app, Hindent, Hgap. }
      assert (HwsE : forallb JSON.isJsonWs wsE = true) by by apply ws_newline_indent.
      split; [done|].
      intros [|f] rest Hf Hr; [simpl in Hf; lia|].
      rewrite parse_value_S.
      change (JSON.skip_ws ((123 :: ?l) ++ rest)) with (123 :: l ++ rest).
      cbv iota. simpl N.eqb. cbv iota.
      rewrite <- !app_assoc.
      pose proof (parse_members_join ((k, x) :: props) (t :: texts)
                    ltac:(by constructor) ltac:(done) [] sp wsI wsE rest f
                    Hsp HwsI HwsE Hkeys) as Hp.
      rewrite skip_ws_ws by done.
      match goal with
      | |- context [join (44 :: wsI) ?l] => set (J := join (44 :: wsI) l) in *
      end.
      assert (Hj : exists r', J = 34 :: r').
      { subst J. destruct props, texts; simpl; eauto. }
      destruct Hj as (r' & Hj).
      rewrite not_closing_brace.
      * rewrite parse_members_ws by done.
        change ([125] ++ rest) with (125 :: rest).
        rewrite Hp; [done|]. clear -Hf. simpl in Hf. fuel_lia.
      * rewrite Hj. done.
Qed.

(** ** What [JSON.parse] returns is well formed *)

Lemma stripLeadingZeros_spec (l : list N) :
  exists m, l = repeat 48 m ++ stripLeadingZeros l /\
            match stripLeadingZeros l with
            | [] => True
            | c :: _ => isZeroDigit c = false
            end.
Proof.
  unfold stripLeadingZeros. induction l as [|c l (m & E & H)]; simpl.
  - by exists 0%nat.
  - destruct (isZeroDigit c) eqn:Ec.
    + destruct (span isZeroDigit l) as [a b]. simpl in *.
      exists (S m). apply N.eqb_eq in Ec. subst c. simpl. by rewrite <- E.
    + exists 0%nat. simpl. by rewrite Ec.
Qed.

Lemma forallb_isDigit_app_inv (a b : list N) :
  forallb isDigit (a ++ b) = true -> forallb isDigit b = true.
Proof. rewrite forallb_app. by intros [_ ?]%andb_true_iff. Qed.

Lemma nzhead_head (u : Decimal.uint) :
  match digits_of_uint (Decimal.nzhead u) with
  | [] => True
  | d :: _ => isZeroDigit d = false
  end.
Proof. induction u; simpl; done. Qed.

(** The decimal of a positive integer has no leading zero. *)
Lemma decimal_head (k : N) :
  k <> 0 -> exists d ds, decimal k = d :: ds /\ isZeroDigit d = false.
Proof.
  intros Hk. unfold decimal.
  pose proof (DecimalN.Unsigned.to_of (N.to_uint k)) as E.
  rewrite DecimalN.Unsigned.of_to in E. rewrite E. unfold Decimal.unorm.
  pose proof (nzhead_head (N.to_uint k)) as Hh.
  destruct (Decimal.nzhead (N.to_uint k)) eqn:En; simpl in *; eauto.
  exfalso. apply Hk. rewrite <- (DecimalN.Unsigned.of_to k), E.
  unfold Decimal.unorm. by rewrite En.
Qed.

Lemma strip_trimmed (x : list N) :
  forallb isDigit x = true ->
  match x with d :: _ => isZeroDigit d = false | [] => True end ->
  stripTrailingZeros x = [] /\ x = [] \/
  trimmedDigits (stripTrailingZeros x) = true /\
  exists m, x = stripTrailingZeros x ++ repeat 48 m.
Proof.
  intros Hx Hh. unfold stripTrailingZeros.
  destruct (stripLeadingZeros_spec (rev x)) as (m & E & H).
  set (r := stripLeadingZeros (rev x)) in *.
  apply (f_equal (@rev N)) in E.
  rewrite rev_involutive, rev_app_distr, rev_repeat in E.
  destruct (rev r) as [|d ds] eqn:Er.
  - left. split; [done|]. simpl in E. subst x.
    destruct m as [|m]; [done|]. simpl in Hh. done.
  - right. split; [|by exists m].
    unfold trimmedDigits. rewrite E, forallb_app in Hx.
    apply andb_true_iff in Hx as [-> _]. rewrite E in Hh. cbn [app] in Hh.
    rewrite Hh. rewrite <- Er, rev_involutive.
    destruct r as [|l r']; [done|]. by rewrite H.
Qed.

Lemma forallb_take {A} (p : A -> bool) (k : nat) (l : list A) :
  forallb p l = true -> forallb p (take k l) = true.
Proof.
  revert k. induction l as [|a l IH]; intros [|k] H; simpl in *; try done.
  apply andb_true_iff in H as [-> H]. by apply IH.
Qed.

Lemma binary64_of_decimal_nil (n : Z) : binary64_of_decimal [] n = B64zero.
Proof. done. Qed.

Lemma strip_take_decimal (v : N) (k : nat) :
  stripTrailingZeros (take k (decimal v)) = [] \/
  trimmedDigits (stripTrailingZeros (take k (decimal v))) = true.
Proof.
  destruct (decide (v = 0)) as [-> | Hv].
  - left. destruct k as [|[|k]]; done.
  - destruct (decimal_head v Hv) as (d & l & E & Hd).
    pose proof (decimal_isDigit v) as Hdig.
    destruct (strip_trimmed (take k (decimal v))) as [[H _] | [H _]]; auto.
    + by apply forallb_take.
    + rewrite E. by destruct k.
Qed.

Lemma strip_decimal_succ (s : N) :
  trimmedDigits (stripTrailingZeros (decimal (s + 1))) = true.
Proof.
  assert (Hs : s + 1 <> 0) by lia.
  destruct (decimal_head _ Hs) as (d & l & E & Hd).
  destruct (strip_trimmed (decimal (s + 1))) as [[_ H] | [H _]]; auto.
  - apply decimal_isDigit.
  - by rewrite E.
  - by rewrite E in H.
Qed.

(** What the search returns reads as the double it was asked for. *)
Lemma shortestFrom_spec (fuel k : nat) (m e : Z) (v : N) (n0 : Z)
    (ds' : list N) (n' : Z) :
  shortestFrom fuel k m e (decimal v) n0 = Some (ds', n') ->
  binary64_of_decimal ds' n' = B64finite m e /\ trimmedDigits ds' = true.
Proof.
  revert k. induction fuel as [|fuel IH]; intros k; [done|].
  cbn [shortestFrom]. cbv zeta.
  set (lo' := stripTrailingZeros (take k (decimal v))).
  set (hi' := stripTrailingZeros (decimal (digits_value (take k (decimal v)) + 1))).
  set (nhi := (n0 + _ - _)%Z).
  assert (Hlo : binary64_eqb (binary64_of_decimal lo' n0) (B64finite m e) = true ->
                binary64_of_decimal lo' n0 = B64finite m e /\ trimmedDigits lo' = true).
  { intros H. apply binary64_eqb_eq in H. split; [done|].
    destruct (strip_take_decimal v k) as [E | E]; [|done].
    fold lo' in E. by rewrite E in H. }
  assert (Hhi : binary64_eqb (binary64_of_decimal hi' nhi) (B64finite m e) = true ->
                binary64_of_decimal hi' nhi = B64finite m e /\ trimmedDigits hi' = true).
  { intros H. apply binary64_eqb_eq in H. split; [done|]. apply strip_decimal_succ. }
  destruct (binary64_eqb (binary64_of_decimal lo' n0) (B64finite m e)) eqn:Elo;
    destruct (binary64_eqb (binary64_of_decimal hi' nhi) (B64finite m e)) eqn:Ehi;
    cbn [andb].
  - destruct (_ || _); intros [= <- <-]; auto.
  - intros [= <- <-]; auto.
  - intros [= <- <-]; auto.
  - apply IH.
Qed.

Lemma shortest_spec (m e : Z) (ds' : list N) (n' : Z) :
  shortest m e = Some (ds', n') ->
  binary64_of_decimal ds' n' = B64finite m e /\ trimmedDigits ds' = true.
Proof.
  unfold shortest, exactDecimal.
  destruct (0 <=? e)%Z; apply shortestFrom_spec.
Qed.

Lemma trimmedDigits_cons (ds : list N) :
  trimmedDigits ds = true -> exists d l, ds = d :: l.
Proof. destruct ds as [|d l]; [done | eauto]. Qed.

(** A number read from a decimal is one of the numbers that are printed. *)
Lemma number_of_decimal_canonical (neg : bool) (ds : list N) (n : Z) :
  ds = [] \/ trimmedDigits ds = true ->
  canonical (number_of_decimal neg ds n) = true.
Proof.
  intros Hds. unfold number_of_decimal.
  destruct (binary64_of_decimal ds n) as [|m e|] eqn:Eb; [done| |done].
  destruct (shortest m e) as [[ds' n']|] eqn:Es.
  - destruct (shortest_spec _ _ _ _ Es) as [Hv Ht].
    destruct (trimmedDigits_cons _ Ht) as (d & l & ->).
    unfold canonical. unfold trimmedDigits in Ht. cbn [negb] in Ht.
    rewrite Ht. cbn [andb]. apply number_eqb_eq.
    unfold number_of_decimal. by rewrite Hv, Es.
  - destruct Hds as [-> | Ht]; [by rewrite binary64_of_decimal_nil in Eb|].
    destruct (trimmedDigits_cons _ Ht) as (d & l & ->).
    unfold canonical. unfold trimmedDigits in Ht.
    rewrite Ht. cbn [andb]. apply number_eqb_eq.
    unfold number_of_decimal. by rewrite Eb, Es.
Qed.

Lemma number_of_literal_is_canonical (neg : bool) (ip fp : list N) (e : Z) :
  forallb isDigit ip = true -> forallb isDigit fp = true ->
  canonical (number_of_literal neg ip fp e) = true.
Proof.
  intros Hip Hfp. unfold number_of_literal, decimal_of_literal.
  apply number_of_decimal_canonical.
  set (all := ip ++ fp).
  assert (Hall : forallb isDigit all = true)
    by (subst all; by rewrite forallb_app, Hip, Hfp).
  destruct (stripLeadingZeros_spec all) as (m & E1 & H1).
  set (ds1 := stripLeadingZeros all) in *.
  assert (Hds1 : forallb isDigit ds1 = true).
  { rewrite E1 in Hall. by apply forallb_isDigit_app_inv in Hall. }
  destruct (strip_trimmed ds1 Hds1) as [[H _] | [H _]]; auto.
Qed.

Lemma span_isDigit_fst (s : list N) : forallb isDigit (fst (span isDigit s)) = true.
Proof. apply span_forallb. Qed.

Lemma parse_fraction_digits (s2 fp s3 : list N) :
  parse_fraction s2 = Some (fp, s3) -> forallb isDigit fp = true.
Proof.
  unfold parse_fraction. destruct s2 as [|c r0]; [by intros [= <- _]|].
  destruct c as [|p]; [by intros [= <- _]|].
  do 6 (destruct p as [p|p|]; try by intros [= <- _]).
  pose proof (span_isDigit_fst r0) as Hf.
  destruct (span isDigit r0) as [fp' r']. simpl in Hf.
  destruct (isEmpty fp'); [done|]. by intros [= <- _].
Qed.

Lemma parse_unsigned_canonical (neg : bool) (s : list N) (x : number) (r : list N) :
  parse_unsigned neg s = Some (x, r) -> canonical x = true.
Proof.
  unfold parse_unsigned. pose proof (span_isDigit_fst s) as Hip.
  destruct (span isDigit s) as [ip s2]. simpl in Hip.
  destruct ip as [|d more]; [done|].
  destruct ((d =? 48) && negb (isEmpty more)); [done|].
  destruct (parse_fraction s2) as [[fp s3]|] eqn:Ef; [|done].
  apply parse_fraction_digits in Ef.
  destruct (parse_exponent s3) as [[e s4]|]; [|done].
  intros [= <- _]. by apply number_of_literal_is_canonical.
Qed.

Lemma parse_number_canonical (s : list N) (x : number) (r : list N) :
  parse_number s = Some (x, r) -> canonical x = true.
Proof.
  unfold parse_number. destruct s as [|c s']; [apply parse_unsigned_canonical|].
  destruct c as [|p]; [apply parse_unsigned_canonical|].
  do 6 (destruct p as [p|p|]; try apply parse_unsigned_canonical).
Qed.

Lemma goesBefore_asym (k k' : list N) :
  JSON.goesBefore k k' = true -> JSON.goesBefore k' k = false.
Proof.
  unfold JSON.goesBefore.
  destruct (JSON.arrayIndex k) as [i|], (JSON.arrayIndex k') as [j|]; try done.
  rewrite N.ltb_lt, N.ltb_ge. lia.
Qed.

Lemma goesBefore_behind (k k' k'' : list N) :
  JSON.goesBefore k k' = true -> JSON.goesBefore k'' k' = false ->
  JSON.goesBefore k'' k = false.
Proof.
  unfold JSON.goesBefore.
  destruct (JSON.arrayIndex k) as [i|], (JSON.arrayIndex k') as [j|],
    (JSON.arrayIndex k'') as [l|]; try done.
  rewrite N.ltb_lt, !N.ltb_ge. lia.
Qed.

Lemma sameKey_sym (k k' : list N) : JSON.sameKey k k' = JSON.sameKey k' k.
Proof. unfold JSON.sameKey. apply bool_decide_ext. split; congruence. Qed.

Lemma sameKey_true (k k' : list N) : JSON.sameKey k k' = true -> k = k'.
Proof. unfold JSON.sameKey. apply bool_decide_eq_true_1. Qed.

Lemma keysOrdered_cons (k0 : list N) (rest : list (list N)) :
  keysOrdered (k0 :: rest) = true <->
  Forall (behind k0) rest /\ keysOrdered rest = true.
Proof.
  simpl. rewrite andb_true_iff, forallb_forall, Forall_forall.
  unfold behind. split; intros [H1 H2]; (split; [|done]); intros k' Hk'.
  - apply list_elem_of_In in Hk'.
    specialize (H1 k' Hk'). apply andb_true_iff in H1 as [Ha Hb].
    by apply negb_true_iff in Ha, Hb.
  - apply list_elem_of_In in Hk'. destruct (H1 k' Hk') as [-> ->]. done.
Qed.

Lemma defineProperty_keys (k : list N) (v : jsval) (props : list (list N * jsval)) :
  forall k', In k' (map fst (JSON.defineProperty k v props)) ->
             k' = k \/ In k' (map fst props).
Proof.
  induction props as [|[k0 v0] props IH]; simpl; intros k' Hk'.
  - destruct Hk' as [<-|[]]. by left.
  - destruct (JSON.sameKey k k0) eqn:Es; [|destruct (JSON.goesBefore k k0)].
    + apply sameKey_true in Es. subst k0. simpl in Hk'. tauto.
    + simpl in Hk'. destruct Hk' as [<-|Hk']; [by left | by right].
    + simpl in Hk'. destruct Hk' as [<-|Hk']; [right; by left|].
      destruct (IH _ Hk'); [by left | right; by right].
Qed.

Lemma defineProperty_keysOrdered (k : list N) (v : jsval)
    (props : list (list N * jsval)) :
  keysOrdered (map fst props) = true ->
  keysOrdered (map fst (JSON.defineProperty k v props)) = true.
Proof.
  induction props as [|[k0 v0] props IH]; [done|].
  cbn [map fst]. intros H. apply keysOrdered_cons in H as [Hb Ho].
  cbn [JSON.defineProperty].
  destruct (JSON.sameKey k k0) eqn:Es; [|destruct (JSON.goesBefore k k0) eqn:Eg].
  - apply sameKey_true in Es. subst k0. cbn [map fst]. by apply keysOrdered_cons.
  - cbn [map fst]. apply keysOrdered_cons. split; [|by apply keysOrdered_cons].
    constructor.
    + split; [by rewrite sameKey_sym | by apply goesBefore_asym].
    + eapply Forall_impl; [exact Hb|]. intros k' [Hs Hg]. split.
      * unfold JSON.sameKey. apply bool_decide_eq_false_2. intros ->. congruence.
      * by eapply goesBefore_behind.
  - cbn [map fst]. apply keysOrdered_cons. split; [|by apply IH].
    apply Forall_forall. intros k' Hk'.
    apply list_elem_of_In, defineProperty_keys in Hk' as [->|Hk'].
    + by split.
    + rewrite Forall_forall in Hb. by apply Hb, list_elem_of_In.
Qed.

Lemma defineProperty_wellFormed (k : list N) (v : jsval)
    (props : list (list N * jsval)) :
  wellFormed v = true ->
  forallb (fun kv => match kv with (_, x) => wellFormed x end) props = true ->
  forallb (fun kv => match kv with (_, x) => wellFormed x end)
          (JSON.defineProperty k v props) = true.
Proof.
  intros Hv. induction props as [|[k0 v0] props IH]; simpl; [by rewrite Hv|].
  intros H. apply andb_true_iff in H as [H0 H].
  destruct (JSON.sameKey k k0); [|destruct (JSON.goesBefore k k0)]; simpl.
  - by rewrite Hv.
  - by rewrite Hv, H0.
  - by rewrite H0, IH.
Qed.

Lemma match_lit_34 {T} (s : list N) (a : list N -> option T) (x : T) :
  match s with 34 :: r => a r | _ => None end = Some x ->
  exists r, s = 34 :: r /\ a r = Some x.
Proof.
  destruct s as [|c r]; [done|]. destruct c as [|p]; [done|].
  do 6 (destruct p as [p|p|]; try done). eauto.
Qed.

Lemma match_lit_58 {T} (s : list N) (a : list N -> option T) (x : T) :
  match s with 58 :: r => a r | _ => None end = Some x ->
  exists r, s = 58 :: r /\ a r = Some x.
Proof.
  destruct s as [|c r]; [done|]. destruct c as [|p]; [done|].
  do 6 (destruct p as [p|p|]; try done). eauto.
Qed.

Lemma match_lit_125 {T} (s : list N) (a : list N -> T) (b : T) :
  (exists r, s = 125 :: r /\ match s with 125 :: r' => a r' | _ => b end = a r) \/
  match s with 125 :: r' => a r' | _ => b end = b.
Proof.
  destruct s as [|c r]; [by right|]. destruct c as [|p]; [by right|].
  do 7 (destruct p as [p|p|]; try by right). left. eauto.
Qed.

Lemma match_lit_93 {T} (s : list N) (a : list N -> T) (b : T) :
  (exists r, s = 93 :: r /\ match s with 93 :: r' => a r' | _ => b end = a r) \/
  match s with 93 :: r' => a r' | _ => b end = b.
Proof.
  destruct s as [|c r]; [by right|]. destruct c as [|p]; [by right|].
  do 7 (destruct p as [p|p|]; try by right). left. eauto.
Qed.

Lemma parse_wellFormed (fuel : nat) :
  (forall s v r, JSON.parse_value fuel s = Some (v, r) -> wellFormed v = true) /\
  (forall s vs r, JSON.parse_elements fuel s = Some (vs, r) ->
                  forallb wellFormed vs = true) /\
  (forall acc s props r, wfProps acc ->
     JSON.parse_members fuel acc s = Some (props, r) -> wfProps props).
Proof.
  induction fuel as [|f (IHv & IHe & IHm)]; [done|].
  split; [|split].
  - intros s v r. rewrite parse_value_S.
    destruct (JSON.skip_ws s) as [|c r0]; [done|].
    destruct (c =? 123).
    { destruct (match_lit_125 (JSON.skip_ws r0) (fun r' => Some (VObj [], r'))
                  (match JSON.parse_members f [] r0 with
                   | Some (props, r') => Some (VObj props, r')
                   | None => None
                   end)) as [(r1 & _ & ->) | ->].
      - by intros [= <- _].
      - destruct (JSON.parse_members f [] r0) as [[props r']|] eqn:E; [|done].
        intros [= <- _]. apply IHm in E as [H1 H2]; [|done].
        simpl. by rewrite H1, H2. }
    destruct (c =? 91).
    { destruct (match_lit_93 (JSON.skip_ws r0) (fun r' => Some (VArr [], r'))
                  (match JSON.parse_elements f r0 with
                   | Some (items, r') => Some (VArr items, r')
                   | None => None
                   end)) as [(r1 & _ & ->) | ->].
      - by intros [= <- _].
      - destruct (JSON.parse_elements f r0) as [[items r']|] eqn:E; [|done].
        intros [= <- _]. by apply IHe in E. }
    destruct (c =? 34).
    { destruct (JSON.parse_string r0) as [[t r']|]; [|done]. by intros [= <- _]. }
    destruct (startsWith (c :: r0) (js "true")); [by intros [= <- _]|].
    destruct (startsWith (c :: r0) (js "false")); [by intros [= <- _]|].
    destruct (startsWith (c :: r0) (js "null")); [by intros [= <- _]|].
    destruct (parse_number (c :: r0)) as [[x r']|] eqn:E; [|done].
    intros [= <- _]. by apply parse_number_canonical in E.
  - intros s vs r. rewrite parse_elements_S.
    destruct (JSON.parse_value f s) as [[v r0]|] eqn:Ev; [|done].
    apply IHv in Ev.
    destruct (JSON.skip_ws r0) as [|c r1]; [done|].
    destruct (c =? 44).
    { destruct (JSON.parse_elements f r1) as [[vs' r2]|] eqn:Ee; [|done].
      intros [= <- _]. apply IHe in Ee. simpl. by rewrite Ev, Ee. }
    destruct (c =? 93); [|done]. intros [= <- _]. simpl. by rewrite Ev.
  - intros acc s props r Hacc. rewrite parse_members_S. intros H.
    apply match_lit_34 in H as (r0 & _ & H).
    destruct (JSON.parse_string r0) as [[k r1]|]; [|done].
    apply match_lit_58 in H as (r2 & _ & H).
    destruct (JSON.parse_value f r2) as [[v r3]|] eqn:Ev; [|done].
    apply IHv in Ev. cbv zeta in H.
    assert (Hacc' : wfProps (JSON.defineProperty k v acc)).
    { destruct Hacc as [H1 H2]. split.
      - by apply defineProperty_keysOrdered.
      - by apply defineProperty_wellFormed. }
    destruct (JSON.skip_ws r3) as [|c r4]; [done|].
    destruct (c =? 44); [by apply IHm in H|].
    destruct (c =? 125); [|done]. by injection H as <- _.
Qed.

Lemma parse_is_wellFormed (text : list N) (v : jsval) :
  JSON.parse text = Some v -> wellFormed v = true.
Proof.
  unfold JSON.parse.
  destruct (JSON.parse_value _ text) as [[v' r]|] eqn:E; [|done].
  destruct (isEmpty (JSON.skip_ws r)); [|done]. intros [= <-].
  by apply (proj1 (parse_wellFormed _)) in E.
Qed.

(** ** The fuel [JSON.parse] gives is enough *)

Lemma join_length_bound (sep : list N) (sizes : list nat) (texts : list (list N)) :
  sep <> [] ->
  Forall2 (fun n t => (n <= length t)%nat) sizes texts ->
  Nat.le (list_sum (map S sizes)) (S (length (join sep texts))).
Proof.
  intros Hsep. assert (Hs : (1 <= length sep)%nat) by (destruct sep; [done | simpl; lia]).
  induction 1 as [|n t sizes texts Hn Hrest IH]; [simpl; lia|].
  destruct Hrest as [|n2 t2 sizes texts Hn2 Hrest].
  - simpl. lia.
  - change (join sep (t :: t2 :: texts)) with (t ++ sep ++ join sep (t2 :: texts)).
    rewrite !length_app. simpl list_sum in *. lia.
Qed.

Lemma serialize_some (gap indent : list N) (v : jsval) :
  wellFormed v = true -> exists t, JSON.serialize gap indent v = Some t.
Proof. destruct v as [| |[]| | | |]; try done; intros _; simpl; eauto. Qed.

Lemma bracketed_length (gap indent : list N) (open close : N)
    (parts : list (list N)) (n : nat) :
  Nat.le n
    (S (length (join (44 :: (if isEmpty gap then [] else 10 :: indent ++ gap)) parts))) ->
  Nat.le (S n)
    (length
       (if isEmpty gap then [open] ++ join [44] parts ++ [close]
        else [open; 10] ++ (indent ++ gap)
             ++ join ([44; 10] ++ indent ++ gap) parts ++ [10] ++ indent ++ [close])).
Proof.
  rewrite bracketed. simpl length. rewrite !length_app. simpl length. lia.
Qed.

Lemma memberTexts_cons (ser : jsval -> option (list N)) (sp k : list N)
    (x : jsval) (rest : list (list N * jsval)) :
  JSON.memberTexts ser sp ((k, x) :: rest) =
  match ser x with
  | Some sx => (JSON.quote k ++ [58] ++ sp ++ sx) :: JSON.memberTexts ser sp rest
  | None => JSON.memberTexts ser sp rest
  end.
Proof. reflexivity. Qed.

Lemma serialize_length (v : jsval) :
  wellFormed v = true ->
  forall gap indent text,
    JSON.serialize gap indent v = Some text -> (size v <= length text)%nat.
Proof.
  induction v as [| |b|x|s|items IH|props IH] using jsval_induction;
    intros Hwf gap indent text.
  - done.
  - intros [= <-]. rewrite js_length. simpl. lia.
  - destruct b; intros [= <-]; rewrite js_length; simpl; lia.
  - simpl. intros [= <-].
    destruct (isFinite x) eqn:Hf; [|rewrite js_length; simpl; lia].
    destruct (NumberToString_head x Hwf Hf) as (c & r & -> & _). simpl. lia.
  - intros [= <-]. unfold JSON.quote. rewrite !length_app. simpl. lia.
  - rewrite serialize_VArr. cbv zeta. intros [= <-]. simpl in Hwf.
    set (partial := map _ items).
    assert (Hsizes : Forall2 (fun n t => (n <= length t)%nat) (map size items) partial).
    { subst partial. clear -IH Hwf. induction IH as [|x items Hx _ IHl]; [constructor|].
      simpl in Hwf. apply andb_true_iff in Hwf as [Hw Hwf].
      destruct (serialize_some gap (indent ++ gap) x Hw) as (t & Et).
      simpl. rewrite Et. constructor; [by eapply Hx | by apply IHl]. }
    destruct items as [|x items]; [simpl; rewrite js_length; simpl; lia|].
    change (isEmpty partial) with false. cbv iota.
    simpl size. apply bracketed_length.
    apply (join_length_bound
             (44 :: (if isEmpty gap then [] else 10 :: indent ++ gap))) in Hsizes;
      [|done].
    rewrite map_map in Hsizes. exact Hsizes.
  - rewrite serialize_VObj. cbv zeta. intros [= <-]. simpl in Hwf.
    apply andb_true_iff in Hwf as [_ Hwf].
    set (sp := if isEmpty gap then [] else [32]).
    set (partial := JSON.memberTexts _ sp props).
    assert (Hsizes : Forall2 (fun n t => (n <= length t)%nat)
                       (map (fun kv => size (snd kv)) props) partial).
    { subst partial. clear -IH Hwf. induction IH as [|[k x] props Hx _ IHl]; [constructor|].
      simpl in Hwf. apply andb_true_iff in Hwf as [Hw Hwf].
      destruct (serialize_some gap (indent ++ gap) x Hw) as (t & Et).
      rewrite memberTexts_cons, Et. cbn [map snd]. constructor; [|by apply IHl].
      rewrite !length_app. specialize (Hx Hw _ _ _ Et). simpl in Hx. lia. }
    destruct props as [|[k x] props]; [simpl; rewrite js_length; simpl; lia|].
    assert (Hne : isEmpty partial = false).
    { inversion Hsizes; subst. done. }
    rewrite Hne. apply bracketed_length.
    apply (join_length_bound
             (44 :: (if isEmpty gap then [] else 10 :: indent ++ gap))) in Hsizes;
      [|done].
    rewrite map_map in Hsizes.
    etrans; [|exact Hsizes]. clear. apply Nat.eq_le_incl. f_equal.
    apply map_ext. by intros [k' x'].
Qed.

Lemma nullify_wellFormed (v : jsval) :
  wellFormed v = true ->
  wellFormed (nullify v) = true /\ allFinite (nullify v) = true /\
  forall gap indent,
    JSON.serialize gap indent (nullify v) = JSON.serialize gap indent v.
Proof.
  induction v as [| |b|x|s|items IH|props IH] using jsval_induction; intros Hwf;
    try done.
  - simpl. destruct (isFinite x) eqn:Hf; simpl; by rewrite ?Hf.
  - simpl in Hwf.
    assert (H : forallb wellFormed (map nullify items) = true
                /\ forallb allFinite (map nullify items) = true
                /\ forall gap indent,
                     map (fun x => default (js "null") (JSON.serialize gap indent x))
                         (map nullify items)
                     = map (fun x => default (js "null") (JSON.serialize gap indent x))
                         items).
    { induction IH as [|x items Hx _ IHl]; [done|].
      simpl in Hwf. apply andb_true_iff in Hwf as [Hw Hwf].
      destruct (Hx Hw) as (H1 & H2 & H3). destruct (IHl Hwf) as (H4 & H5 & H6).
      simpl. rewrite H1, H2, H4, H5. repeat split; try done.
      intros gap indent. by rewrite H3, H6. }
    destruct H as (H1 & H2 & H3). repeat split; try done.
    intros gap indent. simpl nullify. rewrite !serialize_VArr. cbv zeta. by rewrite H3.
  - simpl in Hwf. apply andb_true_iff in Hwf as [Hkeys Hwf].
    set (nl := map (fun kv => match kv with (k, x) => (k, nullify x) end) props).
    assert (H : map fst nl = map fst props
                /\ forallb (fun kv => match kv with (_, x) => wellFormed x end) nl = true
                /\ forallb (fun kv => match kv with (_, x) => allFinite x end) nl = true
                /\ forall gap indent sp,
                     JSON.memberTexts (JSON.serialize gap indent) sp nl
                     = JSON.memberTexts (JSON.serialize gap indent) sp props).
    { subst nl. induction IH as [|[k x] props Hx _ IHl]; [done|].
      simpl in Hwf, Hkeys, Hx. apply andb_true_iff in Hwf as [Hw Hwf].
      apply andb_true_iff in Hkeys as [_ Hkeys].
      destruct (Hx Hw) as (H1 & H2 & H3).
      destruct (IHl Hkeys Hwf) as (H4 & H5 & H6 & H7).
      simpl. rewrite H1, H2, H4, H5, H6. repeat split; try done.
      intros gap indent sp. by rewrite H3, H7. }
    destruct H as (H1 & H2 & H3 & H4). simpl nullify. fold nl. repeat split.
    + simpl. by rewrite H1, Hkeys, H2.
    + done.
    + intros gap indent. rewrite !serialize_VObj. cbv zeta. by rewrite H4.
Qed.

Lemma nullify_finite (v : jsval) : allFinite v = true -> nullify v = v.
Proof.
  induction v as [| |b|x|s|items IH|props IH] using jsval_induction; intros Hf;
    try done.
  - simpl in *. by rewrite Hf.
  - simpl in *. f_equal. induction IH as [|x items Hx _ IHl]; [done|].
    simpl in Hf. apply andb_true_iff in Hf as [H1 H2]. simpl.
    by rewrite Hx, IHl.
  - simpl in *. f_equal. induction IH as [|[k x] props Hx _ IHl]; [done|].
    simpl in Hf. apply andb_true_iff in Hf as [H1 H2]. simpl in *.
    by rewrite Hx, IHl.
Qed.

(** The round trip: what [JSON.stringify] prints for a value that
    [JSON.parse] can return and that holds no infinity reads back as that
    value. *)
Lemma parse_serialize (v : jsval) (gap : list N) (text : list N) :
  wellFormed v = true -> allFinite v = true ->
  forallb JSON.isJsonWs gap = true ->
  JSON.serialize gap [] v = Some text ->
  JSON.parse text = Some v.
Proof.
  intros Hwf Hfin Hgap Htext.
  destruct (serialize_reads v Hwf Hfin gap [] Hgap eq_refl) as (t & Et & _ & Hr).
  rewrite Htext in Et. injection Et as <-.
  unfold JSON.parse.
  specialize (Hr (S (length text)) [] ltac:(apply serialize_length in Htext; [lia | done])
                 eq_refl).
  rewrite app_nil_r in Hr. by rewrite Hr.
Qed.

(** ** A text that parses is not blank *)

Lemma trimStart_nil (s : list N) : trimStart s = [] -> forallb isWhiteSpace s = true.
Proof.
  induction s as [|c s IH]; simpl; [done|].
  destruct (isWhiteSpace c); [by apply IH | done].
Qed.

Lemma trimStart_head (s : list N) :
  match trimStart s with c :: _ => isWhiteSpace c = false | [] => True end.
Proof.
  induction s as [|c s IH]; simpl; [done|].
  destruct (isWhiteSpace c) eqn:E; [done | by rewrite E].
Qed.

Lemma forallb_rev {A} (p : A -> bool) (l : list A) :
  forallb p (rev l) = forallb p l.
Proof.
  induction l as [|a l IH]; simpl; [done|].
  rewrite forallb_app, IH. simpl. rewrite andb_true_r. apply andb_comm.
Qed.

Lemma trim_nil (s : list N) : trim s = [] -> forallb isWhiteSpace s = true.
Proof.
  unfold trim, trimEnd. intros H.
  apply (f_equal (@rev N)) in H. rewrite rev_involutive in H. simpl in H.
  apply trimStart_nil in H. rewrite forallb_rev in H.
  pose proof (trimStart_head s) as Hh.
  destruct (trimStart s) as [|c r] eqn:E; [by apply trimStart_nil|].
  simpl in H. by rewrite Hh in H.
Qed.

Lemma skip_ws_suffix (p : N -> bool) (s : list N) :
  forallb p s = true -> forallb p (JSON.skip_ws s) = true.
Proof.
  induction s as [|c s IH]; simpl; [done|].
  intros H. destruct (JSON.isJsonWs c); [|done].
  apply andb_true_iff in H as [_ H]. by apply IH.
Qed.

Lemma parse_value_blank (fuel : nat) (s : list N) :
  forallb isWhiteSpace s = true -> JSON.parse_value fuel s = None.
Proof.
  intros H. destruct fuel as [|f]; [done|]. rewrite parse_value_S.
  apply (skip_ws_suffix isWhiteSpace) in H.
  destruct (JSON.skip_ws s) as [|c r]; [done|].
  simpl in H. apply andb_true_iff in H as [Hc _].
  assert (Hr : c = 9 \/ c = 10 \/ c = 11 \/ c = 12 \/ c = 13 \/ c = 32 \/ 160 <= c).
  { unfold isWhiteSpace in Hc.
    rewrite !orb_true_iff, !andb_true_iff, !N.eqb_eq, !N.leb_le in Hc. lia. }
  destruct (N.eqb_spec c 123); [lia|]. destruct (N.eqb_spec c 91); [lia|].
  destruct (N.eqb_spec c 34); [lia|].
  destruct js_literals as (-> & -> & -> & _). cbn [startsWith].
  destruct (N.eqb_spec 116 c); [lia|]. destruct (N.eqb_spec 102 c); [lia|].
  destruct (N.eqb_spec 110 c); [lia|]. cbn [andb].
  rewrite parse_number_not_minus by lia.
  unfold parse_unsigned. cbn [span].
  assert (Hd : isDigit c = false).
  { unfold isDigit. rewrite andb_false_iff, !N.leb_gt. lia. }
  by rewrite Hd.
Qed.

Lemma parse_not_blank (s : list N) (v : jsval) :
  JSON.parse s = Some v -> isEmpty (trim s) = false.
Proof.
  intros H. destruct (trim s) eqn:E; [|done].
  apply trim_nil in E. unfold JSON.parse in H.
  by rewrite parse_value_blank in H.
Qed.

(** From here on the texts are not computed. *)
Opaque JSON.parse JSON.stringify JSON.stringify2.

(** ** The handlers *)

Ltac unfold_handler :=
  unfold try_finally, try_catch, bind, set, ret, throw, lift, fetch, json, ok,
    status, JSON_parse.

Lemma checkBackendConnection_run (w : World) (s : Sys) :
  checkBackendConnection w s =
  match w (healthRequest :: sent s) with
  | Response true _ _ =>
    (inr true, mkSys (setConnectionStatus connected (ui s)) (healthRequest :: sent s))
  | _ =>
    (inr false,
     mkSys (setError connectionError (setConnectionStatus disconnected (ui s)))
           (healthRequest :: sent s))
  end.
Proof.
  unfold checkBackendConnection. unfold_handler.
  by destruct (w (healthRequest :: sent s)) as [e | [] st j].
Qed.

Lemma fetchRules_run (w : World) (s : Sys) :
  exists st' later,
    fetchRules w s = (inr tt, mkSys st' (later ++ sent s)) /\
    Forall (fun r => method r = GET) later /\
    listingFrame st' (ui s).
Proof.
  unfold fetchRules. unfold_handler. rewrite checkBackendConnection_run. simpl.
  destruct (w (healthRequest :: sent s)) as [e | [] st j]; simpl.
  - eexists _, [healthRequest]. repeat split. by repeat constructor.
  - destruct (w (listRequest :: healthRequest :: sent s)) as [e | [] st' j']; simpl.
    + eexists _, [listRequest; healthRequest]. repeat split. by repeat constructor.
    + destruct j' as [e | v rs]; simpl.
      * eexists _, [listRequest; healthRequest]. repeat split. by repeat constructor.
      * eexists _, [listRequest; healthRequest]. repeat split. by repeat constructor.
    + eexists _, [listRequest; healthRequest]. repeat split. by repeat constructor.
  - eexists _, [healthRequest]. repeat split. by repeat constructor.
Qed.

Lemma filter_GET (later : list Request) :
  Forall (fun r => method r = GET) later -> filter (fun r => isOperation r = true) later = [].
Proof.
  induction 1 as [|r l Hr _ IH]; [done|].
  rewrite filter_cons_False; [done|]. unfold isOperation. by rewrite Hr.
Qed.

Ltac step_fetchRules :=
  match goal with
  | |- context [fetchRules ?w ?s] =>
    let st' := fresh "st'" in
    let later := fresh "later" in
    let E := fresh "E" in
    let HG := fresh "HG" in
    let HF := fresh "HF" in
    destruct (fetchRules_run w s) as (st' & later & E & HG & HF);
    rewrite E; clear E; simpl in HF
  end.

(** C10: when the backend answers the DELETE with an ok response, deleteRule
    ends normally, [ruleId] is no longer among the selected rules, and every
    other id is selected after the call exactly when it was before. *)
Theorem deleteRule_deselects (ruleId : Z) (w : World) (st : State)
    (code : Z) (answer : JsonResult) :
  w [deleteRequest ruleId] = Response true code answer ->
  fst (run (deleteRule ruleId) w st) = inr tt /\
  (ruleId ∉ selectedRules (ui (snd (run (deleteRule ruleId) w st)))) /\
  (forall id, id <> ruleId ->
     (id ∈ selectedRules (ui (snd (run (deleteRule ruleId) w st))) <->
      id ∈ selectedRules st)).
Proof.
  intros Hw. unfold run, deleteRule. unfold_handler. simpl. rewrite Hw. simpl.
  step_fetchRules. simpl. split; [done|]. split.
  - intros Hin. apply list_elem_of_filter in Hin. by destruct Hin.
  - intros id Hid. rewrite list_elem_of_filter. tauto.
Qed.


Ltac innermost_destruct :=
  match goal with
  | |- context [match ?x with _ => _ end] =>
    lazymatch x with
    | context [match _ with _ => _ end] => fail
    | context [fetchRules] => fail
    | _ => destruct x eqn:?
    end
  end.

Ltac exec := repeat (simpl; first [step_fetchRules | innermost_destruct]); simpl.

Lemma endsWith_one x : endsWith [x] x.
Proof. by exists []. Qed.

Lemma endsWith_cons a l x : endsWith l x -> endsWith (a :: l) x.
Proof. intros [later ->]. by exists (a :: later). Qed.

Lemma endsWith_app l' l x : endsWith l x -> endsWith (l' ++ l) x.
Proof. intros [later ->]. exists (l' ++ later). by rewrite app_assoc. Qed.

Create HintDb trace.
#[local] Hint Resolve endsWith_one endsWith_cons endsWith_app : trace.

Lemma deleteRule_deselects_witness :
  fst (run (deleteRule 2) agreeable (setSelectedRules [1; 2; 3]%Z initialState))
    = inr tt /\
  (2%Z ∉ selectedRules
     (ui (snd (run (deleteRule 2) agreeable
                 (setSelectedRules [1; 2; 3]%Z initialState))))) /\
  (forall id, id <> 2%Z ->
     (id ∈ selectedRules
        (ui (snd (run (deleteRule 2) agreeable
                    (setSelectedRules [1; 2; 3]%Z initialState)))) <->
      id ∈ selectedRules (setSelectedRules [1; 2; 3]%Z initialState))).
Proof.
  exact (deleteRule_deselects 2 agreeable
           (setSelectedRules [1; 2; 3]%Z initialState) 200 _ eq_refl).
Defined.

(** C7: the first request of createRule and of evaluateRule is the health
    check; when its answer is a rejection or is not ok, the handler ends
    having sent nothing else, the error state holds the connection error, and
    the rules list and the stored evaluation results are as they were. *)
Theorem connectivity_check_gates (w : World) (st : State) (ruleId : Z) :
  endsWith (sent (snd (run createRule w st))) healthRequest /\
  endsWith (sent (snd (run (evaluateRule ruleId) w st))) healthRequest /\
  (healthy (w [healthRequest]) = false ->
   fst (run createRule w st) = inr tt /\
   sent (snd (run createRule w st)) = [healthRequest] /\
   error (ui (snd (run createRule w st))) = connectionError /\
   rules (ui (snd (run createRule w st))) = rules st /\
   evaluationResults (ui (snd (run createRule w st))) = evaluationResults st) /\
  (healthy (w [healthRequest]) = false ->
   fst (run (evaluateRule ruleId) w st) = inr tt /\
   sent (snd (run (evaluateRule ruleId) w st)) = [healthRequest] /\
   error (ui (snd (run (evaluateRule ruleId) w st))) = connectionError /\
   rules (ui (snd (run (evaluateRule ruleId) w st))) = rules st /\
   evaluationResults (ui (snd (run (evaluateRule ruleId) w st)))
     = evaluationResults st).
Proof.
  split; [|split; [|split]].
  - unfold run, createRule, detailError. unfold_handler.
    rewrite !checkBackendConnection_run. exec; eauto 10 with trace.
  - unfold run, evaluateRule, detailError, validateJsonData. unfold_handler.
    rewrite !checkBackendConnection_run. exec; eauto 10 with trace.
  - unfold run, createRule. unfold_handler.
    rewrite !checkBackendConnection_run. simpl.
    by destruct (w [healthRequest]) as [e | [] code answer].
  - unfold run, evaluateRule. unfold_handler.
    rewrite !checkBackendConnection_run. simpl.
    by destruct (w [healthRequest]) as [e | [] code answer].
Qed.

Lemma operationsSent_app (ui0 : State) (later l : list Request) :
  Forall (fun r => method r = GET) later ->
  operationsSent (mkSys ui0 (later ++ l)) = filter (fun r => isOperation r = true) l.
Proof.
  intros H. unfold operationsSent. simpl. by rewrite filter_app, filter_GET.
Qed.

Lemma no_operation (l later earlier : list Request) (op : Request) :
  Forall (fun r => method r = GET) l ->
  l = later ++ op :: earlier -> isOperation op = true -> False.
Proof.
  intros H -> Hop. apply Forall_app in H as [_ H].
  apply Forall_cons in H as [H _]. unfold isOperation in Hop. by rewrite H in Hop.
Qed.

(** The one request of a run that is not a GET is its operation. *)
Lemma operation_located (before rest later earlier : list Request)
    (sentOp op : Request) :
  Forall (fun r => method r = GET) before ->
  Forall (fun r => method r = GET) rest ->
  before ++ sentOp :: rest = later ++ op :: earlier -> isOperation op = true ->
  later = before /\ op = sentOp /\ earlier = rest.
Proof.
  intros HB HR. revert later.
  induction before as [|a l IH]; intros later E Hop.
  - destruct later as [|b later]; simpl in E.
    + by injection E as -> ->.
    + injection E as -> E. by destruct (no_operation _ _ _ _ HR E Hop).
  - apply Forall_cons in HB as [Ha HB].
    destruct later as [|b later]; simpl in E; injection E as E1 E.
    + subst a. unfold isOperation in Hop. by rewrite Ha in Hop.
    + subst b. by destruct (IH HB later E Hop) as (-> & -> & ->).
Qed.

Ltac use_answers Hh :=
  repeat match goal with
         | H : ?w ?l = _ |- context [?w ?l] => rewrite H
         | H : ?w ?l = _, H' : context [?w ?l] |- _ => rewrite H in H'
         end.

Ltac rewrite_tests :=
  repeat match goal with
         | H : ?b = true |- context [?b] => rewrite H
         | H : ?b = false |- context [?b] => rewrite H
         | H : ?x = inl _ |- context [?x] => rewrite H
         | H : ?x = inr _ |- context [?x] => rewrite H
         end.

Ltac settle_failure Hf :=
  revert Hf; use_answers Hf; unfold failureOf; simpl; rewrite_tests; simpl;
  rewrite_tests; simpl; intros Hf;
  first [ discriminate Hf
        | injection Hf as <-; split; [done|];
          unfold surfaced; simpl; rewrite_tests; done ].

Ltac finish_failure :=
  let later := fresh "later" in
  let op := fresh "op" in
  let earlier := fresh "earlier" in
  let e := fresh "e" in
  let E := fresh "E" in
  let Hop := fresh "Hop" in
  let Hf := fresh "Hf" in
  intros later op earlier e E Hop Hf;
  repeat match goal with
         | H : negb ?b = _ |- _ => destruct b; simpl in H; try discriminate H; clear H
         end;
  first
    [ exfalso; eapply no_operation; [|exact E|exact Hop]; solve [repeat constructor]
    | match goal with
      | HG : Forall _ ?before |- _ =>
        eapply (operation_located before) in E;
        [|exact HG|solve [repeat constructor]|exact Hop];
        destruct E as (-> & -> & ->); settle_failure Hf
      end
    | eapply (operation_located []) in E;
      [|solve [constructor]|solve [repeat constructor]|exact Hop];
      destruct E as (-> & -> & ->); settle_failure Hf ].

Lemma connectivity_check_gates_witness :
  sent (snd (run createRule unreachable draftState)) = [healthRequest] /\
  error (ui (snd (run createRule unreachable draftState))) = connectionError /\
  sent (snd (run (evaluateRule 4) unreachable draftState)) = [healthRequest] /\
  error (ui (snd (run (evaluateRule 4) unreachable draftState))) = connectionError.
Proof.
  destruct (connectivity_check_gates unreachable draftState 4)
    as (_ & _ & Hcreate & Hevaluate).
  destruct (Hcreate eq_refl) as (_ & H1 & H2 & _).
  destruct (Hevaluate eq_refl) as (_ & H3 & H4 & _).
  exact (conj H1 (conj H2 (conj H3 H4))).
Defined.

Ltac count_operations :=
  rewrite ?operationsSent_app by done; unfold operationsSent; simpl;
  repeat (rewrite filter_cons_True by done
          || rewrite filter_cons_False by done
          || rewrite filter_nil);
  simpl; try lia; try done.

(** X30: whatever the input and whatever the backend answers, each of
    createRule, deleteRule, combineRules, evaluateRule and evaluateBatch ends
    normally (no exception reaches the caller) and sends its operation request
    at most once (no retry).  When the operation is not sent, the error state
    holds a message that is not empty.  When the operation raises an
    exception (its request is rejected, its answer is not ok, or the body of
    the answer cannot be read), no request follows it and the error state
    holds what the [catch] block stores: the message of the thrown [Error], a
    fixed text for another thrown value.  For an answer that is not ok the
    [Error] carries a fixed text, or in createRule and evaluateRule the
    [detail] of the body as a string when it is truthy; when [detail] has no
    string the message is that of the [TypeError] of the conversion. *)
Theorem handlers_end_normally (w : World) (st : State) (ruleId : Z) :
  surfaces true None (js "Failed to create rule") w (run createRule w st) /\
  surfaces false None (js "Failed to delete rule") w
    (run (deleteRule ruleId) w st) /\
  surfaces false None (js "Failed to combine rules") w (run combineRules w st) /\
  surfaces true (Some (js "result")) (js "Failed to evaluate rule") w
    (run (evaluateRule ruleId) w st) /\
  surfaces false (Some (js "results")) (js "Failed to evaluate batch") w
    (run evaluateBatch w st).
Proof.
  split; [|split; [|split; [|split]]].
  - unfold run, createRule, detailError, validateRule. unfold_handler.
    rewrite !checkBackendConnection_run. exec.
    all: split; simpl; eauto.
    all: try count_operations.
    all: finish_failure.
  - unfold run, deleteRule. unfold_handler. exec.
    all: split; simpl; eauto.
    all: try count_operations.
    all: finish_failure.
  - unfold run, combineRules. unfold_handler. exec.
    all: split; simpl; eauto.
    all: try count_operations.
    all: finish_failure.
  - unfold run, evaluateRule, detailError, validateJsonData. unfold_handler.
    rewrite !checkBackendConnection_run. exec.
    all: split; simpl; eauto.
    all: try count_operations.
    all: finish_failure.
  - unfold run, evaluateBatch, validateJsonData. unfold_handler. exec.
    all: split; simpl; eauto.
    all: try count_operations.
    all: finish_failure.
Qed.

(** C6 fails on the code: the backend is up and refuses the creation of a
    valid draft with status 400 and the body [{"detail": []}].  createRule
    ends normally, having sent the health check and the creation, and leaves
    the error state empty: [new Error([])] has the empty message, so no
    message is shown for the failure, and nothing but the connection status
    tells the state after the run from the state before it.  On the body [{}]
    the same run stores the fallback [Failed to create rule]. *)
Lemma refused_creation_left_silent :
  fst (run createRule refusing draftState) = inr tt /\
  sent (snd (run createRule refusing draftState))
    = [createRequest (newRule draftState); healthRequest] /\
  healthy (refusing (sent (snd (run createRule refusing draftState)))) = false /\
  error (ui (snd (run createRule refusing draftState))) = [] /\
  ui (snd (run createRule refusing draftState))
    = setConnectionStatus connected draftState /\
  error (ui (snd (run createRule refusingPlainly draftState)))
    = js "Failed to create rule".
Proof. vm_compute. done. Qed.

Lemma accepted_cases (text : list N) :
  (exists v, accepted text v /\ isEmpty (trim text) = false
             /\ typeofObject v = true /\ isNull v = false) \/
  ((~ exists v, accepted text v) /\
   (isEmpty (trim text) = true \/ JSON.parse text = None \/
    exists v, JSON.parse text = Some v /\ negb (typeofObject v) || isNull v = true)).
Proof.
  destruct (JSON.parse text) as [v|] eqn:E.
  - destruct v; try (right; split;
      [ intros (v' & Hp & [Ha | Ho]); unfold accepted in *;
        rewrite E in Hp; injection Hp as <-; done
      | right; right; eexists; split; [reflexivity | done] ]).
    + left. exists (VArr items). unfold accepted.
      repeat split; try done; [by left | by eapply parse_not_blank].
    + left. exists (VObj props). unfold accepted.
      repeat split; try done; [by right | by eapply parse_not_blank].
  - right. split; [|by right; left].
    intros (v' & Hp & _). congruence.
Qed.

Lemma validateJsonData_run (text : list N) (w : World) (s : Sys) :
  (forall v, accepted text v -> validateJsonData text w s = (inr true, s)) /\
  ((~ exists v, accepted text v) ->
   exists m, m <> [] /\
     validateJsonData text w s = (inr false, mkSys (setError m (ui s)) (sent s))).
Proof.
  unfold validateJsonData. unfold_handler.
  destruct (accepted_cases text) as [(v & Hv & Hb & Ht & Hn) | (Hno & Hcase)].
  - split; [|intros Hno; exfalso; eauto].
    intros v' [Hp' _]. destruct Hv as [Hp _].
    rewrite Hb, Hp. simpl. rewrite Ht, Hn. done.
  - split; [intros v Hv; exfalso; eauto|]. intros _.
    destruct Hcase as [Hb | [Hp | (v & Hp & Hv)]].
    + rewrite Hb. simpl. eexists. split; [|reflexivity]. by apply js_nonempty.
    + destruct (isEmpty (trim text)); simpl.
      * eexists. split; [|reflexivity]. by apply js_nonempty.
      * rewrite Hp. simpl. eexists. split; [|reflexivity]. by apply js_nonempty.
    + destruct (isEmpty (trim text)); simpl.
      * eexists. split; [|reflexivity]. by apply js_nonempty.
      * rewrite Hp. simpl. rewrite Hv. simpl.
        eexists. split; [|reflexivity]. by apply js_nonempty.
Qed.

Lemma connectionError_nonempty : connectionError <> [].
Proof.
  unfold connectionError. intros E. apply app_eq_nil in E as [E _].
  by apply js_nonempty in E.
Qed.

(** C4, as the code has it: [validateJsonData] returns true exactly on the
    texts that parse as JSON to an array or to an object (such a text is not
    blank), and then changes nothing; on every other text it returns false and
    stores a message that is not empty.  In evaluateRule, once the health
    check has passed, the evaluation request is sent (once, with the parsed
    value as its data) exactly on those texts; on the others nothing is sent
    after the health check and the error state holds a message. *)
Theorem validateJsonData_accepts_arrays_and_objects
    (text : list N) (w : World) (s : Sys) (ruleId : Z) (st : State) :
  ((forall v, accepted text v -> validateJsonData text w s = (inr true, s)) /\
   ((~ exists v, accepted text v) ->
    exists m, m <> [] /\
      validateJsonData text w s = (inr false, mkSys (setError m (ui s)) (sent s)))) /\
  (healthy (w [healthRequest]) = true ->
   (forall v, accepted (evaluationData st) v ->
      operationsSent (snd (run (evaluateRule ruleId) w st))
      = [evaluateRequest ruleId v]) /\
   ((~ exists v, accepted (evaluationData st) v) ->
      sent (snd (run (evaluateRule ruleId) w st)) = [healthRequest] /\
      error (ui (snd (run (evaluateRule ruleId) w st))) <> [])).
Proof.
  split; [apply validateJsonData_run|].
  intros Hh. unfold run, evaluateRule. unfold_handler.
  rewrite checkBackendConnection_run. simpl.
  destruct (w [healthRequest]) as [e | [] code answer]; try done. simpl.
  match goal with
  | |- context [validateJsonData ?t ?w ?s] =>
    destruct (validateJsonData_run t w s) as [Hyes Hno]
  end.
  split.
  - intros v Hv. rewrite (Hyes v Hv). destruct Hv as [Hp _]. simpl. rewrite Hp.
    unfold detailError. unfold_handler. exec; count_operations.
  - intros Hv. destruct (Hno Hv) as (m & Hm & ->). simpl. done.
Qed.

(** C5, as the code has it: when the batch text parses as JSON to an array,
    whatever its elements, evaluateBatch sends exactly one request, which
    pairs that array with the ids of the listed rules; when it does not (the
    text is blank, is not JSON, or denotes something else), evaluateBatch ends
    normally having sent nothing, and the error state holds a message. *)
Theorem evaluateBatch_requires_an_array (w : World) (st : State) :
  (forall items,
     JSON.parse (batchData st) = Some (VArr items) ->
     sent (snd (run evaluateBatch w st))
       = [batchRequest (rules st) (VArr items)]) /\
  ((forall items, JSON.parse (batchData st) <> Some (VArr items)) ->
   fst (run evaluateBatch w st) = inr tt /\
   sent (snd (run evaluateBatch w st)) = [] /\
   error (ui (snd (run evaluateBatch w st))) <> []).
Proof.
  unfold run, evaluateBatch. unfold_handler.
  match goal with
  | |- context [validateJsonData ?t ?w ?s] =>
    destruct (validateJsonData_run t w s) as [Hyes Hno]
  end.
  split.
  - intros items Hp.
    rewrite (Hyes (VArr items)) by (split; [done | by left]).
    simpl. rewrite Hp. by exec.
  - intros Hnot.
    destruct (accepted_cases (batchData st)) as [(v & Hv & _) | (Hcase & _)].
    + rewrite (Hyes v Hv). destruct Hv as [Hp [Ha | Ho]].
      * destruct v; try done; try (by destruct (Hnot items)).
      * destruct v; try done. simpl. rewrite Hp. simpl.
        repeat split; try done.
    + destruct (Hno Hcase) as (m & Hm & ->). simpl. done.
Qed.

(** C9, as the code has it: on a text that parses as JSON, formatJsonInput
    replaces it with the text [JSON.stringify(parsed, null, 2)] and clears the
    error; that text parses to the original value with [null] in the place of
    every number beyond the range of a double, hence to the original value
    when it holds no such number; formatting the formatted text leaves it
    identical.  On a text that does not parse, the evaluation data stays as it
    is and the error state holds the format error. *)
Theorem formatJsonInput_keeps_the_value (w : World) (st : State) :
  (forall v,
     JSON.parse (evaluationData st) = Some v ->
     exists text,
       JSON.stringify2 v = Some text /\
       evaluationData (ui (snd (run formatJsonInput w st))) = text /\
       error (ui (snd (run formatJsonInput w st))) = [] /\
       JSON.parse text = Some (nullify v) /\
       (allFinite v = true -> JSON.parse text = Some v) /\
       evaluationData
         (ui (snd (run formatJsonInput w (ui (snd (run formatJsonInput w st))))))
       = text) /\
  (JSON.parse (evaluationData st) = None ->
   evaluationData (ui (snd (run formatJsonInput w st))) = evaluationData st /\
   error (ui (snd (run formatJsonInput w st))) = formatError).
Proof.
  split.
  - intros v Hp. pose proof (parse_is_wellFormed _ _ Hp) as Hwf.
    destruct (nullify_wellFormed v Hwf) as (Hwf' & Hfin' & Hser).
    assert (Htext : exists text, JSON.stringify2 v = Some text).
    { Transparent JSON.stringify2. unfold JSON.stringify2.
      by apply serialize_some. Opaque JSON.stringify2. }
    destruct Htext as (text & Htext). exists text.
    assert (Hback : JSON.parse text = Some (nullify v)).
    { Transparent JSON.stringify2. unfold JSON.stringify2 in Htext.
      Opaque JSON.stringify2.
      rewrite <- Hser in Htext. by apply parse_serialize in Htext. }
    assert (Hrun : forall st0,
              JSON.parse (evaluationData st0) = Some v \/
              JSON.parse (evaluationData st0) = Some (nullify v) ->
              ui (snd (run formatJsonInput w st0))
              = setError [] (setEvaluationData text st0)).
    { intros st0 Hst0. unfold run, formatJsonInput. unfold_handler.
      destruct Hst0 as [-> | ->]; simpl.
      - by rewrite Htext.
      - Transparent JSON.stringify2. unfold JSON.stringify2 in *.
        Opaque JSON.stringify2. by rewrite Hser, Htext. }
    rewrite (Hrun st) by (by left).
    rewrite (Hrun (setError [] (setEvaluationData text st))) by (by right).
    repeat split; try done.
    intros Hfin. by rewrite nullify_finite in Hback.
  - intros Hp. unfold run, formatJsonInput. unfold_handler. rewrite Hp. done.
Qed.

Lemma formatJsonInput_keeps_the_value_witness :
  exists text,
    JSON.stringify2 (VObj [(js "b", VNum (Fin false [49] 2)); (js "a", VArr [VNull])])
      = Some text /\
    evaluationData (ui (snd (run formatJsonInput serving sampleData))) = text /\
    JSON.parse text
      = Some (VObj [(js "b", VNum (Fin false [49] 2)); (js "a", VArr [VNull])]).
Proof.
  destruct (formatJsonInput_keeps_the_value serving sampleData) as [H _].
  destruct (H (VObj [(js "b", VNum (Fin false [49] 2)); (js "a", VArr [VNull])]))
    as (text & H1 & H2 & _ & _ & H3 & _).
  - vm_compute. reflexivity.
  - exists text. split; [exact H1 | split; [exact H2 | apply H3; reflexivity]].
Defined.

Lemma validateJsonData_accepts_arrays_and_objects_witness :
  validateJsonData (evaluationData sampleData) serving (mkSys sampleData [])
    = (inr true, mkSys sampleData []) /\
  operationsSent (snd (run (evaluateRule 1) serving sampleData))
    = [evaluateRequest 1
         (VObj [(js "b", VNum (Fin false [49] 2)); (js "a", VArr [VNull])])] /\
  sent (snd (run (evaluateRule 1) serving initialState)) = [healthRequest].
Proof.
  destruct (validateJsonData_accepts_arrays_and_objects
              (evaluationData sampleData) serving (mkSys sampleData []) 1 sampleData)
    as [[Hyes _] Hsent].
  destruct (validateJsonData_accepts_arrays_and_objects
              [] serving (mkSys initialState []) 1 initialState)
    as [_ Hblank].
  assert (Hv : accepted (evaluationData sampleData)
                 (VObj [(js "b", VNum (Fin false [49] 2)); (js "a", VArr [VNull])])).
  { split; [vm_compute; reflexivity | right; reflexivity]. }
  split; [exact (Hyes _ Hv) | split].
  - apply Hsent; [reflexivity | exact Hv].
  - apply Hblank; [reflexivity |].
    intros [v [Hparse _]]. vm_compute in Hparse. discriminate Hparse.
Defined.

Lemma evaluateBatch_requires_an_array_witness :
  sent (snd (run evaluateBatch serving
               (setBatchData (quoted "[{'age': 1}]") initialState)))
    = [batchRequest [] (VArr [VObj [(js "age", VNum (Fin false [49] 1))]])] /\
  sent (snd (run evaluateBatch serving (setBatchData (js "7") initialState))) = [].
Proof.
  split.
  - apply (evaluateBatch_requires_an_array serving
             (setBatchData (quoted "[{'age': 1}]") initialState)).
    vm_compute. reflexivity.
  - apply (evaluateBatch_requires_an_array serving
             (setBatchData (js "7") initialState)).
    intros items Hparse. vm_compute in Hparse. discriminate Hparse.
Defined.

(** C4 fails as stated: the text [[]] is not a Record, it denotes an empty
    array; [validateJsonData] returns true on it and evaluateRule sends the
    evaluation request with it. *)
Lemma array_passes_validation :
  JSON.parse (js "[]") = Some (VArr []) /\
  Engine.isRecord (VArr []) = false /\
  validateJsonData (js "[]") serving (mkSys initialState [])
    = (inr true, mkSys initialState []) /\
  operationsSent
    (snd (run (evaluateRule 1) serving (setEvaluationData (js "[]") initialState)))
    = [evaluateRequest 1 (VArr [])].
Proof. vm_compute. done. Qed.

(** C5 fails as stated: the batch text [[1, true]] denotes an array that is
    not a sequence of Records, and evaluateBatch sends the request with it. *)
Lemma array_of_non_records_is_sent :
  JSON.parse (js "[1, true]") = Some (VArr [VNum (Fin false [49] 1); VBool true]) /\
  Engine.isRecordList (VArr [VNum (Fin false [49] 1); VBool true]) = false /\
  sent (snd (run evaluateBatch serving (setBatchData (js "[1, true]") initialState)))
    = [batchRequest [] (VArr [VNum (Fin false [49] 1); VBool true])] /\
  error (ui (snd (run evaluateBatch serving
                    (setBatchData (js "[1, true]") initialState)))) = [].
Proof. vm_compute. done. Qed.

(** C9 fails as stated: [1e999] parses as JSON, to the number Infinity;
    formatJsonInput replaces it with [null], whose parse is not that
    number. *)
Lemma formatting_loses_an_overflowing_number :
  JSON.parse (js "1e999") = Some (VNum (Inf false)) /\
  evaluationData
    (ui (snd (run formatJsonInput serving (setEvaluationData (js "1e999") initialState))))
    = js "null" /\
  JSON.parse (js "null") = Some VNull /\
  JSON.parse (js "null") <> JSON.parse (js "1e999").
Proof. vm_compute. done. Qed.

(** Numbers are written back as the doubles they were read as: the nearest
    double of an integer beyond [2^53], zero for a literal below the least
    double, the shortest digits otherwise. *)
Lemma formatting_writes_the_doubles :
  evaluationData
    (ui (snd (run formatJsonInput serving
                (setEvaluationData
                   (js "[9007199254740993, 1e-400, 0.1, 123456789012345678901, 5e-324]")
                   initialState))))
  = js "[" ++ [10] ++ js "  9007199254740992," ++ [10] ++ js "  0," ++ [10]
    ++ js "  0.1," ++ [10] ++ js "  123456789012345680000," ++ [10]
    ++ js "  5e-324" ++ [10] ++ js "]" /\
  body (evaluateRequest 7 (VObj [(js "a", VNum (number_of_Z 9007199254740993))]))
  = Some (quoted "{'data':{'a':9007199254740992}}") /\
  JSON.parse (js "1.7976931348623158e308")
  = JSON.parse (js "1.7976931348623157e308") /\
  JSON.parse (js "1.7976931348623159e308") = Some (VNum (Inf false)).
Proof. vm_compute. done. Qed.

(** ** Rule ids as numbers and as text *)

Lemma revapp_snoc (ds : list N) (c : N) (acc : Decimal.uint) :
  Decimal.revapp (uint_of_digits (ds ++ [c])) acc
  = Decimal.revapp (uint_of_digits [c]) (Decimal.revapp (uint_of_digits ds) acc).
Proof.
  revert acc. induction ds as [|d ds IH]; intros acc; [done|].
  change ((d :: ds) ++ [c]) with (d :: (ds ++ [c])).
  change (uint_of_digits (d :: ds ++ [c])) with
    (let u := uint_of_digits (ds ++ [c]) in
     match d with
     | 48 => Decimal.D0 u | 49 => Decimal.D1 u | 50 => Decimal.D2 u
     | 51 => Decimal.D3 u | 52 => Decimal.D4 u | 53 => Decimal.D5 u
     | 54 => Decimal.D6 u | 55 => Decimal.D7 u | 56 => Decimal.D8 u
     | _ => Decimal.D9 u
     end).
  change (uint_of_digits (d :: ds)) with
    (let u := uint_of_digits ds in
     match d with
     | 48 => Decimal.D0 u | 49 => Decimal.D1 u | 50 => Decimal.D2 u
     | 51 => Decimal.D3 u | 52 => Decimal.D4 u | 53 => Decimal.D5 u
     | 54 => Decimal.D6 u | 55 => Decimal.D7 u | 56 => Decimal.D8 u
     | _ => Decimal.D9 u
     end).
  cbv zeta.
  repeat match goal with
         | |- context [match ?x with _ => _ end] =>
           lazymatch x with
           | context [match _ with _ => _ end] => fail
           | _ => destruct x
           end
         end; simpl; apply IH.
Qed.

Lemma isDigit_digitOf (c : N) : isDigit c = true -> digitOf c = Some (c - 48).
Proof. unfold isDigit, digitOf. by intros ->. Qed.

Lemma isDigit_range (c : N) : isDigit c = true -> 48 <= c <= 57.
Proof.
  unfold isDigit. intros H. apply andb_true_iff in H as [H1 H2].
  apply N.leb_le in H1, H2. lia.
Qed.

Lemma isDigit_cases (c : N) :
  isDigit c = true ->
  c = 48 \/ c = 49 \/ c = 50 \/ c = 51 \/ c = 52 \/ c = 53 \/ c = 54 \/ c = 55
  \/ c = 56 \/ c = 57.
Proof. intros H. apply isDigit_range in H. lia. Qed.

Lemma digits_value_snoc (ds : list N) (c : N) :
  isDigit c = true ->
  digits_value (ds ++ [c]) = 10 * digits_value ds + (c - 48).
Proof.
  intros Hc. unfold digits_value, N.of_uint.
  rewrite !DecimalPos.Unsigned.of_uint_alt. unfold Decimal.rev. rewrite revapp_snoc.
  destruct (isDigit_cases c Hc)
    as [-> | [-> | [-> | [-> | [-> | [-> | [-> | [-> | [-> | ->]]]]]]]]];
    simpl uint_of_digits; simpl Decimal.revapp;
    cbn [DecimalPos.Unsigned.of_lu]; lia.
Qed.

Lemma mathInt_snoc (radix : N) (ds : list N) (c : N) :
  mathInt radix (ds ++ [c]) = radix * mathInt radix ds + default 0 (digitOf c).
Proof. unfold mathInt. by rewrite fold_left_app. Qed.

(** In radix 10, [parseInt] and [JSON.parse] read a digit string alike. *)
Lemma mathInt_digits_value (ds : list N) :
  forallb isDigit ds = true -> mathInt 10 ds = digits_value ds.
Proof.
  induction ds as [|c ds IH] using rev_ind; [done|].
  rewrite forallb_app. intros H. apply andb_true_iff in H as [H1 H2].
  simpl in H2. rewrite andb_true_r in H2.
  rewrite mathInt_snoc, digits_value_snoc, IH, (isDigit_digitOf c) by done. done.
Qed.

Lemma mathInt_bound (ds : list N) :
  forallb isDigit ds = true -> mathInt 10 ds < 10 ^ N.of_nat (length ds).
Proof.
  induction ds as [|c ds IH] using rev_ind; [done|].
  rewrite forallb_app. intros H. apply andb_true_iff in H as [H1 H2].
  simpl in H2. rewrite andb_true_r in H2.
  rewrite mathInt_snoc, length_app, (isDigit_digitOf c) by done. simpl.
  specialize (IH H1).
  replace (N.of_nat (length ds + 1)) with (N.succ (N.of_nat (length ds))) by lia.
  rewrite N.pow_succ_r'. apply isDigit_range in H2. simpl. lia.
Qed.

Lemma mathInt_app (a b : list N) :
  mathInt 10 (a ++ b) = mathInt 10 a * 10 ^ N.of_nat (length b) + mathInt 10 b.
Proof.
  induction b as [|c b IH] using rev_ind.
  - rewrite app_nil_r. simpl. unfold mathInt at 3. simpl. lia.
  - rewrite app_assoc, !mathInt_snoc, IH, length_app. simpl.
    replace (N.of_nat (length b + 1)) with (N.succ (N.of_nat (length b))) by lia.
    rewrite N.pow_succ_r'. lia.
Qed.

Lemma mathInt_lower (d : N) (ds : list N) :
  isDigit d = true -> isZeroDigit d = false ->
  10 ^ N.of_nat (length ds) <= mathInt 10 (d :: ds).
Proof.
  intros Hd Hz. change (d :: ds) with ([d] ++ ds). rewrite mathInt_app.
  unfold mathInt at 1. simpl. rewrite (isDigit_digitOf d Hd). simpl.
  apply isDigit_range in Hd. unfold isZeroDigit in Hz. apply N.eqb_neq in Hz.
  assert (1 <= d - 48) by lia. nia.
Qed.

Lemma decimal_magnitude (k : N) :
  k <> 0 ->
  10 ^ N.of_nat (length (decimal k)) <= 10 * k /\
  k < 10 ^ N.of_nat (length (decimal k)).
Proof.
  intros Hk. destruct (decimal_head k Hk) as (d & ds & E & Hz).
  pose proof (decimal_isDigit k) as Hd.
  pose proof (mathInt_digits_value _ Hd) as Hv. rewrite digits_value_decimal in Hv.
  pose proof (mathInt_bound _ Hd) as Hb. rewrite Hv in Hb. split; [|done].
  rewrite E in *. simpl in Hd. apply andb_true_iff in Hd as [Hd _].
  pose proof (mathInt_lower d ds Hd Hz) as Hl. rewrite Hv in Hl.
  simpl length.
  replace (N.of_nat (S (length ds))) with (N.succ (N.of_nat (length ds))) by lia.
  rewrite N.pow_succ_r'. lia.
Qed.

(** ** Safe integers as doubles *)

Lemma repeat_zero_isDigit (m : nat) : forallb isDigit (repeat 48 m) = true.
Proof. induction m as [|m IH]; [done|]. simpl. by rewrite IH. Qed.

Lemma digits_value_app (a b : list N) :
  forallb isDigit a = true -> forallb isDigit b = true ->
  digits_value (a ++ b) = digits_value a * 10 ^ N.of_nat (length b) + digits_value b.
Proof.
  intros Ha Hb. rewrite <- !mathInt_digits_value; rewrite ?forallb_app, ?Ha, ?Hb; try done.
  apply mathInt_app.
Qed.

Lemma digits_value_zeros (m : nat) : digits_value (repeat 48 m) = 0.
Proof.
  induction m as [|m IH]; [done|].
  change (repeat 48 (S m)) with ([48] ++ repeat 48 m).
  rewrite digits_value_app, IH; [done | done | apply repeat_zero_isDigit].
Qed.

Lemma digits_value_bound (ds : list N) :
  forallb isDigit ds = true -> digits_value ds < 10 ^ N.of_nat (length ds).
Proof. intros H. rewrite <- mathInt_digits_value by done. by apply mathInt_bound. Qed.

Lemma digits_value_positive (d : N) (l : list N) :
  forallb isDigit (d :: l) = true -> isZeroDigit d = false ->
  0 < digits_value (d :: l).
Proof.
  intros H Hd. rewrite <- mathInt_digits_value by done.
  simpl in H. apply andb_true_iff in H as [H _].
  pose proof (mathInt_lower d l H Hd) as Hl.
  assert (0 < 10 ^ N.of_nat (length l)) by (apply N.neq_0_lt_0, N.pow_nonzero; lia).
  lia.
Qed.

Lemma digits_of_uint_of_digits (ds : list N) :
  forallb isDigit ds = true -> digits_of_uint (uint_of_digits ds) = ds.
Proof.
  induction ds as [|c ds IH]; [done|]. simpl forallb. intros H.
  apply andb_true_iff in H as [Hc H]. specialize (IH H).
  destruct (isDigit_cases c Hc)
    as [-> | [-> | [-> | [-> | [-> | [-> | [-> | [-> | [-> | ->]]]]]]]]];
    simpl; by rewrite IH.
Qed.

(** A digit string without a zero at its front is the decimal of its value. *)
Lemma decimal_unique (d : N) (l : list N) :
  forallb isDigit (d :: l) = true -> isZeroDigit d = false ->
  decimal (digits_value (d :: l)) = d :: l.
Proof.
  intros H Hd. unfold decimal, digits_value.
  rewrite DecimalN.Unsigned.to_of.
  rewrite <- (digits_of_uint_of_digits (d :: l) H) at 2. f_equal.
  simpl in H. apply andb_true_iff in H as [Hc _].
  destruct (isDigit_cases d Hc)
    as [-> | [-> | [-> | [-> | [-> | [-> | [-> | [-> | [-> | ->]]]]]]]]];
    done.
Qed.

Lemma decimal_shift (v : N) (c : nat) :
  v <> 0 -> decimal (v * 10 ^ N.of_nat c) = decimal v ++ repeat 48 c.
Proof.
  intros Hv. destruct (decimal_head v Hv) as (d & l & E & Hd).
  pose proof (decimal_isDigit v) as Hdig.
  assert (Hval : digits_value (decimal v ++ repeat 48 c) = v * 10 ^ N.of_nat c).
  { rewrite digits_value_app, repeat_length, digits_value_zeros, digits_value_decimal;
      [lia | done | apply repeat_zero_isDigit]. }
  rewrite <- Hval, E. apply (decimal_unique d (l ++ repeat 48 c)); [|done].
  rewrite E in Hdig. change (forallb isDigit ((d :: l) ++ repeat 48 c) = true).
  by rewrite forallb_app, Hdig, repeat_zero_isDigit.
Qed.

Lemma length_decimal_le (v : N) (p : nat) :
  v <> 0 -> v < 10 ^ N.of_nat p -> (length (decimal v) <= p)%nat.
Proof.
  intros Hv Hlt. destruct (decimal_magnitude v Hv) as [Hlow _].
  destruct (le_lt_dec (length (decimal v)) p) as [|Hgt]; [done|]. exfalso.
  assert (10 ^ N.of_nat (S p) <= 10 ^ N.of_nat (length (decimal v)))
    by (apply N.pow_le_mono_r; lia).
  replace (N.of_nat (S p)) with (N.succ (N.of_nat p)) in H by lia.
  rewrite N.pow_succ_r' in H. lia.
Qed.

(** *** Integers as doubles *)

Lemma floorLog2_int (j : Z) : (0 < j)%Z -> floorLog2 j 1 = Z.log2 j.
Proof.
  intros Hj. unfold floorLog2. change (Z.log2 1) with 0%Z. rewrite Z.sub_0_r.
  pose proof (Z.log2_nonneg j). rewrite (proj2 (Z.leb_le 0 _)) by done.
  destruct (Z.log2_spec j Hj) as [H1 _]. rewrite (proj2 (Z.leb_le _ _)); [done | lia].
Qed.

Lemma roundHalfEven_one (a : Z) : roundHalfEven a 1 = a.
Proof. unfold roundHalfEven. by rewrite Z.div_1_r, Z.mod_1_r. Qed.

Lemma roundHalfEven_lower (a d : Z) : (a / d <= roundHalfEven a d)%Z.
Proof.
  unfold roundHalfEven.
  destruct (2 * (a mod d) <? d)%Z; [lia|].
  destruct (d <? 2 * (a mod d))%Z; [lia|].
  destruct (Z.even (a / d)); lia.
Qed.

Lemma log2_safe (j : Z) : (0 < j < 2 ^ 53)%Z -> (0 <= Z.log2 j <= 52)%Z.
Proof.
  intros [Hj Hlt]. split; [apply Z.log2_nonneg|].
  assert (Z.log2 j < 53)%Z; [|lia]. by apply Z.log2_lt_pow2.
Qed.

(** An integer below [2^53] is a double. *)
Lemma binary64_of_ratio_small (j : Z) :
  (0 < j < 2 ^ 53)%Z ->
  binary64_of_ratio j 1 = B64finite (j * 2 ^ (52 - Z.log2 j)) (Z.log2 j - 52).
Proof.
  intros Hj. pose proof (log2_safe j Hj) as HL. destruct Hj as [Hj Hlt].
  unfold binary64_of_ratio. cbv zeta.
  rewrite (proj2 (Z.eqb_neq j 0)) by lia. rewrite floorLog2_int by done.
  rewrite Z.max_l by lia.
  destruct (Z.log2_spec j Hj) as [Hlo Hhi].
  set (L := Z.log2 j) in *.
  assert (Hm : (if (0 <=? L - 52)%Z then roundHalfEven j (1 * 2 ^ (L - 52))
                else roundHalfEven (j * 2 ^ (- (L - 52))) 1)
               = (j * 2 ^ (52 - L))%Z).
  { destruct (0 <=? L - 52)%Z eqn:E.
    - apply Z.leb_le in E. assert (HL52 : L = 52%Z) by lia. rewrite HL52.
      change (1 * 2 ^ (52 - 52))%Z with 1%Z. rewrite roundHalfEven_one.
      change (2 ^ (52 - 52))%Z with 1%Z. lia.
    - replace (- (L - 52))%Z with (52 - L)%Z by lia. apply roundHalfEven_one. }
  rewrite Hm.
  assert (Hp : (0 < 2 ^ (52 - L))%Z) by (apply Z.pow_pos_nonneg; lia).
  assert (H52 : (2 ^ 52 = 2 ^ L * 2 ^ (52 - L))%Z).
  { rewrite <- Z.pow_add_r by lia. f_equal. lia. }
  assert (H53 : (2 ^ 53 = 2 ^ Z.succ L * 2 ^ (52 - L))%Z).
  { rewrite <- Z.pow_add_r by lia. f_equal. lia. }
  assert (Hm1 : (2 ^ 52 <= j * 2 ^ (52 - L) < 2 ^ 53)%Z).
  { rewrite H52, H53. split; [apply Z.mul_le_mono_nonneg_r | apply Z.mul_lt_mono_pos_r]; lia. }
  rewrite (proj2 (Z.eqb_neq _ (2 ^ 53))) by lia.
  rewrite (proj2 (Z.eqb_neq _ 0)) by lia.
  rewrite (proj2 (Z.ltb_ge _ _)) by lia. done.
Qed.

(** An integer from [2^53] on is an infinity or a double with an exponent
    above zero. *)
Lemma binary64_of_ratio_large (i : Z) :
  (2 ^ 53 <= i)%Z ->
  match binary64_of_ratio i 1 with
  | B64zero => False
  | B64finite _ e => (1 <= e)%Z
  | B64infinity => True
  end.
Proof.
  intros Hi. assert (Hpos : (0 < i)%Z) by lia.
  assert (HL : (53 <= Z.log2 i)%Z).
  { rewrite <- (Z.log2_pow2 53) by lia. apply Z.log2_le_mono. lia. }
  unfold binary64_of_ratio. cbv zeta.
  rewrite (proj2 (Z.eqb_neq i 0)) by lia. rewrite floorLog2_int by done.
  rewrite Z.max_l by lia. rewrite (proj2 (Z.leb_le 0 _)) by lia.
  destruct (Z.log2_spec i Hpos) as [Hlo _].
  set (e := (Z.log2 i - 52)%Z) in *.
  assert (Hp : (0 < 2 ^ e)%Z) by (apply Z.pow_pos_nonneg; lia).
  assert (Hm : (2 ^ 52 <= roundHalfEven i (1 * 2 ^ e))%Z).
  { etrans; [|apply roundHalfEven_lower]. apply Z.div_le_lower_bound; [lia|].
    rewrite Z.mul_1_l, <- Z.pow_add_r by lia.
    replace (e + 52)%Z with (Z.log2 i) by lia. done. }
  set (m := roundHalfEven i (1 * 2 ^ e)) in *.
  destruct (m =? 2 ^ 53)%Z.
  - change (2 ^ 52 =? 0)%Z with false. cbv iota. destruct (971 <? e + 1)%Z; [done | lia].
  - rewrite (proj2 (Z.eqb_neq m 0)) by lia. destruct (971 <? e)%Z; [done | lia].
Qed.

Lemma binary64_of_int_inj (i j : Z) :
  (0 < j < 2 ^ 53)%Z -> (0 < i)%Z ->
  binary64_of_ratio i 1 = binary64_of_ratio j 1 -> i = j.
Proof.
  intros Hj Hi E. pose proof (log2_safe j Hj) as HL.
  rewrite (binary64_of_ratio_small j Hj) in E.
  destruct (Z_lt_le_dec i (2 ^ 53)) as [Hs | Hl].
  - rewrite binary64_of_ratio_small in E by lia. injection E as E1 E2.
    assert (EL : Z.log2 i = Z.log2 j) by lia. rewrite EL in E1.
    apply Z.mul_reg_r in E1; [done|].
    assert (0 < 2 ^ (52 - Z.log2 j))%Z by (apply Z.pow_pos_nonneg; lia). lia.
  - pose proof (binary64_of_ratio_large i Hl) as H. rewrite E in H. lia.
Qed.

Lemma binary64_of_decimal_int (ds : list N) (n : Z) :
  digits_value ds <> 0 -> (Z.of_nat (length ds) <= n <= 310)%Z ->
  binary64_of_decimal ds n
  = binary64_of_ratio (Z.of_N (digits_value ds) * 10 ^ (n - Z.of_nat (length ds))) 1.
Proof.
  intros HD Hn. unfold binary64_of_decimal. cbv zeta.
  rewrite (proj2 (Z.eqb_neq _ 0)) by lia.
  rewrite (proj2 (Z.ltb_ge _ _)) by lia.
  rewrite (proj2 (Z.ltb_ge _ _)) by lia.
  by rewrite (proj2 (Z.leb_le _ _)) by lia.
Qed.

(** Zeros at the end of an integer's digits do not change what it reads as. *)
Lemma binary64_of_decimal_strip (x : list N) (n : Z) :
  forallb isDigit x = true ->
  match x with d :: _ => isZeroDigit d = false | [] => False end ->
  (Z.of_nat (length x) <= n <= 310)%Z ->
  binary64_of_decimal (stripTrailingZeros x) n
  = binary64_of_ratio (Z.of_N (digits_value x) * 10 ^ (n - Z.of_nat (length x))) 1.
Proof.
  intros Hx Hh Hn. destruct x as [|d l]; [done|].
  pose proof (digits_value_positive d l Hx Hh) as Hpos.
  destruct (strip_trimmed (d :: l) Hx Hh) as [[_ ?] | [Ht (z & E)]]; [done|].
  set (x' := stripTrailingZeros (d :: l)) in *.
  assert (Hx' : forallb isDigit x' = true).
  { rewrite E, forallb_app in Hx. by apply andb_true_iff in Hx as [? _]. }
  assert (Hval : digits_value (d :: l) = digits_value x' * 10 ^ N.of_nat z).
  { rewrite E at 1. rewrite digits_value_app, repeat_length, digits_value_zeros;
      [lia | done | apply repeat_zero_isDigit]. }
  assert (Hlen : length (d :: l) = (length x' + z)%nat).
  { rewrite E at 1. by rewrite length_app, repeat_length. }
  rewrite binary64_of_decimal_int; [|intros E0; rewrite E0 in Hval; lia | lia].
  f_equal. rewrite Hval, Hlen, N2Z.inj_mul, N2Z.inj_pow.
  replace (n - Z.of_nat (length x'))%Z
    with (Z.of_N (N.of_nat z) + (n - Z.of_nat (length x' + z)))%Z by lia.
  rewrite Z.pow_add_r by lia. change (Z.of_N 10) with 10%Z. lia.
Qed.

Lemma binary64_eqb_refl (x : binary64) : binary64_eqb x x = true.
Proof. destruct x; simpl; try done. by rewrite !Z.eqb_refl. Qed.

Lemma binary64_eqb_int (i j m e : Z) :
  (0 < j < 2 ^ 53)%Z -> binary64_of_ratio j 1 = B64finite m e -> (0 < i)%Z ->
  binary64_eqb (binary64_of_ratio i 1) (B64finite m e) = bool_decide (i = j).
Proof.
  intros Hj <- Hi. case_bool_decide as E.
  - subst. apply binary64_eqb_refl.
  - destruct (binary64_eqb _ _) eqn:Eb; [|done].
    apply binary64_eqb_eq, binary64_of_int_inj in Eb; done.
Qed.

Lemma trimmed_digits (ds : list N) :
  trimmedDigits ds = true ->
  forallb isDigit ds = true /\
  (exists d l, ds = d :: l /\ isZeroDigit d = false) /\
  (exists a l, ds = a ++ [l] /\ isZeroDigit l = false).
Proof.
  unfold trimmedDigits. intros H. apply andb_true_iff in H as [H H3].
  apply andb_true_iff in H as [H1 H2]. split; [done|]. split.
  - destruct ds as [|d l]; [done|]. apply negb_true_iff in H2. eauto.
  - destruct (rev ds) as [|l r] eqn:E.
    + apply (f_equal (@rev N)) in E. rewrite rev_involutive in E. subst. done.
    + apply (f_equal (@rev N)) in E. rewrite rev_involutive in E. simpl in E.
      apply negb_true_iff in H3. eauto.
Qed.

Lemma stripTrailingZeros_trimmed (ds : list N) :
  trimmedDigits ds = true -> stripTrailingZeros ds = ds.
Proof.
  intros H. destruct (trimmed_digits ds H) as (_ & _ & a & l & -> & Hl).
  unfold stripTrailingZeros. rewrite rev_app_distr. simpl.
  rewrite stripLeadingZeros_head by done.
  change (l :: rev a) with ([l] ++ rev a). by rewrite rev_app_distr, rev_involutive.
Qed.

Lemma digits_value_drop_positive (ds : list N) (k : nat) :
  trimmedDigits ds = true -> (k < length ds)%nat -> 0 < digits_value (drop k ds).
Proof.
  intros H Hk. destruct (trimmed_digits ds H) as (Hd & _ & a & l & -> & Hl).
  rewrite length_app in Hk. simpl in Hk.
  rewrite drop_app_le by lia.
  rewrite forallb_app in Hd. apply andb_true_iff in Hd as [_ Hd].
  simpl in Hd. rewrite andb_true_r in Hd.
  rewrite digits_value_snoc by done.
  apply isDigit_range in Hd. unfold isZeroDigit in Hl. apply N.eqb_neq in Hl. lia.
Qed.

Lemma forallb_drop {A} (p : A -> bool) (k : nat) (l : list A) :
  forallb p l = true -> forallb p (drop k l) = true.
Proof.
  revert k. induction l as [|a l IH]; intros [|k] H; simpl in *; try done.
  apply andb_true_iff in H as [_ H]. by apply IH.
Qed.

(** The search through the digits of a safe integer ends at the last digit
    that is not zero. *)
Lemma shortestFrom_int (j m e : Z) (ds0 : list N) (n0 : Z) (rest : list N) :
  (0 < j < 2 ^ 53)%Z ->
  binary64_of_ratio j 1 = B64finite m e ->
  trimmedDigits ds0 = true ->
  (Z.of_N (digits_value ds0) * 10 ^ (n0 - Z.of_nat (length ds0)))%Z = j ->
  (Z.of_nat (length ds0) <= n0 <= 300)%Z ->
  forall fuel k,
    (1 <= k <= length ds0)%nat -> (length ds0 - k < fuel)%nat ->
    shortestFrom fuel k m e (ds0 ++ rest) n0 = Some (ds0, n0).
Proof.
  intros Hj Hme Ht Hval Hn0.
  destruct (trimmed_digits ds0 Ht) as (Hdig & (d & l0 & Eds & Hd) & _).
  induction fuel as [|fuel IH]; intros k Hk Hf; [lia|].
  cbn [shortestFrom]. cbv zeta. rewrite take_app_le by lia.
  set (lo := take k ds0).
  assert (Hlen : length lo = k) by (subst lo; rewrite length_take; lia).
  assert (Hlodig : forallb isDigit lo = true) by (by apply forallb_take).
  assert (Hlohead : match lo with c :: _ => isZeroDigit c = false | [] => False end).
  { subst lo. rewrite Eds. destruct k as [|k]; [lia | done]. }
  set (s := digits_value lo).
  assert (Hs : s < 10 ^ N.of_nat k).
  { pose proof (digits_value_bound lo Hlodig) as Hb. by rewrite Hlen in Hb. }
  assert (Hs0 : 0 < s).
  { subst s. destruct lo as [|c lo']; [done|]. by apply digits_value_positive. }
  assert (Hsplit : digits_value ds0
                   = s * 10 ^ N.of_nat (length ds0 - k) + digits_value (drop k ds0)).
  { rewrite <- (take_drop k ds0) at 1.
    rewrite digits_value_app, length_drop; [done | done | by apply forallb_drop]. }
  assert (Hr : digits_value (drop k ds0) < 10 ^ N.of_nat (length ds0 - k)).
  { rewrite <- (length_drop ds0 k). apply digits_value_bound. by apply forallb_drop. }
  set (r := digits_value (drop k ds0)) in *.
  set (hi := decimal (s + 1)).
  assert (Hs1 : s + 1 <> 0) by lia.
  assert (Hhilen : (length hi <= k + 1)%nat).
  { apply length_decimal_le; [done|].
    replace (N.of_nat (k + 1)) with (N.succ (N.of_nat k)) by lia.
    rewrite N.pow_succ_r'. lia. }
  assert (Hhihead : match hi with c :: _ => isZeroDigit c = false | [] => False end).
  { destruct (decimal_head _ Hs1) as (c & l & E & Hc). subst hi. by rewrite E. }
  rewrite (binary64_of_decimal_strip lo n0) by (done || lia).
  rewrite (binary64_of_decimal_strip hi) by (done || apply decimal_isDigit || lia).
  assert (Hhival : digits_value hi = s + 1) by apply digits_value_decimal.
  fold s. rewrite !Hhival, Hlen.
  replace (n0 + Z.of_nat (length hi) - Z.of_nat k - Z.of_nat (length hi))%Z
    with (n0 - Z.of_nat k)%Z by lia.
  assert (HA : (0 < 10 ^ (Z.of_nat (length ds0) - Z.of_nat k))%Z)
    by (apply Z.pow_pos_nonneg; lia).
  assert (HB : (0 < 10 ^ (n0 - Z.of_nat (length ds0)))%Z)
    by (apply Z.pow_pos_nonneg; lia).
  assert (HP : (10 ^ (n0 - Z.of_nat k)
                = 10 ^ (Z.of_nat (length ds0) - Z.of_nat k)
                  * 10 ^ (n0 - Z.of_nat (length ds0)))%Z).
  { rewrite <- Z.pow_add_r by lia. f_equal. lia. }
  assert (HsplitZ : Z.of_N (digits_value ds0)
                    = (Z.of_N s * 10 ^ (Z.of_nat (length ds0) - Z.of_nat k)
                       + Z.of_N r)%Z).
  { rewrite Hsplit, N2Z.inj_add, N2Z.inj_mul, N2Z.inj_pow.
    change (Z.of_N 10) with 10%Z. do 3 f_equal. lia. }
  assert (HrZ : (0 <= Z.of_N r < 10 ^ (Z.of_nat (length ds0) - Z.of_nat k))%Z).
  { split; [lia|]. apply N2Z.inj_lt in Hr. rewrite N2Z.inj_pow in Hr.
    change (Z.of_N 10) with 10%Z in Hr.
    replace (Z.of_N (N.of_nat (length ds0 - k)))
      with (Z.of_nat (length ds0) - Z.of_nat k)%Z in Hr by lia. done. }
  rewrite HP. rewrite HsplitZ in Hval.
  set (A := (10 ^ (Z.of_nat (length ds0) - Z.of_nat k))%Z) in *.
  set (B := (10 ^ (n0 - Z.of_nat (length ds0)))%Z) in *.
  assert (HsZ : (0 < Z.of_N s)%Z) by lia.
  rewrite (binary64_eqb_int _ j m e Hj Hme) by nia.
  rewrite (binary64_eqb_int _ j m e Hj Hme) by nia.
  rewrite (bool_decide_eq_false_2 (Z.of_N (s + 1) * (A * B) = j)%Z) by nia.
  rewrite andb_false_r.
  destruct (decide (k = length ds0)) as [Ek | Ek].
  - assert (Er : r = 0).
    { subst r. rewrite Ek, drop_all. done. }
    rewrite bool_decide_eq_true_2 by (rewrite Er in Hval; lia).
    subst lo. rewrite Ek, firstn_all, stripTrailingZeros_trimmed by done. done.
  - assert (0 < r) by (apply digits_value_drop_positive; [done | lia]).
    rewrite bool_decide_eq_false_2 by nia.
    apply IH; lia.
Qed.

Lemma stripTrailingZeros_spec (d : N) (l : list N) :
  isZeroDigit d = false ->
  exists e ds m, stripTrailingZeros (d :: l) = e :: ds /\
                 d :: l = (e :: ds) ++ repeat 48 m.
Proof.
  intros Hd. unfold stripTrailingZeros.
  destruct (stripLeadingZeros_spec (rev (d :: l))) as (m & E & _).
  apply (f_equal (@rev N)) in E.
  rewrite rev_involutive, rev_app_distr, rev_repeat in E.
  destruct (rev (stripLeadingZeros (rev (d :: l)))) as [|e ds] eqn:Es.
  - simpl in E. destruct m as [|m]; [done|]. simpl in E. injection E as -> _. done.
  - by exists e, ds, m.
Qed.

Lemma safeInteger_abs (z : Z) :
  safeInteger z -> z <> 0%Z -> (0 < Z.abs z < 2 ^ 53)%Z.
Proof. unfold safeInteger. lia. Qed.

Lemma safe_decimal_length (j : Z) :
  (0 < j < 2 ^ 53)%Z -> (length (decimal (Z.to_N j)) <= 16)%nat.
Proof.
  intros Hj. apply length_decimal_le; [lia|].
  assert (2 ^ 53 < 10 ^ N.of_nat 16) by done.
  assert (Z.to_N j < 2 ^ 53); [|lia].
  apply N2Z.inj_lt. rewrite Z2N.id by lia.
  assert (Z.of_N (2 ^ 53) = (2 ^ 53)%Z) by done. lia.
Qed.

(** The digits printed for a safe integer: those of its decimal, without the
    zeros at the end. *)
Lemma shortest_int (j : Z) :
  (0 < j < 2 ^ 53)%Z ->
  shortest (j * 2 ^ (52 - Z.log2 j)) (Z.log2 j - 52)
  = Some (stripTrailingZeros (decimal (Z.to_N j)),
          Z.of_nat (length (decimal (Z.to_N j)))).
Proof.
  intros Hj. pose proof (log2_safe j Hj) as HL.
  pose proof (safe_decimal_length j Hj) as Hlen.
  assert (Hv : Z.to_N j <> 0) by lia.
  destruct (decimal_head _ Hv) as (d & l & Ed & Hd).
  pose proof (decimal_isDigit (Z.to_N j)) as Hdig.
  destruct (strip_trimmed (decimal (Z.to_N j))) as [[_ E0] | [Ht (t & Et)]];
    [done | by rewrite Ed | by rewrite Ed in E0 |].
  set (ds0 := stripTrailingZeros (decimal (Z.to_N j))) in *.
  assert (Hdig0 : forallb isDigit ds0 = true).
  { rewrite Et, forallb_app in Hdig. by apply andb_true_iff in Hdig as [? _]. }
  assert (Hval : Z.to_N j = digits_value ds0 * 10 ^ N.of_nat t).
  { rewrite <- (digits_value_decimal (Z.to_N j)), Et at 1.
    rewrite digits_value_app, repeat_length, digits_value_zeros;
      [lia | done | apply repeat_zero_isDigit]. }
  assert (Hlen0 : length (decimal (Z.to_N j)) = (length ds0 + t)%nat).
  { rewrite Et at 1. by rewrite length_app, repeat_length. }
  assert (Hlen1 : (1 <= length ds0)%nat).
  { destruct (trimmed_digits ds0 Ht) as (_ & (c & r & -> & _) & _). simpl. lia. }
  assert (Hexact : exists rest,
             exactDecimal (j * 2 ^ (52 - Z.log2 j)) (Z.log2 j - 52)
             = (ds0 ++ rest, Z.of_nat (length (decimal (Z.to_N j))))).
  { unfold exactDecimal. destruct (0 <=? Z.log2 j - 52)%Z eqn:E.
    - apply Z.leb_le in E. assert (HL52 : Z.log2 j = 52%Z) by lia. rewrite HL52.
      change (2 ^ (52 - 52))%Z with 1%Z. rewrite !Z.mul_1_r.
      exists (repeat 48 t). by rewrite <- Et.
    - apply Z.leb_gt in E.
      replace (- (Z.log2 j - 52))%Z with (52 - Z.log2 j)%Z by lia.
      set (c := (52 - Z.log2 j)%Z) in *.
      replace (j * 2 ^ c * 5 ^ c)%Z with (j * 10 ^ c)%Z
        by (change 10%Z with (2 * 5)%Z; rewrite Z.pow_mul_l; lia).
      replace (Z.to_N (j * 10 ^ c)) with (Z.to_N j * 10 ^ N.of_nat (Z.to_nat c)).
      2: { apply N2Z.inj. rewrite N2Z.inj_mul, N2Z.inj_pow, !Z2N.id;
             [ | | lia]; [|apply Z.mul_nonneg_nonneg; [lia | apply Z.pow_nonneg; lia]].
           change (Z.of_N 10) with 10%Z. do 2 f_equal. lia. }
      rewrite decimal_shift by done. exists (repeat 48 t ++ repeat 48 (Z.to_nat c)).
      rewrite length_app, repeat_length. rewrite Et at 1. rewrite <- app_assoc.
      f_equal. lia. }
  destruct Hexact as (rest & Hexact). unfold shortest. rewrite Hexact.
  apply (shortestFrom_int j); try done.
  - by apply binary64_of_ratio_small.
  - rewrite Hlen0. replace (Z.of_nat (length ds0 + t) - Z.of_nat (length ds0))%Z
      with (Z.of_N (N.of_nat t)) by lia.
    change 10%Z with (Z.of_N 10). rewrite <- N2Z.inj_pow, <- N2Z.inj_mul, <- Hval. lia.
  - lia.
  - rewrite length_app. lia.
Qed.

(** The number of a rule id that is a safe integer other than zero: the digits
    of its decimal without the zeros at the end, the point behind the last
    digit of the decimal. *)
Lemma number_of_Z_shape (z : Z) :
  safeInteger z -> z <> 0%Z ->
  exists e ds m,
    decimal (Z.abs_N z) = (e :: ds) ++ repeat 48 m /\
    number_of_Z z
    = Fin (z <? 0)%Z (e :: ds) (Z.of_nat (length (decimal (Z.abs_N z)))).
Proof.
  intros Hs Hz. pose proof (safeInteger_abs z Hs Hz) as Hj.
  assert (Ev : Z.abs_N z = Z.to_N (Z.abs z)) by lia.
  assert (Hk : Z.abs_N z <> 0) by lia.
  destruct (decimal_head _ Hk) as (d & l & E & Hd).
  destruct (stripTrailingZeros_spec d l Hd) as (e & ds & m & Hstrip & Hl).
  exists e, ds, m. rewrite E. split; [done|].
  pose proof (decimal_isDigit (Z.abs_N z)) as Hdig.
  pose proof (safe_decimal_length _ Hj) as Hlen. rewrite <- Ev in Hlen.
  unfold number_of_Z, number_of_literal, decimal_of_literal.
  rewrite app_nil_r, E, stripLeadingZeros_head by done.
  replace (Z.of_nat (length (d :: l)) + 0 -
           (Z.of_nat (length (d :: l)) - Z.of_nat (length (d :: l))))%Z
    with (Z.of_nat (length (d :: l))) by lia.
  unfold number_of_decimal.
  rewrite E in Hdig, Hlen.
  rewrite (binary64_of_decimal_strip (d :: l)) by (done || lia).
  rewrite Z.sub_diag, Z.mul_1_r, <- E, digits_value_decimal.
  replace (Z.of_N (Z.abs_N z)) with (Z.abs z) by lia.
  rewrite binary64_of_ratio_small, shortest_int by done.
  rewrite <- Ev, E, Hstrip. done.
Qed.

Lemma binary64_of_int_nonzero (i : Z) : (0 < i)%Z -> binary64_of_ratio i 1 <> B64zero.
Proof.
  intros Hi. destruct (Z_lt_le_dec i (2 ^ 53)) as [Hs | Hl].
  - by rewrite binary64_of_ratio_small by lia.
  - pose proof (binary64_of_ratio_large i Hl) as H. by destruct (binary64_of_ratio i 1).
Qed.

Lemma number_of_Z_isZero (z : Z) : isZero (number_of_Z z) = bool_decide (z = 0%Z).
Proof.
  destruct (decide (z = 0%Z)) as [-> | Hz].
  - by vm_compute.
  - rewrite bool_decide_eq_false_2 by done.
    assert (Hk : Z.abs_N z <> 0) by lia.
    destruct (decimal_head _ Hk) as (d & l & E & Hd).
    pose proof (decimal_isDigit (Z.abs_N z)) as Hdig. rewrite E in Hdig.
    destruct (stripTrailingZeros_spec d l Hd) as (e & ds & m & Hstrip & Hl).
    unfold number_of_Z, number_of_literal, decimal_of_literal.
    rewrite app_nil_r, E, stripLeadingZeros_head by done.
    replace (Z.of_nat (length (d :: l)) + 0 -
             (Z.of_nat (length (d :: l)) - Z.of_nat (length (d :: l))))%Z
      with (Z.of_nat (length (d :: l))) by lia.
    unfold number_of_decimal.
    destruct (binary64_of_decimal _ _) as [|m' e'|] eqn:Eb; [|
      destruct (shortest m' e') as [[ds' n']|] eqn:Es |done].
    + exfalso. destruct (Z_le_gt_dec (Z.of_nat (length (d :: l))) 310) as [Hle | Hgt].
      * rewrite (binary64_of_decimal_strip (d :: l)) in Eb by (done || lia).
        apply binary64_of_int_nonzero in Eb; [done|].
        rewrite Z.sub_diag, Z.mul_1_r.
        pose proof (digits_value_positive d l Hdig Hd). lia.
      * unfold binary64_of_decimal in Eb. rewrite Hstrip in Eb.
        assert (HD : digits_value (e :: ds) <> 0).
        { intros E0. pose proof (digits_value_positive d l Hdig Hd) as Hp.
          rewrite Hl in Hp. rewrite digits_value_app, E0 in Hp.
          - rewrite digits_value_zeros in Hp. lia.
          - rewrite Hl, forallb_app in Hdig. by apply andb_true_iff in Hdig as [? _].
          - apply repeat_zero_isDigit. }
        cbv zeta in Eb. rewrite (proj2 (Z.eqb_neq _ 0)) in Eb by lia.
        rewrite (proj2 (Z.ltb_lt 310 _)) in Eb by lia. done.
    + destruct (shortest_spec _ _ _ _ Es) as [_ Ht].
      by destruct (trimmedDigits_cons _ Ht) as (c & r & ->).
    + by rewrite Hstrip.
Qed.

(** A template literal prints a safe integer as its plain decimal. *)
Lemma NumberToString_number_of_Z (z : Z) :
  safeInteger z ->
  NumberToString (number_of_Z z)
  = (if (z <? 0)%Z then [45] else []) ++ decimal (Z.abs_N z).
Proof.
  intros Hs. destruct (decide (z = 0%Z)) as [-> | Hz]; [by vm_compute|].
  destruct (number_of_Z_shape z Hs Hz) as (e & ds & m & E & ->).
  pose proof (safe_decimal_length _ (safeInteger_abs z Hs Hz)) as Hlen.
  replace (Z.to_N (Z.abs z)) with (Z.abs_N z) in Hlen by lia.
  unfold NumberToString, digitsToString. f_equal.
  rewrite E in *. rewrite length_app, repeat_length in *.
  rewrite (proj2 (Z.leb_le (Z.of_nat (length (e :: ds))) _)) by lia.
  rewrite (proj2 (Z.leb_le _ 21)) by lia.
  simpl andb. cbv iota. f_equal. f_equal. lia.
Qed.

Lemma number_of_Z_wellFormed (z : Z) :
  safeInteger z ->
  canonical (number_of_Z z) = true /\ isFinite (number_of_Z z) = true.
Proof.
  intros Hs. split.
  - apply number_of_literal_is_canonical; [apply decimal_isDigit | done].
  - destruct (decide (z = 0%Z)) as [-> | Hz]; [done|].
    by destruct (number_of_Z_shape z Hs Hz) as (e & ds & m & _ & ->).
Qed.

(** ** Every double has its shortest digits *)

Local Open Scope Z_scope.

Lemma pow2_pos (t : Z) : 0 <= t -> 0 < 2 ^ t.
Proof. intros. apply Z.pow_pos_nonneg; lia. Qed.

Lemma pow2_split (s t : Z) : 0 <= s -> 0 <= t -> 2 ^ (s + t) = 2 ^ s * 2 ^ t.
Proof. intros. by apply Z.pow_add_r. Qed.

Lemma reaches_scale_num (a b t p : Z) :
  0 < a -> 0 < b -> 0 <= p -> reaches (a * 2 ^ p) b t <-> reaches a b (t - p).
Proof.
  intros Ha Hb Hp. unfold reaches.
  pose proof (pow2_pos p Hp) as Hpp.
  destruct (Z.leb_spec 0 t) as [Ht | Ht], (Z.leb_spec 0 (t - p)) as [Htp | Htp];
    try lia.
  - replace t with ((t - p) + p) at 1 by lia. rewrite pow2_split by lia.
    pose proof (pow2_pos (t - p) Htp). nia.
  - replace p with ((p - t) + t) at 1 by lia. rewrite pow2_split by lia.
    replace (- (t - p)) with (p - t) by lia.
    pose proof (pow2_pos (p - t)). pose proof (pow2_pos t Ht). nia.
  - replace (- (t - p)) with (p + - t) by lia. rewrite pow2_split by lia.
    by rewrite Z.mul_assoc.
Qed.

Lemma reaches_scale_den (a b t q : Z) :
  0 < a -> 0 < b -> 0 <= q -> reaches a (b * 2 ^ q) t <-> reaches a b (t + q).
Proof.
  intros Ha Hb Hq. unfold reaches.
  pose proof (pow2_pos q Hq) as Hqq.
  destruct (Z.leb_spec 0 t) as [Ht | Ht], (Z.leb_spec 0 (t + q)) as [Htq | Htq];
    try lia.
  - rewrite (Z.add_comm t q), pow2_split by lia. by rewrite Z.mul_assoc.
  - replace q with ((t + q) + - t) at 1 by lia. rewrite pow2_split by lia.
    pose proof (pow2_pos (t + q) Htq). pose proof (pow2_pos (- t)). nia.
  - replace (- t) with (- (t + q) + q) at 1 by lia. rewrite pow2_split by lia.
    pose proof (pow2_pos (- (t + q))). nia.
Qed.

Lemma reaches_mono (a b t t' : Z) :
  0 < a -> 0 < b -> t' <= t -> reaches a b t -> reaches a b t'.
Proof.
  intros Ha Hb Ht. unfold reaches.
  destruct (Z.leb_spec 0 t) as [H | H], (Z.leb_spec 0 t') as [H' | H']; try lia.
  - intros Hr. replace t with (t' + (t - t')) in Hr by lia.
    rewrite pow2_split in Hr by lia.
    pose proof (pow2_pos t' H'). pose proof (pow2_pos (t - t')). nia.
  - intros Hr. pose proof (pow2_pos t H). pose proof (pow2_pos (- t')). nia.
  - intros Hr. replace (- t') with (- t + (t - t')) by lia.
    rewrite pow2_split by lia.
    pose proof (pow2_pos (- t)). pose proof (pow2_pos (t - t')). nia.
Qed.

Lemma reaches_log2 (a : Z) : 0 < a -> reaches a 1 (Z.log2 a) /\ ~ reaches a 1 (Z.log2 a + 1).
Proof.
  intros Ha. pose proof (Z.log2_nonneg a). destruct (Z.log2_spec a Ha) as [H1 H2].
  unfold reaches. rewrite !(proj2 (Z.leb_le 0 _)) by lia.
  replace (Z.succ (Z.log2 a)) with (Z.log2 a + 1) in H2 by lia. lia.
Qed.

(** [floorLog2 a b] is the [l] with [2^l <= a / b < 2^(l+1)]. *)
Lemma floorLog2_spec (a b : Z) :
  0 < a -> 0 < b ->
  reaches a b (floorLog2 a b) /\ ~ reaches a b (floorLog2 a b + 1).
Proof.
  intros Ha Hb.
  pose proof (Z.log2_nonneg a) as Hla. pose proof (Z.log2_nonneg b) as Hlb.
  destruct (Z.log2_spec a Ha) as [Ha1 Ha2]. destruct (Z.log2_spec b Hb) as [Hb1 Hb2].
  replace (Z.succ (Z.log2 a)) with (Z.log2 a + 1) in Ha2 by lia.
  replace (Z.succ (Z.log2 b)) with (Z.log2 b + 1) in Hb2 by lia.
  rewrite pow2_split in Ha2, Hb2 by lia. change (2 ^ 1) with 2 in Ha2, Hb2.
  set (la := Z.log2 a) in *. set (lb := Z.log2 b) in *.
  pose proof (pow2_pos la Hla) as Hpa. pose proof (pow2_pos lb Hlb) as Hpb.
  unfold floorLog2. fold la lb.
  destruct (Z.leb_spec 0 (la - lb)) as [Hl | Hl].
  - (* 2^la = 2^lb * 2^(la - lb) *)
    assert (E : 2 ^ la = 2 ^ lb * 2 ^ (la - lb)).
    { rewrite <- pow2_split by lia. f_equal. lia. }
    pose proof (pow2_pos (la - lb) Hl) as Hpl.
    destruct (Z.leb_spec (b * 2 ^ (la - lb)) a) as [Ht | Ht].
    + split.
      * unfold reaches. by rewrite (proj2 (Z.leb_le 0 _)) by lia.
      * unfold reaches. rewrite (proj2 (Z.leb_le 0 _)) by lia.
        rewrite pow2_split by lia. change (2 ^ 1) with 2. nia.
    + split.
      * unfold reaches. destruct (Z.leb_spec 0 (la - lb - 1)) as [H1 | H1].
        -- assert (E1 : 2 ^ (la - lb) = 2 ^ (la - lb - 1) * 2).
           { replace (la - lb) with ((la - lb - 1) + 1) at 1 by lia.
             by rewrite pow2_split by lia. }
           pose proof (pow2_pos (la - lb - 1) H1). nia.
        -- assert (E0 : la - lb = 0) by lia. rewrite E0 in *.
           change (- (0 - 1)) with 1. change (2 ^ 1) with 2.
           change (2 ^ 0) with 1 in *. nia.
      * replace (la - lb - 1 + 1) with (la - lb) by lia.
        unfold reaches. rewrite (proj2 (Z.leb_le 0 _)) by lia. lia.
  - assert (E : 2 ^ lb = 2 ^ la * 2 ^ (- (la - lb))).
    { rewrite <- pow2_split by lia. f_equal. lia. }
    pose proof (pow2_pos (- (la - lb))) as Hpl.
    destruct (Z.leb_spec b (a * 2 ^ (- (la - lb)))) as [Ht | Ht].
    + split.
      * unfold reaches. by rewrite (proj2 (Z.leb_gt _ _)) by lia.
      * unfold reaches. destruct (Z.leb_spec 0 (la - lb + 1)) as [H1 | H1].
        -- assert (E0 : la - lb = -1) by lia. rewrite E0 in *.
           change (-1 + 1) with 0. change (2 ^ 0) with 1.
           change (- -1) with 1 in *. change (2 ^ 1) with 2 in *. nia.
        -- assert (E1 : 2 ^ (- (la - lb)) = 2 ^ (- (la - lb + 1)) * 2).
           { replace (- (la - lb)) with (- (la - lb + 1) + 1) at 1 by lia.
             by rewrite pow2_split by lia. }
           pose proof (pow2_pos (- (la - lb + 1))). nia.
    + split.
      * unfold reaches. rewrite (proj2 (Z.leb_gt _ _)) by lia.
        replace (- (la - lb - 1)) with (- (la - lb) + 1) by lia.
        rewrite pow2_split by lia. change (2 ^ 1) with 2. nia.
      * replace (la - lb - 1 + 1) with (la - lb) by lia.
        unfold reaches. rewrite (proj2 (Z.leb_gt _ _)) by lia. lia.
Qed.

Lemma floorLog2_ge (a b t : Z) :
  0 < a -> 0 < b -> reaches a b t -> t <= floorLog2 a b.
Proof.
  intros Ha Hb Hr. destruct (floorLog2_spec a b Ha Hb) as [_ Hn].
  destruct (Z_le_gt_dec t (floorLog2 a b)) as [|Hgt]; [done|].
  exfalso. apply Hn. apply (reaches_mono a b t); [done | done | lia | done].
Qed.

Lemma floorLog2_lt (a b t : Z) :
  0 < a -> 0 < b -> ~ reaches a b t -> floorLog2 a b < t.
Proof.
  intros Ha Hb Hr. destruct (floorLog2_spec a b Ha Hb) as [Hy _].
  destruct (Z_lt_le_dec (floorLog2 a b) t) as [|Hle]; [done|].
  exfalso. apply Hr. by apply (reaches_mono a b (floorLog2 a b)).
Qed.

Lemma roundHalfEven_exact (q d : Z) : 0 < d -> roundHalfEven (q * d) d = q.
Proof.
  intros Hd. unfold roundHalfEven. rewrite Z.div_mul, Z.mod_mul by lia.
  by rewrite (proj2 (Z.ltb_lt (2 * 0) d)) by lia.
Qed.

Lemma roundHalfEven_at_least (num den L : Z) :
  0 < den -> L * den <= num -> L <= roundHalfEven num den.
Proof.
  intros Hd H. etrans; [|apply roundHalfEven_lower].
  apply Z.div_le_lower_bound; lia.
Qed.

Lemma roundHalfEven_at_most (num den U : Z) :
  0 < den -> num < U * den -> roundHalfEven num den <= U.
Proof.
  intros Hd H. assert (num / den < U) by (apply Z.div_lt_upper_bound; lia).
  unfold roundHalfEven.
  destruct (2 * (num mod den) <? den); [lia|].
  destruct (den <? 2 * (num mod den)); [lia|].
  destruct (Z.even (num / den)); lia.
Qed.

(** The significand at the exponent [e0], before it is cut to 53 bits. *)
Lemma scaled_bounds (a b e0 t : Z) :
  0 < a -> 0 < b -> 0 <= t ->
  (reaches a b (t + e0) ->
   2 ^ t <= (if 0 <=? e0 then roundHalfEven a (b * 2 ^ e0)
             else roundHalfEven (a * 2 ^ (- e0)) b)) /\
  (~ reaches a b (t + e0) ->
   (if 0 <=? e0 then roundHalfEven a (b * 2 ^ e0)
    else roundHalfEven (a * 2 ^ (- e0)) b) <= 2 ^ t).
Proof.
  intros Ha Hb Ht. destruct (Z.leb_spec 0 e0) as [He | He].
  - pose proof (pow2_pos e0 He) as Hp.
    rewrite <- (reaches_scale_den a b t e0) by lia.
    unfold reaches. rewrite (proj2 (Z.leb_le 0 t)) by lia. split; intros H.
    + apply roundHalfEven_at_least; nia.
    + apply roundHalfEven_at_most; nia.
  - assert (Hp : 0 < 2 ^ (- e0)) by (apply pow2_pos; lia).
    replace (t + e0) with (t - - e0) by lia.
    rewrite <- (reaches_scale_num a b t (- e0)) by lia.
    unfold reaches. rewrite (proj2 (Z.leb_le 0 t)) by lia. split; intros H.
    + apply roundHalfEven_at_least; nia.
    + apply roundHalfEven_at_most; nia.
Qed.

Lemma scaled_nonneg (a b e0 : Z) :
  0 < a -> 0 < b ->
  0 <= (if 0 <=? e0 then roundHalfEven a (b * 2 ^ e0)
        else roundHalfEven (a * 2 ^ (- e0)) b).
Proof.
  intros Ha Hb. destruct (Z.leb_spec 0 e0) as [He | He].
  - pose proof (pow2_pos e0 He). etrans; [|apply roundHalfEven_lower].
    apply Z.div_pos; nia.
  - assert (0 < 2 ^ (- e0)) by (apply pow2_pos; lia).
    etrans; [|apply roundHalfEven_lower]. apply Z.div_pos; nia.
Qed.

(** What [binary64_of_ratio] returns is a double. *)
Lemma binary64_of_ratio_representable (a b m e : Z) :
  0 < a -> 0 < b -> binary64_of_ratio a b = B64finite m e -> representable m e.
Proof.
  intros Ha Hb. unfold binary64_of_ratio. cbv zeta.
  rewrite (proj2 (Z.eqb_neq a 0)) by lia.
  destruct (floorLog2_spec a b Ha Hb) as [Hlow Hup].
  set (fl := floorLog2 a b) in *.
  set (e0 := Z.max (fl - 52) (-1074)).
  pose proof (scaled_nonneg a b e0 Ha Hb) as H0.
  destruct (scaled_bounds a b e0 52 Ha Hb) as [H52 H52'];  [lia|].
  destruct (scaled_bounds a b e0 53 Ha Hb) as [_ H53']; [lia|].
  set (m0 := if 0 <=? e0 then roundHalfEven a (b * 2 ^ e0)
             else roundHalfEven (a * 2 ^ (- e0)) b) in *.
  assert (Hcases : (e0 = fl - 52 /\ 2 ^ 52 <= m0 <= 2 ^ 53) \/
                   (e0 = -1074 /\ m0 <= 2 ^ 52)).
  { destruct (Z_le_gt_dec (-1074) (fl - 52)) as [Hn | Hs].
    - left. assert (E0 : e0 = fl - 52) by (subst e0; lia). split; [done|]. split.
      + apply H52. by replace (52 + e0) with fl by lia.
      + apply H53'. by replace (53 + e0) with (fl + 1) by lia.
    - right. assert (E0 : e0 = -1074) by (subst e0; lia). split; [done|].
      apply H52'. intros Hr. apply Hup.
      apply (reaches_mono a b (52 + e0)); [done | done | lia | done]. }
  assert (He0 : -1074 <= e0) by (subst e0; lia).
  clearbody m0 e0. clear H52 H52' H53'.
  destruct (Z.eqb_spec m0 (2 ^ 53)) as [Em | Em].
  - change (2 ^ 52 =? 0) with false. cbv iota.
    destruct (Z.ltb_spec 971 (e0 + 1)); [done|]. intros [= <- <-].
    left. lia.
  - destruct (Z.eqb_spec m0 0) as [Ez | Ez]; [done|].
    destruct (Z.ltb_spec 971 e0); [done|]. intros [= <- <-].
    destruct Hcases as [[_ Hm] | [-> Hm]].
    + left. lia.
    + destruct (Z.eq_dec m0 (2 ^ 52)); [left | right]; lia.
Qed.

(** A double is what [binary64_of_ratio] returns for its own value. *)
Lemma binary64_of_ratio_exact (a b m e : Z) :
  0 < a -> 0 < b -> representable m e ->
  (if 0 <=? e then a = m * (b * 2 ^ e) else a * 2 ^ (- e) = m * b) ->
  binary64_of_ratio a b = B64finite m e.
Proof.
  intros Ha Hb Hrep Hexact.
  assert (Hr : forall t, 0 <= t -> reaches a b (t + e) <-> 2 ^ t <= m).
  { intros t Ht. pose proof (pow2_pos t Ht).
    destruct (Z.leb_spec 0 e) as [He | He].
    - pose proof (pow2_pos e He).
      rewrite <- (reaches_scale_den a b t e) by lia.
      unfold reaches. rewrite (proj2 (Z.leb_le 0 t)) by lia. rewrite Hexact. nia.
    - assert (0 < 2 ^ (- e)) by (apply pow2_pos; lia).
      replace (t + e) with (t - - e) by lia.
      rewrite <- (reaches_scale_num a b t (- e)) by lia.
      unfold reaches. rewrite (proj2 (Z.leb_le 0 t)) by lia. rewrite Hexact. nia. }
  assert (Hm0 : (if 0 <=? e then roundHalfEven a (b * 2 ^ e)
                 else roundHalfEven (a * 2 ^ (- e)) b) = m).
  { destruct (Z.leb_spec 0 e) as [He | He]; rewrite Hexact.
    - pose proof (pow2_pos e He). apply roundHalfEven_exact. nia.
    - by apply roundHalfEven_exact. }
  assert (He0 : Z.max (floorLog2 a b - 52) (-1074) = e).
  { destruct Hrep as [[Hm He] | [Hm ->]].
    - assert (52 + e <= floorLog2 a b).
      { apply floorLog2_ge; [done | done |]. apply Hr; lia. }
      assert (floorLog2 a b < 53 + e).
      { apply floorLog2_lt; [done | done |]. rewrite Hr by lia. lia. }
      lia.
    - assert (floorLog2 a b < 52 + -1074).
      { apply floorLog2_lt; [done | done |]. rewrite Hr by lia. lia. }
      lia. }
  unfold binary64_of_ratio. cbv zeta.
  rewrite (proj2 (Z.eqb_neq a 0)) by lia. rewrite He0, Hm0.
  assert (0 < m < 2 ^ 53 /\ e <= 971) by (unfold representable in Hrep; lia).
  rewrite (proj2 (Z.eqb_neq m (2 ^ 53))) by lia.
  rewrite (proj2 (Z.eqb_neq m 0)) by lia.
  by rewrite (proj2 (Z.ltb_ge 971 e)) by lia.
Qed.

Lemma pow_pos_base (c t : Z) : 0 < c -> 0 <= t -> 0 < c ^ t.
Proof. intros. by apply Z.pow_pos_nonneg. Qed.

(** [binary64_of_decimal] on a decimal whose value [D * 10^(n - k)] is the
    double [m * 2^e]; the equation is multiplied out. *)
Lemma binary64_of_decimal_exact (ds : list N) (n m e : Z) :
  digits_value ds <> 0%N -> -324 <= n <= 310 -> representable m e ->
  Z.of_N (digits_value ds) * 10 ^ Z.max (n - Z.of_nat (length ds)) 0
    * 2 ^ Z.max (- e) 0
  = m * 10 ^ Z.max (Z.of_nat (length ds) - n) 0 * 2 ^ Z.max e 0 ->
  binary64_of_decimal ds n = B64finite m e.
Proof.
  intros HD Hn Hrep Heq. unfold binary64_of_decimal. cbv zeta.
  rewrite (proj2 (Z.eqb_neq _ 0)) by lia.
  rewrite (proj2 (Z.ltb_ge 310 n)) by lia.
  rewrite (proj2 (Z.ltb_ge n (-324))) by lia.
  set (k := Z.of_nat (length ds)) in *. set (D := Z.of_N (digits_value ds)) in *.
  assert (HDpos : 0 < D) by (subst D; lia).
  destruct (Z.leb_spec k n) as [Hk | Hk].
  - rewrite (Z.max_l (n - k) 0), (Z.max_r (k - n) 0) in Heq by lia.
    change (10 ^ 0) with 1 in Heq.
    assert (0 < 10 ^ (n - k)) by (apply pow_pos_base; lia).
    apply binary64_of_ratio_exact; [nia | lia | done |].
    destruct (Z.leb_spec 0 e) as [He | He].
    + rewrite (Z.max_r (- e) 0), (Z.max_l e 0) in Heq by lia.
      change (2 ^ 0) with 1 in Heq. lia.
    + rewrite (Z.max_l (- e) 0), (Z.max_r e 0) in Heq by lia.
      change (2 ^ 0) with 1 in Heq. lia.
  - rewrite (Z.max_r (n - k) 0), (Z.max_l (k - n) 0) in Heq by lia.
    change (10 ^ 0) with 1 in Heq.
    assert (0 < 10 ^ (k - n)) by (apply pow_pos_base; lia).
    apply binary64_of_ratio_exact; [lia | lia | done |].
    destruct (Z.leb_spec 0 e) as [He | He].
    + rewrite (Z.max_r (- e) 0), (Z.max_l e 0) in Heq by lia.
      change (2 ^ 0) with 1 in Heq. lia.
    + rewrite (Z.max_l (- e) 0), (Z.max_r e 0) in Heq by lia.
      change (2 ^ 0) with 1 in Heq. lia.
Qed.

Local Close Scope Z_scope.

(** The decimal of a positive integer: digits without a zero at either end,
    then zeros. *)
Lemma decimal_value_split (v : N) :
  v <> 0 ->
  exists z,
    decimal v = stripTrailingZeros (decimal v) ++ repeat 48 z /\
    trimmedDigits (stripTrailingZeros (decimal v)) = true /\
    v = digits_value (stripTrailingZeros (decimal v)) * 10 ^ N.of_nat z.
Proof.
  intros Hv. destruct (decimal_head _ Hv) as (d & l & Ed & Hd).
  pose proof (decimal_isDigit v) as Hdig.
  destruct (strip_trimmed (decimal v)) as [[_ E0] | [Ht (z & Et)]];
    [done | by rewrite Ed | by rewrite Ed in E0 |].
  exists z. split; [done|]. split; [done|].
  rewrite <- (digits_value_decimal v) at 1. rewrite Et at 1.
  rewrite Et, forallb_app in Hdig. apply andb_true_iff in Hdig as [Hdig _].
  rewrite digits_value_app, repeat_length, digits_value_zeros;
    [lia | done | apply repeat_zero_isDigit].
Qed.

Lemma decimal_length_bounds (v : N) :
  v <> 0 ->
  (10 ^ Z.of_nat (length (decimal v)) <= 10 * Z.of_N v /\
   Z.of_N v < 10 ^ Z.of_nat (length (decimal v)))%Z.
Proof.
  intros Hv. destruct (decimal_magnitude v Hv) as [H1 H2].
  apply N2Z.inj_le in H1. apply N2Z.inj_lt in H2.
  rewrite N2Z.inj_mul, N2Z.inj_pow in H1. rewrite N2Z.inj_pow in H2.
  rewrite nat_N_Z in H1, H2. done.
Qed.

Local Open Scope Z_scope.

Lemma pow10_split (s t : Z) : 0 <= s -> 0 <= t -> 10 ^ (s + t) = 10 ^ s * 10 ^ t.
Proof. intros. by apply Z.pow_add_r. Qed.

Lemma pow10_2_5 (t : Z) : 10 ^ t = 2 ^ t * 5 ^ t.
Proof. change 10 with (2 * 5). apply Z.pow_mul_l. Qed.

(** The exact decimal of a double reads as that double. *)
Lemma exactDecimal_reads_back (m e : Z) :
  representable m e ->
  binary64_of_decimal (stripTrailingZeros (fst (exactDecimal m e)))
    (snd (exactDecimal m e))
  = B64finite m e.
Proof.
  intros Hrep.
  assert (Hm : 0 < m < 2 ^ 53 /\ -1074 <= e <= 971) by (unfold representable in Hrep; lia).
  unfold exactDecimal. destruct (Z.leb_spec 0 e) as [He | He]; cbn [fst snd].
  - assert (Hp : 0 < 2 ^ e) by (by apply pow2_pos).
    assert (Hpe : 2 ^ e <= 2 ^ 971) by (apply Z.pow_le_mono_r; lia).
    set (V := m * 2 ^ e) in *. assert (HV : 0 < V) by (subst V; nia).
    assert (Hv : Z.to_N V <> 0%N) by lia.
    destruct (decimal_value_split _ Hv) as (z & HE & Ht & Hval).
    destruct (decimal_length_bounds _ Hv) as [Hl1 Hl2].
    rewrite Z2N.id in Hl1, Hl2 by lia.
    apply (f_equal Z.of_N) in Hval.
    rewrite Z2N.id, N2Z.inj_mul, N2Z.inj_pow, nat_N_Z in Hval by lia.
    change (Z.of_N 10) with 10 in Hval.
    assert (Hlen : length (decimal (Z.to_N V))
                   = (length (stripTrailingZeros (decimal (Z.to_N V))) + z)%nat).
    { rewrite HE at 1. by rewrite length_app, repeat_length. }
    set (E' := stripTrailingZeros (decimal (Z.to_N V))) in *.
    set (len := length (decimal (Z.to_N V))) in *.
    assert (Hz : 0 < 10 ^ Z.of_nat z) by (apply pow_pos_base; lia).
    assert (Hbig : 2 ^ 53 * 2 ^ 971 < 10 ^ 309) by (by vm_compute).
    assert (Hlen309 : Z.of_nat len <= 309).
    { destruct (Z_le_gt_dec (Z.of_nat len) 309) as [|Hgt]; [done|]. exfalso.
      assert (10 ^ 310 <= 10 ^ Z.of_nat len) by (apply Z.pow_le_mono_r; lia).
      assert (E10 : 10 ^ 310 = 10 * 10 ^ 309) by (by vm_compute).
      assert (V < 2 ^ 53 * 2 ^ 971) by (subst V; nia). lia. }
    apply binary64_of_decimal_exact; [lia | lia | done |].
    rewrite Hlen.
    rewrite (Z.max_l _ 0), (Z.max_r (- e) 0), (Z.max_r _ 0), (Z.max_l e 0) by lia.
    replace (Z.of_nat (length E' + z) - Z.of_nat (length E')) with (Z.of_nat z) by lia.
    change (2 ^ 0) with 1. change (10 ^ 0) with 1. subst V. lia.
  - assert (Hp5 : 0 < 5 ^ (- e)) by (apply pow_pos_base; lia).
    assert (Hp2 : 0 < 2 ^ (- e)) by (apply pow_pos_base; lia).
    assert (Hp10 : 0 < 10 ^ (- e)) by (apply pow_pos_base; lia).
    pose proof (pow10_2_5 (- e)) as H10.
    set (V := m * 5 ^ (- e)) in *. assert (HV : 0 < V) by (subst V; nia).
    assert (Hv : Z.to_N V <> 0%N) by lia.
    destruct (decimal_value_split _ Hv) as (z & HE & Ht & Hval).
    destruct (decimal_length_bounds _ Hv) as [Hl1 Hl2].
    rewrite Z2N.id in Hl1, Hl2 by lia.
    apply (f_equal Z.of_N) in Hval.
    rewrite Z2N.id, N2Z.inj_mul, N2Z.inj_pow, nat_N_Z in Hval by lia.
    change (Z.of_N 10) with 10 in Hval.
    assert (Hlen : length (decimal (Z.to_N V))
                   = (length (stripTrailingZeros (decimal (Z.to_N V))) + z)%nat).
    { rewrite HE at 1. by rewrite length_app, repeat_length. }
    set (E' := stripTrailingZeros (decimal (Z.to_N V))) in *.
    set (len := length (decimal (Z.to_N V))) in *.
    assert (Hz : 0 < 10 ^ Z.of_nat z) by (apply pow_pos_base; lia).
    assert (Hupper : Z.of_nat len + e <= 16).
    { destruct (Z_le_gt_dec (Z.of_nat len + e) 16) as [|Hgt]; [done|]. exfalso.
      assert (H17 : 10 ^ (17 + - e) <= 10 ^ Z.of_nat len)
        by (apply Z.pow_le_mono_r; lia).
      rewrite pow10_split in H17 by lia.
      assert (2 ^ 53 < 10 ^ 16) by (by vm_compute).
      assert (E17 : 10 ^ 17 = 10 * 10 ^ 16) by (by vm_compute).
      assert (2 ^ (- e) >= 1) by lia.
      assert (V < 10 ^ 16 * 10 ^ (- e)) by (subst V; nia). nia. }
    assert (Hlower : -324 <= Z.of_nat len + e).
    { destruct (Z_le_gt_dec (-324) (Z.of_nat len + e)) as [|Hgt]; [done|]. exfalso.
      assert (Hle : 10 ^ Z.of_nat len <= 10 ^ (- e - 325))
        by (apply Z.pow_le_mono_r; lia).
      assert (Esplit : 10 ^ (- e) = 10 ^ (- e - 325) * 10 ^ 325).
      { rewrite <- pow10_split by lia. f_equal. lia. }
      assert (H2 : 2 ^ (- e) <= 2 ^ 1074) by (apply Z.pow_le_mono_r; lia).
      assert (Hc : 2 ^ 1074 < 10 ^ 325) by (by vm_compute).
      assert (0 < 10 ^ 325) by (by vm_compute).
      assert (5 ^ (- e) <= V) by (subst V; nia).
      assert (H5 : 5 ^ (- e) < 10 ^ (- e - 325)) by lia.
      assert (5 ^ (- e) * 10 ^ 325 < 2 ^ (- e) * 5 ^ (- e)) by nia.
      nia. }
    apply binary64_of_decimal_exact; [lia | lia | done |].
    rewrite (Z.max_l (- e) 0), (Z.max_r e 0) by lia. change (2 ^ 0) with 1.
    rewrite Hlen.
    replace (Z.of_nat (length E' + z) + e - Z.of_nat (length E'))
      with (Z.of_nat z + e) by lia.
    replace (Z.of_nat (length E') - (Z.of_nat (length E' + z) + e))
      with (- (Z.of_nat z + e)) by lia.
    set (D := Z.of_N (digits_value E')) in *.
    destruct (Z_le_gt_dec 0 (Z.of_nat z + e)) as [Hze | Hze].
    + rewrite (Z.max_l _ 0), (Z.max_r _ 0) by lia. change (10 ^ 0) with 1.
      assert (Ez : 10 ^ Z.of_nat z = 10 ^ (Z.of_nat z + e) * 10 ^ (- e)).
      { rewrite <- pow10_split by lia. f_equal. lia. }
      assert (0 < 10 ^ (Z.of_nat z + e)) by (apply pow_pos_base; lia).
      apply (Z.mul_reg_r _ _ (5 ^ (- e))); [lia|].
      subst V. rewrite Ez, H10 in Hval. lia.
    + rewrite (Z.max_r _ 0), (Z.max_l _ 0) by lia. change (10 ^ 0) with 1.
      assert (Ez : 10 ^ (- e) = 10 ^ (- (Z.of_nat z + e)) * 10 ^ Z.of_nat z).
      { rewrite <- pow10_split by lia. f_equal. lia. }
      apply (Z.mul_reg_r _ _ (10 ^ Z.of_nat z)); [lia|].
      subst V. rewrite H10 in Ez. nia.
Qed.

Local Close Scope Z_scope.

Lemma binary64_of_decimal_representable (ds : list N) (n m e : Z) :
  binary64_of_decimal ds n = B64finite m e -> representable m e.
Proof.
  unfold binary64_of_decimal. cbv zeta.
  destruct (Z.eqb_spec (Z.of_N (digits_value ds)) 0) as [|HD]; [done|].
  destruct (310 <? n)%Z; [done|]. destruct (n <? -324)%Z; [done|].
  destruct (Z.leb_spec (Z.of_nat (length ds)) n) as [Hk | Hk].
  - apply binary64_of_ratio_representable; [|lia].
    assert (0 < 10 ^ (n - Z.of_nat (length ds)))%Z by (apply pow_pos_base; lia). nia.
  - apply binary64_of_ratio_representable; [lia|]. apply pow_pos_base; lia.
Qed.

Lemma shortestFrom_total (m e : Z) (E : list N) (n0 : Z) :
  binary64_of_decimal (stripTrailingZeros E) n0 = B64finite m e ->
  forall fuel k,
    (k <= length E)%nat -> (length E - k < fuel)%nat ->
    exists r, shortestFrom fuel k m e E n0 = Some r.
Proof.
  intros Hback. induction fuel as [|fuel IH]; intros k Hk Hf; [lia|].
  cbn [shortestFrom]. cbv zeta.
  destruct (decide (k = length E)) as [-> | Hne].
  - rewrite firstn_all, Hback, binary64_eqb_refl. cbn [andb].
    destruct (binary64_eqb _ _); [destruct (_ || _)|]; eauto.
  - destruct (binary64_eqb _ _); destruct (binary64_eqb _ _); cbn [andb];
      [destruct (_ || _)| | |]; eauto.
    apply IH; lia.
Qed.

(** Every double has its shortest digits: the search of [shortest] ends. *)
Lemma shortest_total (m e : Z) :
  representable m e -> exists ds n, shortest m e = Some (ds, n).
Proof.
  intros Hrep. pose proof (exactDecimal_reads_back m e Hrep) as Hback.
  assert (Hne : (1 <= length (fst (exactDecimal m e)))%nat).
  { unfold exactDecimal. destruct (0 <=? e)%Z; cbn [fst];
      match goal with |- context [decimal ?v] =>
        pose proof (decimal_nonempty v); destruct (decimal v); [done | simpl; lia]
      end. }
  unfold shortest. destruct (exactDecimal m e) as [E n0]. cbn [fst snd] in *.
  destruct (shortestFrom_total m e E n0 Hback (length E) 1) as [[ds n] H];
    [lia | lia | eauto].
Qed.

(** A literal that reads as a finite double other than zero is kept as the
    shortest digits of that double. *)
Lemma number_of_decimal_finite (neg : bool) (ds : list N) (n m e : Z) :
  binary64_of_decimal ds n = B64finite m e ->
  exists ds' n', shortest m e = Some (ds', n') /\
                 number_of_decimal neg ds n = Fin neg ds' n'.
Proof.
  intros Hb. pose proof (binary64_of_decimal_representable _ _ _ _ Hb) as Hrep.
  destruct (shortest_total m e Hrep) as (ds' & n' & Hs).
  exists ds', n'. split; [done|]. unfold number_of_decimal. by rewrite Hb, Hs.
Qed.

(** The value of digits without a zero at the front, between the powers of
    ten. *)
Lemma trimmed_value_bounds (ds : list N) :
  trimmedDigits ds = true ->
  (10 ^ (Z.of_nat (length ds) - 1) <= Z.of_N (digits_value ds)
   /\ Z.of_N (digits_value ds) < 10 ^ Z.of_nat (length ds))%Z.
Proof.
  intros Ht. destruct (trimmed_digits ds Ht) as (Hdig & (d & l & -> & Hd) & _).
  pose proof (digits_value_bound _ Hdig) as Hup.
  pose proof Hdig as Hdig'. simpl in Hdig'. apply andb_true_iff in Hdig' as [Hd1 _].
  pose proof (mathInt_lower d l Hd1 Hd) as Hlow.
  rewrite mathInt_digits_value in Hlow by done.
  apply N2Z.inj_le in Hlow. apply N2Z.inj_lt in Hup.
  rewrite N2Z.inj_pow, nat_N_Z in Hlow, Hup. change (Z.of_N 10) with 10%Z in *.
  split; [|done]. simpl length.
  replace (Z.of_nat (S (length l)) - 1)%Z with (Z.of_nat (length l)) by lia. done.
Qed.

Local Open Scope Z_scope.

(** Beyond [10^310] and below [10^-324] the division gives what
    [binary64_of_decimal] answers without it. *)
Lemma binary64_of_decimal_unguarded (ds : list N) (n : Z) :
  trimmedDigits ds = true ->
  binary64_of_decimal ds n
  = if Z.of_nat (length ds) <=? n
    then binary64_of_ratio (Z.of_N (digits_value ds) * 10 ^ (n - Z.of_nat (length ds))) 1
    else binary64_of_ratio (Z.of_N (digits_value ds)) (10 ^ (Z.of_nat (length ds) - n)).
Proof.
  intros Ht. destruct (trimmed_value_bounds ds Ht) as [Hlow Hup].
  assert (Hk : 1 <= Z.of_nat (length ds)).
  { destruct (trimmed_digits ds Ht) as (_ & (d & l & -> & _) & _). simpl. lia. }
  unfold binary64_of_decimal. cbv zeta.
  set (k := Z.of_nat (length ds)) in *. set (D := Z.of_N (digits_value ds)) in *.
  assert (Hk1 : 0 < 10 ^ (k - 1)) by (apply pow_pos_base; lia).
  rewrite (proj2 (Z.eqb_neq D 0)) by lia.
  destruct (Z.ltb_spec 310 n) as [Hbig | Hbig].
  - (* overflow *)
    symmetry.
    assert (Hab : exists a b, 0 < a /\ 0 < b /\ 10 ^ 310 * b <= a /\
                   (if k <=? n then binary64_of_ratio (D * 10 ^ (n - k)) 1
                    else binary64_of_ratio D (10 ^ (k - n)))
                   = binary64_of_ratio a b).
    { assert (E310 : 10 ^ (n - 1) = 10 ^ 310 * 10 ^ (n - 311)).
      { rewrite <- pow10_split by lia. f_equal. lia. }
      assert (0 < 10 ^ (n - 311)) by (apply pow_pos_base; lia).
      assert (0 < 10 ^ 310) by (by vm_compute).
      destruct (Z.leb_spec k n) as [Hkn | Hkn].
      - exists (D * 10 ^ (n - k)), 1.
        assert (0 < 10 ^ (n - k)) by (apply pow_pos_base; lia).
        assert (E : 10 ^ (n - 1) = 10 ^ (k - 1) * 10 ^ (n - k)).
        { rewrite <- pow10_split by lia. f_equal. lia. }
        repeat split; try nia.
      - exists D, (10 ^ (k - n)).
        assert (0 < 10 ^ (k - n)) by (apply pow_pos_base; lia).
        assert (E : 10 ^ (k - 1) = 10 ^ (n - 1) * 10 ^ (k - n)).
        { rewrite <- pow10_split by lia. f_equal. lia. }
        repeat split; try nia. }
    destruct Hab as (a & b & Ha & Hb & Hge & ->).
    assert (Hr : reaches a b 1024).
    { unfold reaches. change (0 <=? 1024) with true. cbv iota.
      assert (2 ^ 1024 < 10 ^ 310) by (by vm_compute). nia. }
    pose proof (floorLog2_ge a b 1024 Ha Hb Hr) as Hfl.
    destruct (floorLog2_spec a b Ha Hb) as [Hlo _].
    unfold binary64_of_ratio. cbv zeta. rewrite (proj2 (Z.eqb_neq a 0)) by lia.
    set (fl := floorLog2 a b) in *.
    rewrite Z.max_l by lia.
    destruct (scaled_bounds a b (fl - 52) 52 Ha Hb) as [H52 _]; [lia|].
    replace (52 + (fl - 52)) with fl in H52 by lia. specialize (H52 Hlo).
    set (m0 := if 0 <=? fl - 52 then roundHalfEven a (b * 2 ^ (fl - 52))
               else roundHalfEven (a * 2 ^ (- (fl - 52))) b) in *.
    clearbody m0. destruct (m0 =? 2 ^ 53).
    + change (2 ^ 52 =? 0) with false. cbv iota.
      by rewrite (proj2 (Z.ltb_lt 971 _)) by lia.
    + rewrite (proj2 (Z.eqb_neq m0 0)) by lia.
      by rewrite (proj2 (Z.ltb_lt 971 _)) by lia.
  - destruct (Z.ltb_spec n (-324)) as [Hsmall | Hsmall]; [|done].
    (* underflow *)
    symmetry. rewrite (proj2 (Z.leb_gt k n)) by lia.
    assert (Hb : 0 < 10 ^ (k - n)) by (apply pow_pos_base; lia).
    assert (Hlt : D * 2 ^ 1076 < 10 ^ (k - n)).
    { assert (E : 10 ^ (k - n) = 10 ^ k * 10 ^ 325 * 10 ^ (- n - 325)).
      { rewrite <- !pow10_split by lia. f_equal. lia. }
      assert (0 < 10 ^ (- n - 325)) by (apply pow_pos_base; lia).
      assert (0 < 10 ^ k) by (apply pow_pos_base; lia).
      assert (2 ^ 1076 < 10 ^ 325) by (by vm_compute).
      assert (0 < 2 ^ 1076) by (by vm_compute).
      rewrite E. nia. }
    set (b := 10 ^ (k - n)) in *.
    assert (HD : 0 < D) by lia.
    assert (Hnr : ~ reaches D b (-1076)).
    { unfold reaches. change (0 <=? -1076) with false. cbv iota.
      change (- -1076) with 1076. lia. }
    pose proof (floorLog2_lt D b (-1076) HD Hb Hnr) as Hfl.
    unfold binary64_of_ratio. cbv zeta. rewrite (proj2 (Z.eqb_neq D 0)) by lia.
    rewrite Z.max_r by lia. change (0 <=? -1074) with false. cbv iota.
    change (- -1074) with 1074.
    assert (E76 : 2 ^ 1076 = 4 * 2 ^ 1074) by (by vm_compute).
    assert (H74 : 0 < 2 ^ 1074) by (by vm_compute).
    assert (Hround : roundHalfEven (D * 2 ^ 1074) b = 0).
    { unfold roundHalfEven.
      rewrite Z.div_small, Z.mod_small by nia.
      by rewrite (proj2 (Z.ltb_lt _ _)) by nia. }
    rewrite Hround. done.
Qed.

Local Close Scope Z_scope.

Lemma span_all (p : N -> bool) (s : list N) :
  forallb p s = true -> span p s = (s, []).
Proof.
  induction s as [|c s IH]; [done|]. simpl. intros H.
  apply andb_true_iff in H as [-> H]. by rewrite IH.
Qed.

Lemma isDigit_isRadixDigit (s : list N) :
  forallb isDigit s = true -> forallb (isRadixDigit 10) s = true.
Proof.
  induction s as [|c s IH]; [done|]. simpl. intros H.
  apply andb_true_iff in H as [Hc H]. rewrite IH by done.
  unfold isRadixDigit. rewrite (isDigit_digitOf c Hc).
  apply isDigit_range in Hc. rewrite andb_true_r. apply N.ltb_lt. lia.
Qed.

Lemma parseInt_digits (neg : bool) (d : N) (ds : list N) :
  forallb isDigit (d :: ds) = true ->
  (isZeroDigit d = true -> ds = []) ->
  parseInt ((if neg then [45] else []) ++ d :: ds)
  = Some (if neg then (- Z.of_N (mathInt 10 (d :: ds)))%Z
          else Z.of_N (mathInt 10 (d :: ds))).
Proof.
  intros Hd Hz. pose proof (isDigit_isRadixDigit _ Hd) as Hr.
  pose proof (span_all _ _ Hr) as Hs.
  simpl in Hd. apply andb_true_iff in Hd as [Hd _].
  unfold parseInt. Opaque span mathInt.
  destruct (isDigit_cases d Hd)
    as [-> | [-> | [-> | [-> | [-> | [-> | [-> | [-> | [-> | ->]]]]]]]]];
    destruct neg; simpl app; cbn [trimStart isWhiteSpace];
    try (rewrite (Hz eq_refl) in *; vm_compute; reflexivity).
  all: simpl; rewrite Hs; try done.
  Transparent span mathInt.
Qed.

(** [parseInt] reads back the id a template literal printed. *)
Lemma parseInt_NumberToString (z : Z) :
  safeInteger z -> parseInt (NumberToString (number_of_Z z)) = Some z.
Proof.
  intros Hb. rewrite NumberToString_number_of_Z by done.
  pose proof (decimal_isDigit (Z.abs_N z)) as Hd.
  pose proof (mathInt_digits_value _ Hd) as Hv. rewrite digits_value_decimal in Hv.
  destruct (decimal (Z.abs_N z)) as [|d ds] eqn:E.
  { by destruct (decimal_nonempty (Z.abs_N z)). }
  rewrite (parseInt_digits (z <? 0)%Z d ds Hd).
  - rewrite Hv. f_equal. destruct (z <? 0)%Z eqn:Es; lia.
  - intros Hz0. destruct (decide (Z.abs_N z = 0)) as [E0 | Hk].
    + rewrite E0 in E. vm_compute in E. by injection E as <- <-.
    + destruct (decimal_head _ Hk) as (d' & ds' & E' & Hz').
      rewrite E in E'. injection E' as <- <-. congruence.
Qed.

Lemma NumberToString_number_of_Z_inj (a b : Z) :
  safeInteger a -> safeInteger b ->
  NumberToString (number_of_Z a) = NumberToString (number_of_Z b) -> a = b.
Proof.
  intros Ha Hb E. apply (f_equal parseInt) in E.
  rewrite !parseInt_NumberToString in E by done. congruence.
Qed.

Lemma idsValue_wellFormed (ids : list Z) :
  Forall safeInteger ids ->
  wellFormed (idsValue ids) = true /\ allFinite (idsValue ids) = true.
Proof.
  unfold idsValue. simpl. induction 1 as [|z ids Hz _ [IH1 IH2]]; [done|].
  simpl. apply number_of_Z_wellFormed in Hz as [-> ->]. done.
Qed.

(** X21: the requests deleteRule and evaluateRule send for a rule end in the
    plain decimal of its id, so the requests for two rules whose ids are safe
    integers never go to the same URL. *)
Theorem rule_urls_tell_rules_apart (a b : Z) (v v' : jsval) :
  safeInteger a -> safeInteger b ->
  (url (deleteRequest a) = url (deleteRequest b) -> a = b) /\
  (url (evaluateRequest a v) = url (evaluateRequest b v') -> a = b) /\
  url (deleteRequest a)
  = js "http://localhost:8000/rules/"
    ++ (if (a <? 0)%Z then js "-" else []) ++ decimal (Z.abs_N a) /\
  url (evaluateRequest a v)
  = js "http://localhost:8000/rules/evaluate/"
    ++ (if (a <? 0)%Z then js "-" else []) ++ decimal (Z.abs_N a).
Proof.
  intros Ha Hb.
  unfold deleteRequest, evaluateRequest. simpl.
  repeat split.
  - intros E. apply app_inv_head in E. apply app_inv_head in E.
    by apply NumberToString_number_of_Z_inj.
  - intros E. apply app_inv_head in E. apply app_inv_head in E.
    by apply NumberToString_number_of_Z_inj.
  - rewrite NumberToString_number_of_Z by done. unfold BACKEND_URL.
    rewrite app_assoc, <- js_app. simpl. by destruct (a <? 0)%Z.
  - rewrite NumberToString_number_of_Z by done. unfold BACKEND_URL.
    rewrite app_assoc, <- js_app. simpl. by destruct (a <? 0)%Z.
Qed.

Lemma rule_urls_tell_rules_apart_witness :
  url (deleteRequest 7) = js "http://localhost:8000/rules/7" /\
  url (evaluateRequest (-12) VNull) = js "http://localhost:8000/rules/evaluate/-12" /\
  (url (deleteRequest 7) = url (deleteRequest 7) -> 7 = 7)%Z.
Proof.
  assert (H7 : safeInteger 7) by (unfold safeInteger; lia).
  assert (H12 : safeInteger (-12)) by (unfold safeInteger; lia).
  destruct (rule_urls_tell_rules_apart 7 7 VNull VNull H7 H7) as (Hd & _ & Hu & _).
  destruct (rule_urls_tell_rules_apart (-12) 7 VNull VNull H12 H7) as (_ & _ & _ & Hv).
  split; [exact Hu | split; [exact Hv | exact Hd]].
Defined.

(** ** The connection check and the listing *)

(** X1: checkBackendConnection never throws, whatever the backend does: it
    sends the health request, returns whether the answer was an ok response,
    sets the connection status to that, and stores the connection error
    exactly when it returns false; it changes nothing else. *)
Theorem checkBackendConnection_reports_health (w : World) (s : Sys) :
  fst (checkBackendConnection w s) = inr (healthy (w (healthRequest :: sent s))) /\
  sent (snd (checkBackendConnection w s)) = healthRequest :: sent s /\
  connectionStatus (ui (snd (checkBackendConnection w s)))
    = (if healthy (w (healthRequest :: sent s)) then connected else disconnected) /\
  error (ui (snd (checkBackendConnection w s)))
    = (if healthy (w (healthRequest :: sent s)) then error (ui s)
       else connectionError) /\
  rules (ui (snd (checkBackendConnection w s))) = rules (ui s) /\
  isLoading (ui (snd (checkBackendConnection w s))) = isLoading (ui s) /\
  listingFrame (ui (snd (checkBackendConnection w s))) (ui s).
Proof.
  rewrite checkBackendConnection_run.
  by destruct (w (healthRequest :: sent s)) as [e | [] code answer].
Qed.

(** X2: fetchRules never throws and always ends with the loading flag off; it
    sends the health request and at most the listing request after it, and
    touches only the rules, the error, the loading flag and the connection
    status.  The rules change only in a run that leaves the error empty: a
    failed refresh keeps the old listing and stores a message. *)
Theorem fetchRules_settles (w : World) (s : Sys) :
  fst (fetchRules w s) = inr tt /\
  isLoading (ui (snd (fetchRules w s))) = false /\
  listingFrame (ui (snd (fetchRules w s))) (ui s) /\
  (sent (snd (fetchRules w s)) = healthRequest :: sent s \/
   sent (snd (fetchRules w s)) = listRequest :: healthRequest :: sent s) /\
  (rules (ui (snd (fetchRules w s))) = rules (ui s) /\
   error (ui (snd (fetchRules w s))) <> [] \/
   error (ui (snd (fetchRules w s))) = []).
Proof.
  unfold fetchRules. unfold_handler. rewrite checkBackendConnection_run.
  assert (Hp : forall t, js "Failed to fetch rules: " ++ t <> []).
  { intros t E. apply (f_equal length) in E. rewrite length_app, js_length in E.
    simpl in E. lia. }
  pose proof connectionError_nonempty. simpl.
  destruct (w (healthRequest :: sent s)) as [e | [] st j]; simpl;
    [ | destruct (w (listRequest :: healthRequest :: sent s))
          as [e | [] st' [e | v rs]]; simpl | ];
    repeat split;
    solve [ done | by left | by right | left; split; [done | auto] ].
Qed.

(** X3: the outcomes of fetchRules.  When the health check fails, only the
    health request is sent, the status is disconnected, the rules stay and
    the error is the connection error.  When it passes, the listing request
    follows and the status is connected; an ok answer with a body replaces
    the rules by that body and clears the error; any other answer keeps the
    rules and stores [Failed to fetch rules: ] followed by the message of the
    exception, or by [HTTP error! status: ] and the status. *)
Theorem fetchRules_outcomes (w : World) (s : Sys) :
  (healthy (w (healthRequest :: sent s)) = false ->
   sent (snd (fetchRules w s)) = healthRequest :: sent s /\
   connectionStatus (ui (snd (fetchRules w s))) = disconnected /\
   rules (ui (snd (fetchRules w s))) = rules (ui s) /\
   error (ui (snd (fetchRules w s))) = connectionError) /\
  (healthy (w (healthRequest :: sent s)) = true ->
   sent (snd (fetchRules w s)) = listRequest :: healthRequest :: sent s /\
   connectionStatus (ui (snd (fetchRules w s))) = connected /\
   match w (listRequest :: healthRequest :: sent s) with
   | Response true _ (JsonValue _ listed) =>
     rules (ui (snd (fetchRules w s))) = listed /\
     error (ui (snd (fetchRules w s))) = []
   | Response true _ (JsonThrows e) | Rejected e =>
     rules (ui (snd (fetchRules w s))) = rules (ui s) /\
     error (ui (snd (fetchRules w s))) = fetchError e
   | Response false code _ =>
     rules (ui (snd (fetchRules w s))) = rules (ui s) /\
     error (ui (snd (fetchRules w s)))
       = js "Failed to fetch rules: HTTP error! status: "
         ++ NumberToString (number_of_Z code)
   end).
Proof.
  unfold fetchRules, fetchError. unfold_handler. rewrite checkBackendConnection_run.
  simpl.
  destruct (w (healthRequest :: sent s)) as [e | [] st j]; simpl;
    (split; [try done | try done; intros _]).
  destruct (w (listRequest :: healthRequest :: sent s))
    as [e | [] st' [e | v rs]]; simpl; try done.
  all: repeat split; try done.
  all: by rewrite js_app, <- app_assoc.
Qed.

Lemma fetchRules_outcomes_witness :
  rules (ui (snd (fetchRules unreachable (mkSys twoRules [])))) = rules twoRules /\
  error (ui (snd (fetchRules unreachable (mkSys twoRules [])))) = connectionError /\
  rules (ui (snd (fetchRules stocked (mkSys twoRules [])))) = [listedRule] /\
  error (ui (snd (fetchRules stocked (mkSys twoRules [])))) = [].
Proof.
  destruct (fetchRules_outcomes unreachable (mkSys twoRules [])) as [Hdown _].
  destruct (fetchRules_outcomes stocked (mkSys twoRules [])) as [_ Hup].
  destruct (Hdown eq_refl) as (_ & _ & H1 & H2).
  destruct (Hup eq_refl) as (_ & _ & H3).
  exact (conj H1 (conj H2 H3)).
Defined.

(** ** Rule creation *)

(** X4: when the health check passes, the draft passes validateRule and the
    backend answers the POST with an ok response, createRule sends that one
    POST, after the health request, and ends with the draft reset to the empty
    rule, the dialog closed and the submitting flag off, whatever the refresh
    of the listing does. *)
Theorem createRule_resets_the_form (w : World) (st : State) :
  healthy (w [healthRequest]) = true ->
  validateRule (newRule st) = inr tt ->
  healthy (w [createRequest (newRule st); healthRequest]) = true ->
  fst (run createRule w st) = inr tt /\
  operationsSent (snd (run createRule w st)) = [createRequest (newRule st)] /\
  endsWith (sent (snd (run createRule w st))) healthRequest /\
  newRule (ui (snd (run createRule w st))) = emptyRule /\
  showDialog (ui (snd (run createRule w st))) = false /\
  isSubmitting (ui (snd (run createRule w st))) = false.
Proof.
  intros Hh Hv Hc. unfold run, createRule. unfold_handler.
  rewrite checkBackendConnection_run. simpl.
  destruct (w [healthRequest]) as [e | [] code answer]; try done. simpl.
  rewrite Hv. simpl.
  destruct (w [createRequest (newRule st); healthRequest])
    as [e | [] code' answer']; try done. simpl.
  step_fetchRules. simpl. repeat split; try done.
  - by count_operations.
  - apply endsWith_app. exists [createRequest (newRule st)]. done.
Qed.

Lemma createRule_resets_the_form_witness :
  operationsSent (snd (run createRule serving draftState))
    = [createRequest (newRule draftState)] /\
  newRule (ui (snd (run createRule serving draftState))) = emptyRule /\
  showDialog (ui (snd (run createRule serving draftState))) = false.
Proof.
  destruct (createRule_resets_the_form serving draftState eq_refl eq_refl eq_refl)
    as (_ & H1 & _ & H2 & H3 & _).
  exact (conj H1 (conj H2 H3)).
Defined.

Ltac only_sent :=
  repeat (apply Forall_cons; split; [by (left + right) |]); apply Forall_nil; done.

(** X5: createRule always ends with the submitting flag off.  When the
    health check fails, the draft fails validateRule, or the POST is answered
    by a rejection or a response that is not ok, createRule ends normally with
    the draft, the dialog and the rules as they were, having sent nothing but
    the health request and that POST. *)
Theorem createRule_keeps_the_draft (w : World) (st : State) :
  isSubmitting (ui (snd (run createRule w st))) = false /\
  (healthy (w [healthRequest]) = false \/
   validateRule (newRule st) <> inr tt \/
   healthy (w [createRequest (newRule st); healthRequest]) = false ->
   fst (run createRule w st) = inr tt /\
   newRule (ui (snd (run createRule w st))) = newRule st /\
   showDialog (ui (snd (run createRule w st))) = showDialog st /\
   rules (ui (snd (run createRule w st))) = rules st /\
   Forall (fun r => r = healthRequest \/ r = createRequest (newRule st))
     (sent (snd (run createRule w st)))).
Proof.
  unfold run, createRule, detailError. unfold_handler.
  rewrite checkBackendConnection_run. simpl.
  split.
  - exec; done.
  - intros Hfail.
    destruct (w [healthRequest]) as [e | [] code answer] eqn:Eh; simpl;
      try (repeat split; try done; only_sent).
    destruct (validateRule (newRule st)) as [e | []] eqn:Ev; simpl;
      try (repeat split; try done; only_sent).
    destruct (w [createRequest (newRule st); healthRequest])
      as [e | [] code' answer'] eqn:Ec; simpl.
    + repeat split; try done. only_sent.
    + exfalso. destruct Hfail as [H | [H | H]]; done.
    + destruct answer' as [e | v rs]; simpl.
      * repeat split; try done. only_sent.
      * destruct (getProp v (js "detail")) as [e | d]; simpl;
          [repeat split; try done; only_sent|].
        destruct (if truthy d then ToString d else inr (js "Failed to create rule"));
          simpl; repeat split; try done; only_sent.
Qed.

Lemma createRule_keeps_the_draft_witness :
  newRule (ui (snd (run createRule refusing draftState))) = newRule draftState /\
  showDialog (ui (snd (run createRule refusing draftState))) = showDialog draftState /\
  newRule (ui (snd (run createRule unreachable draftState))) = newRule draftState.
Proof.
  destruct (createRule_keeps_the_draft refusing draftState) as [_ Hrefused].
  destruct (createRule_keeps_the_draft unreachable draftState) as [_ Hdown].
  destruct (Hrefused (or_intror (or_intror eq_refl))) as (_ & H1 & H2 & _).
  destruct (Hdown (or_introl eq_refl)) as (_ & H3 & _).
  exact (conj H1 (conj H2 H3)).
Defined.

(** X6: when the health check passes, a draft that fails validateRule is not
    posted, and the error is the message of the first test that fails: the
    name is blank, else the expression is blank, else the expression holds
    neither [AND] nor [OR]. *)
Theorem createRule_reports_validation (w : World) (st : State) :
  healthy (w [healthRequest]) = true ->
  (isEmpty (trim (Rule.name (newRule st))) = true ->
   sent (snd (run createRule w st)) = [healthRequest] /\
   error (ui (snd (run createRule w st))) = js "Rule name is required") /\
  (isEmpty (trim (Rule.name (newRule st))) = false ->
   isEmpty (trim (Rule.rule_string (newRule st))) = true ->
   sent (snd (run createRule w st)) = [healthRequest] /\
   error (ui (snd (run createRule w st))) = js "Rule expression is required") /\
  (isEmpty (trim (Rule.name (newRule st))) = false ->
   isEmpty (trim (Rule.rule_string (newRule st))) = false ->
   includes (Rule.rule_string (newRule st)) (js "AND") = false ->
   includes (Rule.rule_string (newRule st)) (js "OR") = false ->
   sent (snd (run createRule w st)) = [healthRequest] /\
   error (ui (snd (run createRule w st)))
   = js "Rule must contain at least one operator (AND/OR)").
Proof.
  intros Hh. unfold run, createRule, validateRule. unfold_handler.
  rewrite checkBackendConnection_run. simpl.
  destruct (w [healthRequest]) as [e | [] code answer]; try done. simpl.
  split; [|split].
  - by intros ->.
  - by intros -> ->.
  - by intros -> -> -> ->.
Qed.

Lemma createRule_reports_validation_witness :
  error (ui (snd (run createRule serving initialState))) = js "Rule name is required" /\
  error (ui (snd (run createRule serving
                    (setNewRule (Rule.mk None (js "seniors") [] (js "  ") None)
                       initialState))))
    = js "Rule expression is required" /\
  error (ui (snd (run createRule serving
                    (setNewRule (Rule.mk None (js "seniors") [] (js "age > 60") None)
                       initialState))))
    = js "Rule must contain at least one operator (AND/OR)".
Proof.
  destruct (createRule_reports_validation serving initialState eq_refl)
    as (H1 & _ & _).
  destruct (createRule_reports_validation serving
              (setNewRule (Rule.mk None (js "seniors") [] (js "  ") None) initialState)
              eq_refl) as (_ & H2 & _).
  destruct (createRule_reports_validation serving
              (setNewRule (Rule.mk None (js "seniors") [] (js "age > 60") None)
                 initialState)
              eq_refl) as (_ & _ & H3).
  split; [exact (proj2 (H1 eq_refl)) | split].
  - exact (proj2 (H2 eq_refl eq_refl)).
  - exact (proj2 (H3 eq_refl eq_refl eq_refl eq_refl)).
Defined.

Lemma stringify_parse (v : jsval) :
  wellFormed v = true -> allFinite v = true ->
  exists text, JSON.stringify v = Some text /\ JSON.parse text = Some v.
Proof.
  intros Hwf Hfin.
  Transparent JSON.stringify. unfold JSON.stringify. Opaque JSON.stringify.
  destruct (serialize_some [] [] v Hwf) as [t Ht]. exists t. split; [done|].
  by apply (parse_serialize v [] t).
Qed.

Lemma stringify_parse_nullify (v : jsval) :
  wellFormed v = true ->
  exists text, JSON.stringify v = Some text /\ JSON.parse text = Some (nullify v).
Proof.
  intros Hwf. destruct (nullify_wellFormed v Hwf) as (Hwf' & Hfin' & Hser).
  destruct (stringify_parse _ Hwf' Hfin') as (text & Ht & Hp).
  exists text. split; [|done].
  Transparent JSON.stringify. unfold JSON.stringify in *. Opaque JSON.stringify.
  by rewrite <- Hser.
Qed.

(** X7: the body of the creation request is JSON text that decodes to an
    object with exactly the members [name], [description] and [rule_string],
    in this order, holding the trimmed fields of the draft, whatever code
    units the fields hold. *)
Theorem createRequest_decodes (rule : Rule.t) :
  exists text,
    body (createRequest rule) = Some text /\
    JSON.parse text
    = Some (VObj [(js "name", VStr (trim (Rule.name rule)));
                  (js "description", VStr (trim (Rule.description rule)));
                  (js "rule_string", VStr (trim (Rule.rule_string rule)))]).
Proof.
  unfold createRequest. simpl. apply stringify_parse.
  - simpl. rewrite andb_true_r. vm_compute. reflexivity.
  - reflexivity.
Qed.

(** ** Combining and deleting *)

(** X8: combineRules posts the combination first, without a health check.
    When the answer is an ok response it ends with the selection empty, the
    combination form reset and its dialog closed, so the button Combine
    Selected Rules is disabled again; when the answer is a rejection or is
    not ok, nothing else is sent and the selection, the form, the dialog and
    the rules stay as they were. *)
Theorem combineRules_outcomes (w : World) (st : State) :
  endsWith (sent (snd (run combineRules w st)))
    (combineRequest (combineRuleData st) (selectedRules st)) /\
  (healthy (w [combineRequest (combineRuleData st) (selectedRules st)]) = true ->
   fst (run combineRules w st) = inr tt /\
   selectedRules (ui (snd (run combineRules w st))) = [] /\
   combineRuleData (ui (snd (run combineRules w st))) = emptyCombineRuleData /\
   showCombineDialog (ui (snd (run combineRules w st))) = false /\
   combineSelectedDisabled (ui (snd (run combineRules w st))) = true) /\
  (healthy (w [combineRequest (combineRuleData st) (selectedRules st)]) = false ->
   sent (snd (run combineRules w st))
     = [combineRequest (combineRuleData st) (selectedRules st)] /\
   selectedRules (ui (snd (run combineRules w st))) = selectedRules st /\
   combineRuleData (ui (snd (run combineRules w st))) = combineRuleData st /\
   showCombineDialog (ui (snd (run combineRules w st))) = showCombineDialog st /\
   rules (ui (snd (run combineRules w st))) = rules st).
Proof.
  unfold run, combineRules. unfold_handler. simpl.
  destruct (w [combineRequest (combineRuleData st) (selectedRules st)])
    as [e | [] code answer]; simpl.
  - split; [apply endsWith_one|]. split; [done|]. by intros _.
  - step_fetchRules. simpl. split; [apply endsWith_app, endsWith_one|].
    split; [|done]. by intros _.
  - split; [apply endsWith_one|]. split; [done|]. by intros _.
Qed.

Lemma combineRules_outcomes_witness :
  selectedRules
    (ui (snd (run combineRules serving (setSelectedRules [7; 8]%Z twoRules)))) = [] /\
  selectedRules
    (ui (snd (run combineRules refusing (setSelectedRules [7; 8]%Z twoRules))))
    = [7; 8]%Z.
Proof.
  destruct (combineRules_outcomes serving (setSelectedRules [7; 8]%Z twoRules))
    as (_ & Hok & _).
  destruct (combineRules_outcomes refusing (setSelectedRules [7; 8]%Z twoRules))
    as (_ & _ & Hrefused).
  destruct (Hok eq_refl) as (_ & H1 & _).
  destruct (Hrefused eq_refl) as (_ & H2 & _).
  exact (conj H1 H2).
Defined.

(** X9: the body of the combination request decodes to an object whose
    [rules] member is the list of the selected ids, whatever the [rules]
    of the form are, followed by the operator, the name and the description
    of the form; the ids are taken to be safe integers. *)
Theorem combineRequest_carries_the_selection
    (d : CombineRuleData.t) (selected : list Z) :
  Forall safeInteger selected ->
  exists text,
    body (combineRequest d selected) = Some text /\
    JSON.parse text
    = Some (VObj [(js "rules", idsValue selected);
                  (js "operator", connectiveValue (CombineRuleData.operator d));
                  (js "name", VStr (CombineRuleData.name d));
                  (js "description", VStr (CombineRuleData.description d))]).
Proof.
  intros Hs. destruct (idsValue_wellFormed _ Hs) as [Hwf Hfin].
  change (body (combineRequest d selected))
    with (JSON.stringify (VObj (JSON.defineProperty (js "rules") (idsValue selected)
                                  (combineRuleDataProps d)))).
  assert (E : JSON.defineProperty (js "rules") (idsValue selected)
                (combineRuleDataProps d)
              = [(js "rules", idsValue selected);
                 (js "operator", connectiveValue (CombineRuleData.operator d));
                 (js "name", VStr (CombineRuleData.name d));
                 (js "description", VStr (CombineRuleData.description d))]).
  { reflexivity. }
  rewrite E. apply stringify_parse.
  - unfold idsValue in *. simpl in *. rewrite Hwf.
    by destruct (CombineRuleData.operator d).
  - unfold idsValue in *. simpl in *. rewrite Hfin.
    by destruct (CombineRuleData.operator d).
Qed.

Lemma combineRequest_carries_the_selection_witness :
  exists text,
    body (combineRequest (CombineRuleData.mk [1]%Z Engine.OR (js "both") []) [7; 8]%Z)
      = Some text /\
    JSON.parse text
    = Some (VObj [(js "rules", idsValue [7; 8]%Z);
                  (js "operator", VStr (js "OR"));
                  (js "name", VStr (js "both"));
                  (js "description", VStr [])]).
Proof.
  apply (combineRequest_carries_the_selection
           (CombineRuleData.mk [1]%Z Engine.OR (js "both") []) [7; 8]%Z).
  repeat (apply Forall_cons; split; [unfold safeInteger; lia |]). by apply Forall_nil.
Defined.

(** X10: when the DELETE is answered by a rejection or by a response that is
    not ok, deleteRule ends normally having sent nothing else, and changes
    nothing but the error: the selection and the rules stay, and the error is
    [Failed to delete rule] or the message of the rejection. *)
Theorem deleteRule_failure_changes_nothing (ruleId : Z) (w : World) (st : State) :
  healthy (w [deleteRequest ruleId]) = false ->
  fst (run (deleteRule ruleId) w st) = inr tt /\
  sent (snd (run (deleteRule ruleId) w st)) = [deleteRequest ruleId] /\
  ui (snd (run (deleteRule ruleId) w st))
  = setError (match w [deleteRequest ruleId] with
              | Rejected e => surfaced (js "Failed to delete rule") e
              | Response _ _ _ => js "Failed to delete rule"
              end) st.
Proof.
  unfold run, deleteRule. unfold_handler. simpl.
  by destruct (w [deleteRequest ruleId]) as [e | [] code answer].
Qed.

Lemma deleteRule_failure_changes_nothing_witness :
  ui (snd (run (deleteRule 7) refusing (setSelectedRules [7; 8]%Z twoRules)))
  = setError (js "Failed to delete rule") (setSelectedRules [7; 8]%Z twoRules).
Proof.
  destruct (deleteRule_failure_changes_nothing 7 refusing
              (setSelectedRules [7; 8]%Z twoRules) eq_refl) as (_ & _ & H).
  exact H.
Defined.

(** ** Evaluation *)

(** X11: when the health check passes, the evaluation data denotes an array
    or an object, and the backend answers the evaluation with an ok response
    whose body has the property [result], evaluateRule stores that value
    under the rule's id and leaves the error empty.  The icon of the rule then
    shows whether the value is truthy, or nothing when it is [undefined] (the
    body has no [result]); the icons of the other rules stay as they were. *)
Theorem evaluateRule_stores_the_verdict
    (ruleId : Z) (w : World) (st : State) (v : jsval)
    (code : Z) (answer : jsval) (asRules : list Rule.t) (verdict : jsval) :
  healthy (w [healthRequest]) = true ->
  accepted (evaluationData st) v ->
  w [evaluateRequest ruleId v; healthRequest]
    = Response true code (JsonValue answer asRules) ->
  getProp answer (js "result") = inr verdict ->
  fst (run (evaluateRule ruleId) w st) = inr tt /\
  evaluationResults (ui (snd (run (evaluateRule ruleId) w st)))
    = <[ruleId := verdict]> (evaluationResults st) /\
  error (ui (snd (run (evaluateRule ruleId) w st))) = [] /\
  verdictIcon ruleId (ui (snd (run (evaluateRule ruleId) w st)))
    = match verdict with
      | VUndefined => None
      | _ => Some (if truthy verdict then CheckCircle else AlertCircle)
      end /\
  (forall other, other <> ruleId ->
     verdictIcon other (ui (snd (run (evaluateRule ruleId) w st)))
     = verdictIcon other st).
Proof.
  intros Hh Hv Hw Hr. unfold run, evaluateRule. unfold_handler.
  rewrite checkBackendConnection_run. simpl.
  destruct (w [healthRequest]) as [e | [] code0 answer0]; try done. simpl.
  match goal with
  | |- context [validateJsonData ?t ?w ?s] =>
    destruct (validateJsonData_run t w s) as [Hyes _]
  end.
  rewrite (Hyes v Hv). destruct Hv as [Hp _]. simpl. rewrite Hp. simpl.
  rewrite Hw. simpl. rewrite Hr. simpl.
  repeat split; try done.
  - unfold verdictIcon. simpl. rewrite lookup_insert.
    rewrite decide_True by done. done.
  - intros other Ho. unfold verdictIcon. simpl. by rewrite lookup_insert_ne.
Qed.

Lemma evaluateRule_stores_the_verdict_witness :
  evaluationResults (ui (snd (run (evaluateRule 7) stocked sampleData)))
    = <[7%Z := VBool false]> ∅ /\
  verdictIcon 7 (ui (snd (run (evaluateRule 7) stocked sampleData)))
    = Some AlertCircle /\
  verdictIcon 8 (ui (snd (run (evaluateRule 7) stocked sampleData))) = None.
Proof.
  assert (Hv : accepted (evaluationData sampleData)
                 (VObj [(js "b", VNum (Fin false [49] 2)); (js "a", VArr [VNull])])).
  { split; [vm_compute; reflexivity | right; reflexivity]. }
  destruct (evaluateRule_stores_the_verdict 7 stocked sampleData _ 200
              (VObj [(js "result", VBool false)]) [] (VBool false)
              eq_refl Hv eq_refl eq_refl) as (_ & H1 & _ & H2 & H3).
  split; [exact H1 | split; [exact H2 |]].
  rewrite (H3 8%Z) by lia. reflexivity.
Defined.

(** X12: evaluateRule never touches the stored verdict of another rule, and
    a run that ends with a message in the error state leaves the stored
    verdicts as they were. *)
Theorem evaluateRule_keeps_other_verdicts (ruleId : Z) (w : World) (st : State) :
  (forall other, other <> ruleId ->
     evaluationResults (ui (snd (run (evaluateRule ruleId) w st))) !! other
     = evaluationResults st !! other) /\
  (error (ui (snd (run (evaluateRule ruleId) w st))) <> [] ->
   evaluationResults (ui (snd (run (evaluateRule ruleId) w st)))
   = evaluationResults st).
Proof.
  unfold run, evaluateRule, detailError, validateJsonData. unfold_handler.
  rewrite checkBackendConnection_run. exec.
  all: split; [intros other Ho; simpl; try done; by rewrite lookup_insert_ne | done].
Qed.

Lemma evaluateRule_keeps_other_verdicts_witness :
  evaluationResults (ui (snd (run (evaluateRule 7) stocked sampleData))) !! 8%Z = None /\
  evaluationResults (ui (snd (run (evaluateRule 7) unreachable sampleData))) = ∅.
Proof.
  destruct (evaluateRule_keeps_other_verdicts 7 stocked sampleData) as [Hother _].
  destruct (evaluateRule_keeps_other_verdicts 7 unreachable sampleData) as [_ Hfailed].
  split.
  - rewrite (Hother 8%Z) by lia. reflexivity.
  - rewrite Hfailed; [reflexivity|]. vm_compute. discriminate.
Defined.

(** X13: the body of the evaluation request decodes to an object whose only
    member, [data], is the value the evaluation data denotes, with [null] in
    the place of every number beyond the range of a double. *)
Theorem evaluateRequest_carries_the_data (ruleId : Z) (text : list N) (v : jsval) :
  JSON.parse text = Some v ->
  exists sentText,
    body (evaluateRequest ruleId v) = Some sentText /\
    JSON.parse sentText = Some (VObj [(js "data", nullify v)]) /\
    (allFinite v = true -> JSON.parse sentText = Some (VObj [(js "data", v)])).
Proof.
  intros Hp. apply parse_is_wellFormed in Hp.
  destruct (stringify_parse_nullify (VObj [(js "data", v)])) as (t & Ht & Hb).
  { simpl. by rewrite Hp. }
  change (nullify (VObj [(js "data", v)])) with (VObj [(js "data", nullify v)]) in Hb.
  exists t. repeat split; try done.
  intros Hfin. by rewrite (nullify_finite v Hfin) in Hb.
Qed.

Lemma evaluateRequest_carries_the_data_witness :
  exists sentText,
    body (evaluateRequest 7
            (VObj [(js "b", VNum (Fin false [49] 2)); (js "a", VArr [VNull])]))
      = Some sentText /\
    JSON.parse sentText
    = Some (VObj [(js "data",
                   VObj [(js "b", VNum (Fin false [49] 2)); (js "a", VArr [VNull])])]).
Proof.
  destruct (evaluateRequest_carries_the_data 7 (evaluationData sampleData)
              (VObj [(js "b", VNum (Fin false [49] 2)); (js "a", VArr [VNull])]))
    as (t & H1 & _ & H2).
  - vm_compute. reflexivity.
  - exists t. split; [exact H1 | apply H2; reflexivity].
Defined.

(** X14: when the batch data denotes an array and the backend answers the
    batch request with an ok response and a body, evaluateBatch sends that
    one request and stores the [results] of the body as the batch results,
    [undefined] when the body has none; it changes nothing else, so a message
    that was in the error state stays there.  When the body has no properties
    to read ([null]), the error is the message of the [TypeError]. *)
Theorem evaluateBatch_stores_the_results
    (w : World) (st : State) (items : list jsval)
    (code : Z) (answer : jsval) (asRules : list Rule.t) :
  JSON.parse (batchData st) = Some (VArr items) ->
  w [batchRequest (rules st) (VArr items)]
    = Response true code (JsonValue answer asRules) ->
  (forall results,
     getProp answer (js "results") = inr results ->
     run evaluateBatch w st
     = (inr tt, mkSys (setBatchResults results st)
                       [batchRequest (rules st) (VArr items)])) /\
  (forall e,
     getProp answer (js "results") = inl e ->
     run evaluateBatch w st
     = (inr tt, mkSys (setError (message e) st)
                       [batchRequest (rules st) (VArr items)])).
Proof.
  intros Hp Hw. unfold run, evaluateBatch. unfold_handler.
  match goal with
  | |- context [validateJsonData ?t ?w ?s] =>
    destruct (validateJsonData_run t w s) as [Hyes _]
  end.
  rewrite (Hyes (VArr items)) by (split; [done | by left]).
  simpl. rewrite Hp. simpl. rewrite Hw. simpl.
  split.
  - by intros results ->.
  - intros e He. rewrite He. simpl.
    destruct answer; simpl in He; try done; by injection He as <-.
Qed.

Lemma evaluateBatch_stores_the_results_witness :
  batchResults
    (ui (snd (run evaluateBatch stocked
                (setBatchData (quoted "[{'age': 1}]") (setError (js "stale") twoRules)))))
    = VUndefined /\
  error
    (ui (snd (run evaluateBatch stocked
                (setBatchData (quoted "[{'age': 1}]") (setError (js "stale") twoRules)))))
    = js "stale".
Proof.
  destruct (evaluateBatch_stores_the_results stocked
              (setBatchData (quoted "[{'age': 1}]") (setError (js "stale") twoRules))
              [VObj [(js "age", VNum (Fin false [49] 1))]] 200
              (VObj [(js "result", VBool false)]) []) as [Hstored _].
  - vm_compute. reflexivity.
  - reflexivity.
  - rewrite (Hstored VUndefined eq_refl). split; reflexivity.
Defined.

(** X15: the three refusals of validateJsonData: a blank text gives
    [Evaluation data cannot be empty]; a text that is not blank and does not
    parse as JSON gives [Invalid JSON format. Please check your input.]; a
    text that denotes a number, a string, a boolean or [null] gives [Data must
    be a JSON object or array].  In each case it returns false and sends
    nothing. *)
Theorem validateJsonData_messages (text : list N) (w : World) (s : Sys) :
  (isEmpty (trim text) = true ->
   validateJsonData text w s
   = (inr false, mkSys (setError (js "Evaluation data cannot be empty") (ui s))
                       (sent s))) /\
  (isEmpty (trim text) = false -> JSON.parse text = None ->
   validateJsonData text w s
   = (inr false,
      mkSys (setError (js "Invalid JSON format. Please check your input.") (ui s))
            (sent s))) /\
  (forall v, JSON.parse text = Some v -> isArray v = false -> isObject v = false ->
   validateJsonData text w s
   = (inr false, mkSys (setError (js "Data must be a JSON object or array") (ui s))
                       (sent s))).
Proof.
  unfold validateJsonData. unfold_handler. repeat split.
  - by intros ->.
  - by intros -> ->.
  - intros v Hp Ha Ho. rewrite (parse_not_blank _ _ Hp), Hp. simpl.
    by destruct v.
Qed.

Lemma validateJsonData_messages_witness :
  fst (validateJsonData (js "   ") serving (mkSys initialState [])) = inr false /\
  error (ui (snd (validateJsonData (js "   ") serving (mkSys initialState []))))
    = js "Evaluation data cannot be empty" /\
  error (ui (snd (validateJsonData (js "{age: 1}") serving (mkSys initialState []))))
    = js "Invalid JSON format. Please check your input." /\
  error (ui (snd (validateJsonData (js "7") serving (mkSys initialState []))))
    = js "Data must be a JSON object or array".
Proof.
  destruct (validateJsonData_messages (js "   ") serving (mkSys initialState []))
    as (H1 & _ & _).
  destruct (validateJsonData_messages (js "{age: 1}") serving (mkSys initialState []))
    as (_ & H2 & _).
  destruct (validateJsonData_messages (js "7") serving (mkSys initialState []))
    as (_ & _ & H3).
  rewrite (H1 eq_refl).
  rewrite H2 by (vm_compute; reflexivity).
  rewrite (H3 (VNum (Fin false [55] 1))) by (vm_compute; reflexivity).
  repeat split.
Defined.

Lemma formatJsonInput_run (w : World) (st : State) :
  match JSON.parse (evaluationData st) with
  | Some v =>
    exists text,
      JSON.parse text = Some (nullify v) /\
      run formatJsonInput w st
      = (inr tt, mkSys (setError [] (setEvaluationData text st)) [])
  | None => run formatJsonInput w st = (inr tt, mkSys (setError formatError st) [])
  end.
Proof.
  unfold run, formatJsonInput. unfold_handler.
  destruct (JSON.parse (evaluationData st)) as [v|] eqn:Hp; [|done].
  pose proof (parse_is_wellFormed _ _ Hp) as Hwf.
  destruct (nullify_wellFormed v Hwf) as (Hwf' & Hfin' & Hser).
  Transparent JSON.stringify2. unfold JSON.stringify2. Opaque JSON.stringify2.
  destruct (serialize_some [32; 32] [] v Hwf) as [text Ht].
  exists text. simpl. rewrite Ht. split; [|done].
  rewrite <- Hser in Ht. by apply parse_serialize in Ht.
Qed.

Lemma evaluateRequest_nullify (ruleId : Z) (v : jsval) :
  wellFormed v = true ->
  evaluateRequest ruleId (nullify v) = evaluateRequest ruleId v.
Proof.
  intros Hwf. unfold evaluateRequest. f_equal.
  assert (Hw : wellFormed (VObj [(js "data", v)]) = true) by (simpl; by rewrite Hwf).
  destruct (nullify_wellFormed _ Hw) as (_ & _ & Hser).
  Transparent JSON.stringify. unfold JSON.stringify. Opaque JSON.stringify.
  apply (Hser [] []).
Qed.

(** What evaluateRule sends and stores depends on the state only through the
    stored verdicts and through what the evaluation data denotes. *)
Lemma evaluateRule_reads (ruleId : Z) (w : World) (st1 st2 : State) :
  evaluationResults st1 = evaluationResults st2 ->
  (forall v, accepted (evaluationData st1) v ->
     exists v', accepted (evaluationData st2) v'
                /\ evaluateRequest ruleId v' = evaluateRequest ruleId v) ->
  ((~ exists v, accepted (evaluationData st1) v) ->
   ~ exists v, accepted (evaluationData st2) v) ->
  sent (snd (run (evaluateRule ruleId) w st2))
    = sent (snd (run (evaluateRule ruleId) w st1)) /\
  evaluationResults (ui (snd (run (evaluateRule ruleId) w st2)))
    = evaluationResults (ui (snd (run (evaluateRule ruleId) w st1))).
Proof.
  intros Hres Hacc Hrej. unfold run, evaluateRule. unfold_handler.
  rewrite !checkBackendConnection_run. simpl.
  destruct (w [healthRequest]) as [e | [] code answer]; try done. simpl.
  repeat match goal with
  | |- context [validateJsonData ?t ?w ?s] =>
    let Hyes := fresh "Hyes" in
    let Hno := fresh "Hno" in
    destruct (validateJsonData_run t w s) as [Hyes Hno];
    generalize dependent (validateJsonData t w s); intros
  end.
  destruct (accepted_cases (evaluationData st1)) as [(v & Hv & _) | (Hcase & _)].
  - destruct (Hacc v Hv) as (v' & Hv' & Hreq).
    rewrite (Hyes0 v Hv), (Hyes v' Hv').
    destruct Hv as [Hp _], Hv' as [Hp' _]. simpl. rewrite Hp, Hp'. simpl.
    rewrite Hreq, Hres. unfold detailError. unfold_handler. exec; done.
  - destruct (Hno0 Hcase) as (m & _ & ->).
    destruct (Hno (Hrej Hcase)) as (m' & _ & ->). done.
Qed.

(** X16: formatting the evaluation data changes nothing for the evaluation:
    run after formatJsonInput, evaluateRule sends the same requests and
    stores the same verdicts as it does without the formatting, whether the
    data parses or not. *)
Theorem formatting_keeps_the_request (ruleId : Z) (w : World) (st : State) :
  sent (snd (run (evaluateRule ruleId) w (ui (snd (run formatJsonInput w st)))))
    = sent (snd (run (evaluateRule ruleId) w st)) /\
  evaluationResults
    (ui (snd (run (evaluateRule ruleId) w (ui (snd (run formatJsonInput w st))))))
    = evaluationResults (ui (snd (run (evaluateRule ruleId) w st))).
Proof.
  pose proof (formatJsonInput_run w st) as Hrun.
  destruct (JSON.parse (evaluationData st)) as [v|] eqn:Hp.
  - destruct Hrun as (text & Hback & ->). simpl.
    pose proof (parse_is_wellFormed _ _ Hp) as Hwf.
    apply evaluateRule_reads; [done | |].
    + intros v0 [Hp0 Hk]. rewrite Hp in Hp0. injection Hp0 as <-.
      exists (nullify v). split.
      * split; [exact Hback|]. destruct v; simpl; simpl in Hk; intuition congruence.
      * by apply evaluateRequest_nullify.
    + intros Hno (v' & Hp' & Hk'). simpl in Hp'. rewrite Hback in Hp'.
      injection Hp' as <-. apply Hno. exists v. split; [done|].
      destruct v as [| | |x| | |]; simpl; simpl in Hk'; try intuition congruence.
      destruct (isFinite x); simpl in Hk'; intuition congruence.
  - rewrite Hrun. simpl. apply evaluateRule_reads; [done | |].
    + intros v [Hp' _]. congruence.
    + intros Hno (v' & Hp' & _). simpl in Hp'. congruence.
Qed.

(** X17: the button Format JSON is disabled only on data that formatJsonInput
    could not format: when the evaluation data is blank it does not parse as
    JSON, and formatJsonInput would only store the format error. *)
Theorem format_button_hides_only_failures (w : World) (st : State) :
  formatDisabled st = true ->
  JSON.parse (evaluationData st) = None /\
  run formatJsonInput w st = (inr tt, mkSys (setError formatError st) []).
Proof.
  unfold formatDisabled. intros Hb.
  assert (Hp : JSON.parse (evaluationData st) = None).
  { destruct (JSON.parse (evaluationData st)) as [v|] eqn:Hp; [|done].
    apply parse_not_blank in Hp. congruence. }
  split; [done|]. pose proof (formatJsonInput_run w st) as Hrun.
  by rewrite Hp in Hrun.
Qed.

Lemma format_button_hides_only_failures_witness :
  JSON.parse (evaluationData (setEvaluationData (js "  ") initialState)) = None /\
  error (ui (snd (run formatJsonInput serving
                    (setEvaluationData (js "  ") initialState)))) = formatError.
Proof.
  destruct (format_button_hides_only_failures serving
              (setEvaluationData (js "  ") initialState) eq_refl) as [H1 H2].
  split; [exact H1 | by rewrite H2].
Defined.

(** ** The selection *)

Ltac frame_done :=
  unfold listingFrame in *; simpl in *;
  repeat match goal with
         | H : _ /\ _ |- _ => destruct H
         end;
  first [ done | congruence | by left | by right
        | left; congruence | right; congruence ].

(** X18: no handler selects a rule.  createRule, evaluateRule, evaluateBatch
    and formatJsonInput leave the selection as it was; deleteRule leaves it
    or removes the deleted id from it; combineRules leaves it or empties
    it. *)
Theorem handlers_never_select (w : World) (st : State) (ruleId : Z) :
  selectedRules (ui (snd (run createRule w st))) = selectedRules st /\
  selectedRules (ui (snd (run (evaluateRule ruleId) w st))) = selectedRules st /\
  selectedRules (ui (snd (run evaluateBatch w st))) = selectedRules st /\
  selectedRules (ui (snd (run formatJsonInput w st))) = selectedRules st /\
  (selectedRules (ui (snd (run (deleteRule ruleId) w st))) = selectedRules st \/
   selectedRules (ui (snd (run (deleteRule ruleId) w st)))
   = filter (fun id => id ≠ ruleId) (selectedRules st)) /\
  (selectedRules (ui (snd (run combineRules w st))) = selectedRules st \/
   selectedRules (ui (snd (run combineRules w st))) = []).
Proof.
  split; [|split; [|split; [|split; [|split]]]].
  - unfold run, createRule, detailError, validateRule. unfold_handler.
    rewrite !checkBackendConnection_run. exec. all: frame_done.
  - unfold run, evaluateRule, detailError, validateJsonData. unfold_handler.
    rewrite !checkBackendConnection_run. exec. all: frame_done.
  - unfold run, evaluateBatch, validateJsonData. unfold_handler. exec.
    all: frame_done.
  - unfold run, formatJsonInput. unfold_handler. exec. all: frame_done.
  - unfold run, deleteRule. unfold_handler. exec. all: frame_done.
  - unfold run, combineRules. unfold_handler. exec. all: frame_done.
Qed.

Lemma filter_others (ruleId : Z) (l : list Z) :
  ruleId ∉ l -> filter (fun id => id ≠ ruleId) l = l.
Proof.
  induction l as [|x l IH]; [done|]. intros Hout.
  apply not_elem_of_cons in Hout as [Hx Hl].
  rewrite filter_cons_True by done. by rewrite IH.
Qed.

(** X19: a click on the checkbox of a rule flips whether that rule is
    selected and leaves every other rule as it was; a selection without a
    repeated id stays without one; and checking a rule that was not selected,
    then unchecking it, gives back the selection one started from. *)
Theorem checkbox_toggles_one_rule (ruleId : Z) (st : State) :
  isChecked ruleId (clickCheckbox ruleId st) = negb (isChecked ruleId st) /\
  (forall other, other <> ruleId ->
     isChecked other (clickCheckbox ruleId st) = isChecked other st) /\
  (NoDup (selectedRules st) -> NoDup (selectedRules (clickCheckbox ruleId st))) /\
  (isChecked ruleId st = false ->
   selectedRules (clickCheckbox ruleId (clickCheckbox ruleId st)) = selectedRules st).
Proof.
  unfold clickCheckbox, onChangeChecked, isChecked.
  destruct (decide (ruleId ∈ selectedRules st)) as [Hin | Hout].
  - rewrite (bool_decide_eq_true_2 _ Hin). simpl. repeat split.
    + apply bool_decide_eq_false_2. rewrite list_elem_of_filter. tauto.
    + intros other Ho. apply bool_decide_ext. rewrite list_elem_of_filter. tauto.
    + apply NoDup_filter.
    + done.
  - rewrite (bool_decide_eq_false_2 _ Hout). simpl.
    assert (Hnow : ruleId ∈ selectedRules st ++ [ruleId]).
    { apply elem_of_app. right. by apply list_elem_of_singleton. }
    repeat split.
    + by apply bool_decide_eq_true_2.
    + intros other Ho. apply bool_decide_ext.
      rewrite elem_of_app, list_elem_of_singleton. tauto.
    + intros Hnd. apply NoDup_app. repeat split; [done | | apply NoDup_singleton].
      intros x Hx Hx'. apply list_elem_of_singleton in Hx'. by subst.
    + intros _. rewrite (bool_decide_eq_true_2 _ Hnow). simpl.
      rewrite filter_app, filter_cons_False, filter_nil, app_nil_r by tauto.
      by apply filter_others.
Qed.

Lemma checkbox_toggles_one_rule_witness :
  isChecked 8 (clickCheckbox 8 (setSelectedRules [7]%Z twoRules)) = true /\
  isChecked 7 (clickCheckbox 8 (setSelectedRules [7]%Z twoRules)) = true /\
  NoDup (selectedRules (clickCheckbox 8 (setSelectedRules [7]%Z twoRules))) /\
  selectedRules (clickCheckbox 8 (clickCheckbox 8 (setSelectedRules [7]%Z twoRules)))
    = [7]%Z.
Proof.
  destruct (checkbox_toggles_one_rule 8 (setSelectedRules [7]%Z twoRules))
    as (H1 & H2 & H3 & H4).
  split; [exact H1 | split; [| split]].
  - rewrite (H2 7%Z) by lia. reflexivity.
  - apply H3. apply NoDup_singleton.
  - exact (H4 eq_refl).
Defined.

(** X20: the buttons Evaluate and Delete of a rule whose id is 0, or that has
    no id, do nothing: no request is sent and the state stays as it is.  For
    any other id they run evaluateRule and deleteRule on it. *)
Theorem rule_zero_cannot_be_operated (rule : Rule.t) (w : World) (st : State) :
  (Rule.rule_id rule = None \/ Rule.rule_id rule = Some 0%Z ->
   run (onClickEvaluate rule) w st = (inr tt, mkSys st []) /\
   run (onClickDelete rule) w st = (inr tt, mkSys st [])) /\
  (forall id, Rule.rule_id rule = Some id -> id <> 0%Z ->
   run (onClickEvaluate rule) w st = run (evaluateRule id) w st /\
   run (onClickDelete rule) w st = run (deleteRule id) w st).
Proof.
  unfold run, onClickEvaluate, onClickDelete. split.
  - intros [-> | ->]; [done|]. by vm_compute.
  - intros id -> Hid. simpl. rewrite number_of_Z_isZero.
    by rewrite bool_decide_eq_false_2.
Qed.

Lemma rule_zero_cannot_be_operated_witness :
  run (onClickDelete (Rule.mk (Some 0%Z) (js "first") [] (js "a AND b") None))
      serving twoRules
    = (inr tt, mkSys twoRules []) /\
  run (onClickDelete listedRule) serving twoRules = run (deleteRule 7) serving twoRules.
Proof.
  destruct (rule_zero_cannot_be_operated
              (Rule.mk (Some 0%Z) (js "first") [] (js "a AND b") None) serving twoRules)
    as [Hzero _].
  destruct (rule_zero_cannot_be_operated listedRule serving twoRules) as [_ Hother].
  split.
  - exact (proj2 (Hzero (or_intror eq_refl))).
  - apply (Hother 7%Z); [reflexivity | lia].
Defined.

(** X22: choosing a listed rule in the select of the AST tab, whose options
    carry the ids as text, selects a listed rule with that id, the chosen one
    when no other listed rule has its id; the id is taken to be a safe
    integer.  Choosing the placeholder, whose value is empty, or a value that
    reads as no listed id, deselects. *)
Theorem AST_select_finds_the_rule (st : State) :
  (forall r z,
     r ∈ rules st -> Rule.rule_id r = Some z -> safeInteger z ->
     exists r',
       selectedRule (onChangeASTSelect (NumberToString (number_of_Z z)) st) = Some r' /\
       r' ∈ rules st /\ Rule.rule_id r' = Some z /\
       ((forall other, other ∈ rules st -> Rule.rule_id other = Some z -> other = r) ->
        r' = r)) /\
  selectedRule (onChangeASTSelect [] st) = None /\
  (forall value,
     (forall r n, r ∈ rules st -> parseInt value = Some n -> Rule.rule_id r <> Some n) ->
     selectedRule (onChangeASTSelect value st) = None).
Proof.
  assert (Hnone : forall value,
    (forall r n, r ∈ rules st -> parseInt value = Some n -> Rule.rule_id r <> Some n) ->
    selectedRule (onChangeASTSelect value st) = None).
  { intros value Hno. unfold onChangeASTSelect. simpl.
    destruct (List.find _ (rules st)) as [r|] eqn:Ef; [|done]. exfalso.
    apply find_some in Ef as [Hin Hp]. apply list_elem_of_In in Hin.
    destruct (Rule.rule_id r) as [id|] eqn:Ei; [|done].
    destruct (parseInt value) as [n|] eqn:En; [|done].
    apply bool_decide_eq_true in Hp. subst n. by apply (Hno r id). }
  split; [|split; [|done]].
  - intros r z Hin Hid Hsafe. unfold onChangeASTSelect. simpl.
    rewrite parseInt_NumberToString by done.
    destruct (List.find _ (rules st)) as [r'|] eqn:Ef.
    + apply find_some in Ef as [Hin' Hp]. apply list_elem_of_In in Hin'.
      destruct (Rule.rule_id r') as [id|] eqn:Ei; [|done].
      apply bool_decide_eq_true in Hp. subst id.
      exists r'. repeat split; try done. intros Huniq. by apply Huniq.
    + exfalso. apply list_elem_of_In in Hin.
      pose proof (find_none _ _ Ef r Hin) as Hp. simpl in Hp. rewrite Hid in Hp.
      by rewrite bool_decide_eq_true_2 in Hp.
  - apply Hnone. intros r n _ Hp. vm_compute in Hp. done.
Qed.

Lemma AST_select_finds_the_rule_witness :
  exists r',
    selectedRule (onChangeASTSelect (js "8") twoRules) = Some r' /\
    Rule.rule_id r' = Some 8%Z /\ Rule.name r' = js "pairs".
Proof.
  destruct (AST_select_finds_the_rule twoRules) as (Hfound & _ & _).
  destruct (Hfound (Rule.mk (Some 8%Z) (js "pairs") [] (js "(a AND b) OR (c AND d)")
                      (Some fullAST)) 8%Z)
    as (r' & H1 & H2 & H3 & H4).
  - apply elem_of_cons. right. apply elem_of_cons. by left.
  - reflexivity.
  - unfold safeInteger. lia.
  - exists r'. split; [exact H1 | split; [exact H3 |]].
    rewrite H4; [reflexivity|].
    intros other Hother Hid. apply elem_of_cons in Hother as [-> | Hother].
    + discriminate Hid.
    + apply list_elem_of_singleton in Hother. exact Hother.
Defined.

(** ** More of the visualiser *)

(** X23: the nodes [buildGraph] returns are the nodes of the AST, a node
    before its subtrees and the left subtree before the right one; each is
    labelled with its value, or with its type when the value is falsy ([null],
    [false], [0], the empty string or absent), and has the type [default]. *)
Theorem buildGraph_labels (node : ASTNode) :
  forall parentId position,
    map Node.label (fst (buildGraph node parentId position))
      = map labelOf (preorder node) /\
    Forall (fun n => Node.type n = js "default")
      (fst (buildGraph node parentId position)).
Proof.
  induction node as [ty v l r IHl IHr] using ASTNode_induction.
  intros parentId position. rewrite buildGraph_unfold. cbv zeta.
  set (nid := nodeIdOf parentId ty).
  cbn [fst preorder]. rewrite !map_cons, !map_app. cbn [Node.label].
  assert (HL : map Node.label (fst (childGraph "-left" (-100) nid position l))
               = map labelOf (match l with Some x => preorder x | None => [] end)
               /\ Forall (fun n => Node.type n = js "default")
                    (fst (childGraph "-left" (-100) nid position l))).
  { destruct l as [x|]; [|done]. apply (IHl x eq_refl). }
  assert (HR : map Node.label (fst (childGraph "-right" 100 nid position r))
               = map labelOf (match r with Some x => preorder x | None => [] end)
               /\ Forall (fun n => Node.type n = js "default")
                    (fst (childGraph "-right" 100 nid position r))).
  { destruct r as [x|]; [|done]. apply (IHr x eq_refl). }
  destruct HL as [-> HL], HR as [-> HR]. split; [done|].
  apply Forall_cons. split; [done|]. by apply Forall_app.
Qed.

Lemma joined_mono (nodes nodes' : list Node.t) (e : Edge.t) :
  nodes ⊆ nodes' -> joined nodes e -> joined nodes' e.
Proof.
  intros Hsub (s & t & Hs & Ht & H). exists s, t. split; [by apply Hsub|].
  split; [by apply Hsub | done].
Qed.

(** X24: every edge [buildGraph] returns joins two returned nodes: its source
    is the id of a node, its target the id of a node placed 100 lower and 100
    to the left or to the right of that one, and its own id is the id of the
    source followed by [-left] or [-right] accordingly. *)
Theorem buildGraph_layout (node : ASTNode) :
  forall parentId position e,
    e ∈ snd (buildGraph node parentId position) ->
    joined (fst (buildGraph node parentId position)) e.
Proof.
  induction node as [ty v l r IHl IHr] using ASTNode_induction.
  intros parentId position e. rewrite buildGraph_unfold. cbv zeta.
  set (nid := nodeIdOf parentId ty). cbn [fst snd].
  set (root := Node.mk nid position (labelOf (mkASTNode ty v l r)) (js "default")).
  intros He. apply elem_of_app in He as [He | He].
  - destruct l as [x|]; [|by apply elem_of_nil in He]. simpl in He.
    apply elem_of_app in He as [He | He].
    + eapply joined_mono; [|by apply (IHl x eq_refl)].
      intros n Hn. apply elem_of_cons. right. apply elem_of_app. by left.
    + apply list_elem_of_singleton in He as ->.
      destruct (buildGraph_root x (Some (nid ++ js "-left"))
                  (fst position + -100, snd position + 100)%Z) as [rest Hr].
      eexists root, _. split; [by left|]. split.
      { apply elem_of_cons. right. apply elem_of_app. left. simpl. rewrite Hr. by left. }
      unfold root.
      cbn [Node.id Node.position Edge.source Edge.target Edge.id fst snd].
      rewrite nodeIdOf_child by done.
      repeat split; try done. left. split; [lia | done].
  - destruct r as [x|]; [|by apply elem_of_nil in He]. simpl in He.
    apply elem_of_app in He as [He | He].
    + eapply joined_mono; [|by apply (IHr x eq_refl)].
      intros n Hn. apply elem_of_cons. right. apply elem_of_app. by right.
    + apply list_elem_of_singleton in He as ->.
      destruct (buildGraph_root x (Some (nid ++ js "-right"))
                  (fst position + 100, snd position + 100)%Z) as [rest Hr].
      eexists root, _. split; [by left|]. split.
      { apply elem_of_cons. right. apply elem_of_app. right. simpl. rewrite Hr. by left. }
      unfold root.
      cbn [Node.id Node.position Edge.source Edge.target Edge.id fst snd].
      rewrite nodeIdOf_child by done.
      repeat split; try done. by right.
Qed.

Lemma buildGraph_layout_witness :
  joined (fst (graphOf sampleAST))
    (Edge.mk (js "root-right") (js "root") (js "root-right-operator")).
Proof.
  apply (buildGraph_layout sampleAST None (0, 0)%Z).
  vm_compute. do 3 (apply list_elem_of_further). apply list_elem_of_here.
Defined.

(** X25: the drawing overlaps: when a node has a left child with a right
    child and a right child with a left child, [buildGraph] places those two
    grandchildren, whose ids differ, at the same position, straight below the
    node by 200. *)
Theorem buildGraph_overlaps (ty : list N) (v : jsval) (l r lr rl : ASTNode)
    (parentId : option (list N)) (position : Z * Z) :
  right l = Some lr -> left r = Some rl ->
  exists a b,
    a ∈ fst (buildGraph (mkASTNode ty v (Some l) (Some r)) parentId position) /\
    b ∈ fst (buildGraph (mkASTNode ty v (Some l) (Some r)) parentId position) /\
    Node.id a <> Node.id b /\
    Node.position a = Node.position b /\
    Node.position a = (fst position, snd position + 200)%Z.
Proof.
  intros Hlr Hrl. rewrite buildGraph_unfold. cbv zeta.
  set (nid := nodeIdOf parentId ty). cbn [fst snd childGraph].
  destruct l as [tl vl ll l'], r as [tr vr r' rr]. simpl in Hlr, Hrl. subst l' r'.
  rewrite !buildGraph_unfold. cbv zeta. cbn [fst snd childGraph].
  rewrite !nodeIdOf_child by done.
  set (lid := nid ++ js "-left" ++ js "-" ++ tl).
  set (rid := nid ++ js "-right" ++ js "-" ++ tr).
  destruct (buildGraph_root lr (Some (lid ++ js "-right"))
              (fst position + -100 + 100, snd position + 100 + 100)%Z) as [ra Ha].
  destruct (buildGraph_root rl (Some (rid ++ js "-left"))
              (fst position + 100 + -100, snd position + 100 + 100)%Z) as [rb Hb].
  rewrite Ha, Hb.
  eexists _, _. split; [|split; [|split; [|split]]].
  - apply elem_of_cons. right. apply elem_of_app. left.
    apply elem_of_cons. right. apply elem_of_app. right. by left.
  - apply elem_of_cons. right. apply elem_of_app. right.
    apply elem_of_cons. right. apply elem_of_app. left.
    by left.
  - cbn [Node.id]. rewrite !nodeIdOf_child by done.
    apply (left_right_apart nid); unfold lid, rid.
    + eexists. by rewrite <- !app_assoc.
    + eexists. by rewrite <- !app_assoc.
  - cbn [Node.position]. f_equal; lia.
  - cbn [Node.position]. f_equal; lia.
Qed.

Lemma buildGraph_overlaps_witness :
  exists a b,
    a ∈ fst (graphOf fullAST) /\ b ∈ fst (graphOf fullAST) /\
    Node.id a <> Node.id b /\ Node.position a = Node.position b /\
    Node.position a = (0, 200)%Z.
Proof.
  exact (buildGraph_overlaps (js "operator") (VStr (js "OR")) pairAST pairAST
           leafAST leafAST None (0, 0)%Z eq_refl eq_refl).
Defined.

(** ** The batch request, and the refresh after an operation *)

Lemma ruleIds_wellFormed (listed : list Rule.t) :
  Forall (fun r => exists z, Rule.rule_id r = Some z /\ safeInteger z) listed ->
  wellFormed (VArr (map (fun r => idValue (Rule.rule_id r)) listed)) = true /\
  allFinite (VArr (map (fun r => idValue (Rule.rule_id r)) listed)) = true.
Proof.
  simpl. induction 1 as [|r listed (z & Hid & Hz) _ [IH1 IH2]]; [done|].
  simpl. rewrite Hid. simpl.
  apply number_of_Z_wellFormed in Hz as [-> ->]. done.
Qed.

(** X26: the body of the batch request decodes to an object with the members
    [rule_ids], the ids of the listed rules in the order of the listing, and
    [data_list], the array the batch data denotes with [null] in the place of
    every number beyond the range of a double; the listed rules are taken to
    have ids that are safe integers. *)
Theorem batchRequest_carries_ids_and_data
    (listed : list Rule.t) (text : list N) (items : list jsval) :
  Forall (fun r => exists z, Rule.rule_id r = Some z /\ safeInteger z) listed ->
  JSON.parse text = Some (VArr items) ->
  exists sentText,
    body (batchRequest listed (VArr items)) = Some sentText /\
    JSON.parse sentText
    = Some (VObj [(js "rule_ids",
                   VArr (map (fun r => idValue (Rule.rule_id r)) listed));
                  (js "data_list", VArr (map nullify items))]).
Proof.
  intros Hids Hp. apply parse_is_wellFormed in Hp.
  destruct (ruleIds_wellFormed listed Hids) as [Hwf Hfin].
  destruct (stringify_parse_nullify
              (VObj [(js "rule_ids",
                      VArr (map (fun r => idValue (Rule.rule_id r)) listed));
                     (js "data_list", VArr items)])) as (t & Ht & Hb).
  { change (wellFormed (VObj ?l)) with
      (keysOrdered (map fst l)
       && forallb (fun kv => match kv with (_, x) => wellFormed x end) l).
    cbn [map fst forallb]. rewrite Hwf, Hp. by vm_compute. }
  exists t. split; [exact Ht|]. rewrite Hb. f_equal.
  change (nullify (VObj ?l)) with
    (VObj (map (fun kv => match kv with (k, x) => (k, nullify x) end) l)).
  cbn [map]. by rewrite (nullify_finite _ Hfin).
Qed.

Lemma batchRequest_carries_ids_and_data_witness :
  exists sentText,
    body (batchRequest (rules twoRules) (VArr [VObj [(js "age", VNum (Fin false [49] 1))]]))
      = Some sentText /\
    JSON.parse sentText
    = Some (VObj [(js "rule_ids", idsValue [7; 8]%Z);
                  (js "data_list", VArr [VObj [(js "age", VNum (Fin false [49] 1))]])]).
Proof.
  apply (batchRequest_carries_ids_and_data (rules twoRules) (quoted "[{'age': 1}]")
           [VObj [(js "age", VNum (Fin false [49] 1))]]).
  - repeat (apply Forall_cons; split;
            [eexists; split; [reflexivity | unfold safeInteger; lia] |]).
    by apply Forall_nil.
  - vm_compute. reflexivity.
Defined.

Lemma fetchRules_lists (w : World) (s : Sys) (code : Z) (v : jsval)
    (listed : list Rule.t) :
  healthy (w (healthRequest :: sent s)) = true ->
  w (listRequest :: healthRequest :: sent s) = Response true code (JsonValue v listed) ->
  fetchRules w s
  = (inr tt,
     mkSys (setIsLoading false
              (setError [] (setRules listed
                 (setConnectionStatus connected (setIsLoading true (ui s))))))
           (listRequest :: healthRequest :: sent s)).
Proof.
  intros Hh Hl. unfold fetchRules. unfold_handler. rewrite checkBackendConnection_run.
  simpl. destruct (w (healthRequest :: sent s)) as [e | [] c a]; try done. simpl.
  by rewrite Hl.
Qed.

Ltac step_listing code v listed :=
  match goal with
  | |- context [fetchRules ?w ?s] =>
    rewrite (fetchRules_lists w s code v listed) by (simpl; assumption)
  end.

(** X27: after an operation that changes the rules, the listing is the
    backend's: when createRule, deleteRule or combineRules gets an ok answer
    to its operation, and the health check and the listing that follow are
    answered by ok responses, the rules are what that listing holds and the
    error is empty. *)
Theorem operations_refresh_the_listing
    (w : World) (st : State) (ruleId : Z) (code : Z) (v : jsval)
    (listed : list Rule.t) :
  (healthy (w [healthRequest]) = true ->
   validateRule (newRule st) = inr tt ->
   healthy (w [createRequest (newRule st); healthRequest]) = true ->
   healthy (w [healthRequest; createRequest (newRule st); healthRequest]) = true ->
   w [listRequest; healthRequest; createRequest (newRule st); healthRequest]
     = Response true code (JsonValue v listed) ->
   rules (ui (snd (run createRule w st))) = listed /\
   error (ui (snd (run createRule w st))) = []) /\
  (healthy (w [deleteRequest ruleId]) = true ->
   healthy (w [healthRequest; deleteRequest ruleId]) = true ->
   w [listRequest; healthRequest; deleteRequest ruleId]
     = Response true code (JsonValue v listed) ->
   rules (ui (snd (run (deleteRule ruleId) w st))) = listed /\
   error (ui (snd (run (deleteRule ruleId) w st))) = []) /\
  (healthy (w [combineRequest (combineRuleData st) (selectedRules st)]) = true ->
   healthy (w [healthRequest;
               combineRequest (combineRuleData st) (selectedRules st)]) = true ->
   w [listRequest; healthRequest;
      combineRequest (combineRuleData st) (selectedRules st)]
     = Response true code (JsonValue v listed) ->
   rules (ui (snd (run combineRules w st))) = listed /\
   error (ui (snd (run combineRules w st))) = []).
Proof.
  split; [|split].
  - intros Hh Hv Hc Hh' Hl. unfold run, createRule. unfold_handler.
    rewrite checkBackendConnection_run. simpl.
    destruct (w [healthRequest]) as [e | [] c a]; try done. simpl.
    rewrite Hv. simpl.
    destruct (w [createRequest (newRule st); healthRequest])
      as [e | [] c' a']; try done. simpl.
    by step_listing code v listed.
  - intros Hd Hh Hl. unfold run, deleteRule. unfold_handler. simpl.
    destruct (w [deleteRequest ruleId]) as [e | [] c a]; try done. simpl.
    by step_listing code v listed.
  - intros Hc Hh Hl. unfold run, combineRules. unfold_handler. simpl.
    destruct (w [combineRequest (combineRuleData st) (selectedRules st)])
      as [e | [] c a]; try done. simpl.
    by step_listing code v listed.
Qed.

Lemma operations_refresh_the_listing_witness :
  rules (ui (snd (run createRule stocked draftState))) = [listedRule] /\
  rules (ui (snd (run (deleteRule 8) stocked twoRules))) = [listedRule] /\
  rules (ui (snd (run combineRules stocked (setSelectedRules [7; 8]%Z twoRules))))
    = [listedRule].
Proof.
  destruct (operations_refresh_the_listing stocked draftState 8 200 listedBody
              [listedRule]) as (Hcreate & _ & _).
  destruct (operations_refresh_the_listing stocked twoRules 8 200 listedBody
              [listedRule]) as (_ & Hdelete & _).
  destruct (operations_refresh_the_listing stocked
              (setSelectedRules [7; 8]%Z twoRules) 8 200 listedBody [listedRule])
    as (_ & _ & Hcombine).
  split; [|split].
  - exact (proj1 (Hcreate eq_refl eq_refl eq_refl eq_refl eq_refl)).
  - exact (proj1 (Hdelete eq_refl eq_refl eq_refl)).
  - exact (proj1 (Hcombine eq_refl eq_refl eq_refl)).
Defined.

(** X28: evaluating and formatting leave the listing alone: evaluateRule,
    evaluateBatch and formatJsonInput never change the rules or the draft;
    evaluateRule changes neither the evaluation data nor the batch results,
    evaluateBatch neither the batch data, the stored verdicts nor the
    connection status, and formatJsonInput sends nothing. *)
Theorem evaluation_keeps_the_listing (w : World) (st : State) (ruleId : Z) :
  (rules (ui (snd (run (evaluateRule ruleId) w st))) = rules st /\
   newRule (ui (snd (run (evaluateRule ruleId) w st))) = newRule st /\
   evaluationData (ui (snd (run (evaluateRule ruleId) w st))) = evaluationData st /\
   batchResults (ui (snd (run (evaluateRule ruleId) w st))) = batchResults st) /\
  (rules (ui (snd (run evaluateBatch w st))) = rules st /\
   newRule (ui (snd (run evaluateBatch w st))) = newRule st /\
   batchData (ui (snd (run evaluateBatch w st))) = batchData st /\
   evaluationResults (ui (snd (run evaluateBatch w st))) = evaluationResults st /\
   connectionStatus (ui (snd (run evaluateBatch w st))) = connectionStatus st) /\
  (rules (ui (snd (run formatJsonInput w st))) = rules st /\
   newRule (ui (snd (run formatJsonInput w st))) = newRule st /\
   evaluationResults (ui (snd (run formatJsonInput w st))) = evaluationResults st /\
   sent (snd (run formatJsonInput w st)) = []).
Proof.
  split; [|split].
  - unfold run, evaluateRule, detailError, validateJsonData. unfold_handler.
    rewrite !checkBackendConnection_run. exec. all: done.
  - unfold run, evaluateBatch, validateJsonData. unfold_handler. exec. all: done.
  - unfold run, formatJsonInput. unfold_handler. exec. all: done.
Qed.

(** ** From the checkboxes to the combination *)

Lemma combineRules_sends (w : World) (st : State) :
  operationsSent (snd (run combineRules w st))
  = [combineRequest (combineRuleData st) (selectedRules st)].
Proof.
  unfold run, combineRules. unfold_handler. simpl.
  destruct (w [combineRequest (combineRuleData st) (selectedRules st)])
    as [e | [] code answer]; simpl;
    [ | step_fetchRules; simpl | ]; by count_operations.
Qed.

(** X29: starting with nothing selected, checking the boxes of two rules
    with different ids selects them in the order of the clicks; the button
    Combine Selected Rules is disabled after the first click and enabled after
    the second, a click on it opens the dialog, and combineRules then posts
    one request, for these two ids in that order and the form as it was. *)
Theorem select_two_and_combine (a b : Z) (w : World) (st : State) :
  selectedRules st = [] -> a <> b ->
  selectedRules (clickCheckbox b (clickCheckbox a st)) = [a; b] /\
  combineSelectedDisabled (clickCheckbox a st) = true /\
  combineSelectedDisabled (clickCheckbox b (clickCheckbox a st)) = false /\
  showCombineDialog (clickCombineSelected (clickCheckbox b (clickCheckbox a st)))
    = true /\
  operationsSent
    (snd (run combineRules w
            (clickCombineSelected (clickCheckbox b (clickCheckbox a st)))))
  = [combineRequest (combineRuleData st) [a; b]].
Proof.
  intros Hsel Hab.
  assert (E1 : selectedRules (clickCheckbox a st) = [a]).
  { unfold clickCheckbox, onChangeChecked, isChecked. rewrite Hsel.
    by rewrite bool_decide_eq_false_2 by apply not_elem_of_nil. }
  assert (E2 : selectedRules (clickCheckbox b (clickCheckbox a st)) = [a; b]).
  { unfold clickCheckbox at 1. unfold onChangeChecked, isChecked. rewrite E1.
    rewrite bool_decide_eq_false_2; [done|].
    intros Hin. apply list_elem_of_singleton in Hin. congruence. }
  assert (E3 : combineSelectedDisabled (clickCheckbox b (clickCheckbox a st)) = false).
  { unfold combineSelectedDisabled. by rewrite E2. }
  assert (E5 : combineRuleData (clickCheckbox b (clickCheckbox a st))
               = combineRuleData st).
  { unfold clickCheckbox, onChangeChecked. by destruct (negb _), (negb _). }
  split; [done|]. split; [unfold combineSelectedDisabled; by rewrite E1|].
  split; [done|].
  unfold clickCombineSelected. rewrite E3. split; [done|].
  rewrite combineRules_sends.
  change (selectedRules (setShowCombineDialog true ?s)) with (selectedRules s).
  change (combineRuleData (setShowCombineDialog true ?s)) with (combineRuleData s).
  by rewrite E2, E5.
Qed.

Lemma select_two_and_combine_witness :
  selectedRules (clickCheckbox 8 (clickCheckbox 7 twoRules)) = [7; 8]%Z /\
  operationsSent
    (snd (run combineRules serving
            (clickCombineSelected (clickCheckbox 8 (clickCheckbox 7 twoRules)))))
  = [combineRequest emptyCombineRuleData [7; 8]%Z].
Proof.
  destruct (select_two_and_combine 7 8 serving twoRules eq_refl) as (H1 & _ & _ & _ & H2).
  - lia.
  - exact (conj H1 H2).
Defined.
